(** * Clipboard-to-LLM pipeline: monitor, backend clients, credential vault

    A shallow embedding of the core of the overlay assistant:
    - [services/secureStorage.js]   (the credential vault),
    - [services/clipboardMonitor.js] and its adaptive variant,
    - [services/ollamaService.js] and the Gemini client,
    - the backend selection and the prompt building of [main.js].

    JavaScript strings are sequences of UTF-16 code units, so they are
    modelled as [list N]; buffers are [list byte]; the persisted store is a
    finite map; wall-clock times are integers (milliseconds).  Every
    [EventEmitter] is modelled by the list of events it has emitted together
    with the one piece of listener state the code depends on: Node throws
    from [emit('error', ...)] when no listener is registered for ['error'].
    Time stamps taken only to decorate an event payload are left out. *)

From Stdlib Require Import ZArith NArith List String Ascii Bool Lia Strings.Byte.
From stdpp Require Import gmap list.

Set Warnings "-register-all".
Local Open Scope N_scope.

(** ** JavaScript strings *)

Module Js.

Definition jsstring := list N.

(** A literal: the code units of an ASCII string. *)
Definition js (s : string) : jsstring :=
  map N_of_ascii (list_ascii_of_string s).

(** [WhiteSpace] and [LineTerminator] of ECMAScript: what [trim] strips and
    what [\s] matches. *)
Definition is_white_space (c : N) : bool :=
  (9 <=? c) && (c <=? 13) || (c =? 32) || (c =? 160) || (c =? 5760)
  || (8192 <=? c) && (c <=? 8202) || (c =? 8232) || (c =? 8233)
  || (c =? 8239) || (c =? 8287) || (c =? 12288) || (c =? 65279).

Fixpoint trimStart (s : jsstring) : jsstring :=
  match s with
  | [] => []
  | c :: s' => if is_white_space c then trimStart s' else s
  end.

Definition trimEnd (s : jsstring) : jsstring := rev (trimStart (rev s)).

Definition trim (s : jsstring) : jsstring := trimEnd (trimStart s).

Definition str_eqb (a b : jsstring) : bool := bool_decide (a = b).

Fixpoint startsWith (s needle : jsstring) : bool :=
  match needle, s with
  | [], _ => true
  | _ :: _, [] => false
  | a :: needle', b :: s' => (a =? b) && startsWith s' needle'
  end.

Fixpoint includes (s needle : jsstring) : bool :=
  startsWith s needle ||
  match s with
  | [] => false
  | _ :: s' => includes s' needle
  end.

(** [toLowerCase] on the ASCII range; the callers below apply it only to
    strings already checked to consist of ASCII letters, digits, [_] and
    [-], where it agrees with the full Unicode mapping. *)
Definition toLowerCase (s : jsstring) : jsstring :=
  map (fun c => if (65 <=? c) && (c <=? 90) then c + 32 else c) s.

(** [Array.prototype.join]. *)
Fixpoint join (sep : jsstring) (l : list jsstring) : jsstring :=
  match l with
  | [] => []
  | [x] => x
  | x :: l' => x ++ sep ++ join sep l'
  end.

(** Decimal rendering of a non-negative integer, as a template literal
    renders an HTTP status or a retry count. *)
Fixpoint uint_digits (u : Decimal.uint) : jsstring :=
  match u with
  | Decimal.Nil => []
  | Decimal.D0 u => 48 :: uint_digits u
  | Decimal.D1 u => 49 :: uint_digits u
  | Decimal.D2 u => 50 :: uint_digits u
  | Decimal.D3 u => 51 :: uint_digits u
  | Decimal.D4 u => 52 :: uint_digits u
  | Decimal.D5 u => 53 :: uint_digits u
  | Decimal.D6 u => 54 :: uint_digits u
  | Decimal.D7 u => 55 :: uint_digits u
  | Decimal.D8 u => 56 :: uint_digits u
  | Decimal.D9 u => 57 :: uint_digits u
  end.

Definition num_to_string (n : N) : jsstring := uint_digits (N.to_uint n).

(** An [Error] object: only [name] and [message] are ever inspected. *)
Record JsError := mkError { name : jsstring; message : jsstring }.

Definition new_Error (msg : jsstring) : JsError :=
  {| name := js "Error"; message := msg |}.

(** The outcome of evaluating a call: a value, or a thrown error. *)
Inductive completion (A : Type) :=
| Return (a : A)
| Throw (e : JsError).
Arguments Return {A} a.
Arguments Throw {A} e.

(** *** Regular expressions

    The patterns of the source are kept as data and run by a derivative
    matcher over code units. *)
Inductive regex :=
| Void
| Eps
| Class (p : N -> bool)
| Cat (r1 r2 : regex)
| Alt (r1 r2 : regex)
| Star (r : regex).

Definition Plus (r : regex) : regex := Cat r (Star r).
Definition Opt (r : regex) : regex := Alt r Eps.
Definition Chr (c : N) : regex := Class (N.eqb c).

Fixpoint Lit (s : jsstring) : regex :=
  match s with
  | [] => Eps
  | c :: s' => Cat (Chr c) (Lit s')
  end.

Fixpoint nullable (r : regex) : bool :=
  match r with
  | Void => false
  | Eps => true
  | Class _ => false
  | Cat r1 r2 => nullable r1 && nullable r2
  | Alt r1 r2 => nullable r1 || nullable r2
  | Star _ => true
  end.

Fixpoint deriv (c : N) (r : regex) : regex :=
  match r with
  | Void => Void
  | Eps => Void
  | Class p => if p c then Eps else Void
  | Cat r1 r2 =>
      if nullable r1 then Alt (Cat (deriv c r1) r2) (deriv c r2)
      else Cat (deriv c r1) r2
  | Alt r1 r2 => Alt (deriv c r1) (deriv c r2)
  | Star r1 => Cat (deriv c r1) (Star r1)
  end.

(** [matches r s]: the whole of [s] is in the language of [r]
    (the pattern [/^r$/]). *)
Fixpoint matches (r : regex) (s : jsstring) : bool :=
  match s with
  | [] => nullable r
  | c :: s' => matches (deriv c r) s'
  end.

(** The pattern [/^r/]: some prefix of [s] is in the language of [r]. *)
Definition matches_prefix (r : regex) (s : jsstring) : bool :=
  matches (Cat r (Star (Class (fun _ => true)))) s.

(** [.] matches anything but a line terminator. *)
Definition dot : regex :=
  Class (fun c => negb ((c =? 10) || (c =? 13) || (c =? 8232) || (c =? 8233))).

End Js.

Import Js.

(** ** Effects: state passing with exceptions

    A method body is a function from the state of its object to the new
    state and a completion.  [OutOfFuel] is produced only by the bounded
    unrolling of a [while] loop and is shown below to be unreachable. *)

Module Eff.

Inductive outcome (A : Type) :=
| Value (a : A)
| Raise (e : JsError)
| OutOfFuel.
Arguments Value {A} a.
Arguments Raise {A} e.
Arguments OutOfFuel {A}.

Definition M (S A : Type) : Type := S -> S * outcome A.

#[global] Instance M_ret {S} : MRet (M S) :=
  fun A (a : A) s => (s, Value a).

#[global] Instance M_bind {S} : MBind (M S) :=
  fun A B (k : A -> M S B) (m : M S A) s =>
    match m s with
    | (s', Value a) => k a s'
    | (s', Raise e) => (s', Raise e)
    | (s', OutOfFuel) => (s', OutOfFuel)
    end.

Definition ret {S A} (a : A) : M S A := mret a.

Definition throw {S A} (e : JsError) : M S A := fun s => (s, Raise e).

(** [try { m } catch (error) { h error }] *)
Definition try_catch {S A} (m : M S A) (h : JsError -> M S A) : M S A :=
  fun s =>
    match m s with
    | (s', Raise e) => h e s'
    | r => r
    end.

Definition get {S} : M S S := fun s => (s, Value s).

Definition modify {S} (f : S -> S) : M S unit := fun s => (f s, Value tt).

(** Lift the completion of a call to an external collaborator. *)
Definition lift {S A} (c : completion A) : M S A :=
  match c with
  | Return a => ret a
  | Throw e => throw e
  end.

(** A computation [advances] a relation on states when every run, whatever
    its outcome, ends in a state related to the one it started from. *)
Definition advances {S A} (R : S -> S -> Prop) (m : M S A) : Prop :=
  forall s, R s (fst (m s)).

End Eff.

Import Eff.

(** What Node throws from [emit('error', payload)] when the emitter has no
    listener for ['error'] and the payload is not an [Error]. *)
Definition ERR_UNHANDLED_ERROR : JsError :=
  {| name := js "Error"; message := js "Unhandled error." |}.

(** ** JSON values and [JSON.parse] *)

Module Json.

Inductive json :=
| JNull
| JBool (b : bool)
| JNum (lexeme : jsstring)
| JStr (s : jsstring)
| JArr (items : list json)
| JObj (fields : list (jsstring * json)).

(** JSON white space: space, tab, line feed, carriage return. *)
Definition is_json_ws (c : N) : bool :=
  (c =? 32) || (c =? 9) || (c =? 10) || (c =? 13).

Fixpoint skip_ws (s : jsstring) : jsstring :=
  match s with
  | [] => []
  | c :: s' => if is_json_ws c then skip_ws s' else s
  end.

Definition is_digit (c : N) : bool := (48 <=? c) && (c <=? 57).

Definition hex_value (c : N) : option N :=
  if is_digit c then Some (c - 48)
  else if (97 <=? c) && (c <=? 102) then Some (c - 87)
  else if (65 <=? c) && (c <=? 70) then Some (c - 55)
  else None.

Definition escape_value (c : N) : option N :=
  if c =? 34 then Some 34
  else if c =? 92 then Some 92
  else if c =? 47 then Some 47
  else if c =? 98 then Some 8
  else if c =? 102 then Some 12
  else if c =? 110 then Some 10
  else if c =? 114 then Some 13
  else if c =? 116 then Some 9
  else None.

(** The characters of a string literal after its opening quote. *)
Fixpoint parse_chars (s : jsstring) (acc : jsstring)
  : option (jsstring * jsstring) :=
  match s with
  | [] => None
  | c :: s1 =>
      if c =? 34 then Some (rev acc, s1)
      else if c =? 92 then
        match s1 with
        | [] => None
        | e :: s2 =>
            if e =? 117 then
              match s2 with
              | h1 :: h2 :: h3 :: h4 :: s3 =>
                  match hex_value h1, hex_value h2, hex_value h3, hex_value h4 with
                  | Some a, Some b, Some c', Some d =>
                      parse_chars s3 (((a * 16 + b) * 16 + c') * 16 + d :: acc)
                  | _, _, _, _ => None
                  end
              | _ => None
              end
            else
              match escape_value e with
              | Some v => parse_chars s2 (v :: acc)
              | None => None
              end
        end
      else if c <? 32 then None
      else parse_chars s1 (c :: acc)
  end.

Fixpoint take_digits (s : jsstring) (acc : jsstring) : jsstring * jsstring :=
  match s with
  | c :: s' => if is_digit c then take_digits s' (c :: acc) else (acc, s)
  | [] => (acc, [])
  end.

(** One or more digits, pushed on [acc]. *)
Definition digits1 (s acc : jsstring) : option (jsstring * jsstring) :=
  match s with
  | c :: _ => if is_digit c then Some (take_digits s acc) else None
  | [] => None
  end.

(** A JSON number: an optional minus sign, an integer part without leading
    zeros, an optional fraction and an optional exponent; the result is the
    lexeme and the rest of the input. *)
Definition parse_number (s : jsstring) : option (jsstring * jsstring) :=
  let '(acc0, s0) :=
    match s with
    | c :: s' => if c =? 45 then ([c], s') else ([], s)
    | [] => ([], s)
    end in
  let int_part :=
    match s0 with
    | c :: s' =>
        if c =? 48 then Some (c :: acc0, s')
        else if is_digit c then Some (take_digits s0 acc0)
        else None
    | [] => None
    end in
  match int_part with
  | None => None
  | Some (acc1, s1) =>
      let frac_part :=
        match s1 with
        | c :: s' => if c =? 46 then digits1 s' (c :: acc1) else Some (acc1, s1)
        | [] => Some (acc1, s1)
        end in
      match frac_part with
      | None => None
      | Some (acc2, s2) =>
          let exp_part :=
            match s2 with
            | c :: s' =>
                if (c =? 101) || (c =? 69) then
                  match s' with
                  | g :: s'' =>
                      if (g =? 43) || (g =? 45) then digits1 s'' (g :: c :: acc2)
                      else digits1 s' (c :: acc2)
                  | [] => None
                  end
                else Some (acc2, s2)
            | [] => Some (acc2, s2)
            end in
          match exp_part with
          | None => None
          | Some (acc3, s3) => Some (rev acc3, s3)
          end
      end
  end.

Definition expect (lit : jsstring) (v : json) (s : jsstring)
  : option (json * jsstring) :=
  if startsWith s lit then Some (v, drop (length lit) s) else None.

Fixpoint parse_value (fuel : nat) (s : jsstring) : option (json * jsstring) :=
  match fuel with
  | O => None
  | S fuel' =>
      match skip_ws s with
      | [] => None
      | c :: s1 =>
          if c =? 123 then
            match skip_ws s1 with
            | d :: s2 => if d =? 125 then Some (JObj [], s2)
                         else parse_members fuel' s1 []
            | [] => None
            end
          else if c =? 91 then
            match skip_ws s1 with
            | d :: s2 => if d =? 93 then Some (JArr [], s2)
                         else parse_elements fuel' s1 []
            | [] => None
            end
          else if c =? 34 then
            match parse_chars s1 [] with
            | Some (str, s2) => Some (JStr str, s2)
            | None => None
            end
          else if c =? 116 then expect (js "true") (JBool true) (c :: s1)
          else if c =? 102 then expect (js "false") (JBool false) (c :: s1)
          else if c =? 110 then expect (js "null") JNull (c :: s1)
          else
            match parse_number (c :: s1) with
            | Some (lexeme, s2) => Some (JNum lexeme, s2)
            | None => None
            end
      end
  end
with parse_elements (fuel : nat) (s : jsstring) (acc : list json)
  : option (json * jsstring) :=
  match fuel with
  | O => None
  | S fuel' =>
      match parse_value fuel' s with
      | None => None
      | Some (v, s1) =>
          match skip_ws s1 with
          | c :: s2 =>
              if c =? 44 then parse_elements fuel' s2 (v :: acc)
              else if c =? 93 then Some (JArr (rev (v :: acc)), s2)
              else None
          | [] => None
          end
      end
  end
with parse_members (fuel : nat) (s : jsstring) (acc : list (jsstring * json))
  : option (json * jsstring) :=
  match fuel with
  | O => None
  | S fuel' =>
      match skip_ws s with
      | q :: s0 =>
          if q =? 34 then
            match parse_chars s0 [] with
            | None => None
            | Some (key, s1) =>
                match skip_ws s1 with
                | c :: s2 =>
                    if c =? 58 then
                      match parse_value fuel' s2 with
                      | None => None
                      | Some (v, s3) =>
                          match skip_ws s3 with
                          | d :: s4 =>
                              if d =? 44 then
                                parse_members fuel' s4 ((key, v) :: acc)
                              else if d =? 125 then
                                Some (JObj (rev ((key, v) :: acc)), s4)
                              else None
                          | [] => None
                          end
                      end
                    else None
                | [] => None
                end
            end
          else None
      | [] => None
      end
  end.

Definition SyntaxError : JsError :=
  {| name := js "SyntaxError"; message := js "Unexpected token in JSON" |}.

(** [JSON.parse(text)]: one value, surrounded by white space only.  Every
    recursive call is made after at most two steps without consuming a
    character, so twice the length of the text is fuel enough. *)
Definition JSON_parse (text : jsstring) : completion json :=
  match parse_value (2 * length text + 2) text with
  | Some (v, rest) =>
      match skip_ws rest with
      | [] => Return v
      | _ :: _ => Throw SyntaxError
      end
  | None => Throw SyntaxError
  end.

(** A JavaScript value read out of parsed JSON: [None] is [undefined]. *)
Definition value := option json.

Definition TypeError (msg : jsstring) : JsError :=
  {| name := js "TypeError"; message := msg |}.

(** Own property lookup in an object literal: the last duplicate wins. *)
Fixpoint lookup_field (k : jsstring) (fields : list (jsstring * json)) : value :=
  match fields with
  | [] => None
  | (k', v) :: fields' =>
      match lookup_field k fields' with
      | Some w => Some w
      | None => if str_eqb k k' then Some v else None
      end
  end.

(** [v.k] for a property name [k] that no prototype defines and that is not
    an array index ([candidates], [content], [parts], [text],
    [finishReason], [backend]). *)
Definition get_prop (v : value) (k : jsstring) : completion value :=
  match v with
  | None => Throw (TypeError (js "Cannot read properties of undefined"))
  | Some JNull => Throw (TypeError (js "Cannot read properties of null"))
  | Some (JObj fields) => Return (lookup_field k fields)
  | Some _ => Return None
  end.

(** [v[0]] *)
Definition get_index0 (v : value) : completion value :=
  match v with
  | None => Throw (TypeError (js "Cannot read properties of undefined"))
  | Some JNull => Throw (TypeError (js "Cannot read properties of null"))
  | Some (JObj fields) => Return (lookup_field (js "0") fields)
  | Some (JArr items) => Return (head items)
  | Some (JStr s) =>
      Return (match s with [] => None | c :: _ => Some (JStr [c]) end)
  | Some _ => Return None
  end.

Definition digits_value (ds : jsstring) : N :=
  fold_left (fun acc c => acc * 10 + (c - 48)) ds 0.

Definition digits_of (s : jsstring) : jsstring * jsstring :=
  let '(acc, rest) := take_digits s [] in (rev acc, rest).

(** Whether the number written by [lexeme] is zero once read as a double:
    its digits are all zero, or its magnitude is at most [2^-1075], half the
    smallest positive double. *)
Definition number_is_zero (lexeme : jsstring) : bool :=
  let body :=
    match lexeme with
    | c :: r => if c =? 45 then r else lexeme
    | [] => []
    end in
  let '(int_digits, r1) := digits_of body in
  let '(frac_digits, r2) :=
    match r1 with
    | c :: r => if c =? 46 then digits_of r else ([], r1)
    | [] => ([], [])
    end in
  let exponent : Z :=
    match r2 with
    | _ :: g :: r =>
        if g =? 45 then (- Z.of_N (digits_value (fst (digits_of r))))%Z
        else if g =? 43 then Z.of_N (digits_value (fst (digits_of r)))
        else Z.of_N (digits_value (fst (digits_of (g :: r))))
    | _ => 0%Z
    end in
  let m := Z.of_N (digits_value (int_digits ++ frac_digits)) in
  let e10 := (exponent - Z.of_nat (length frac_digits))%Z in
  (m =? 0)%Z || ((e10 <? 0)%Z && (m * 2 ^ 1075 <=? 10 ^ (- e10))%Z).

(** [ToBoolean] *)
Definition truthy (v : value) : bool :=
  match v with
  | None => false
  | Some JNull => false
  | Some (JBool b) => b
  | Some (JNum lexeme) => negb (number_is_zero lexeme)
  | Some (JStr s) => match s with [] => false | _ :: _ => true end
  | Some (JArr _) => true
  | Some (JObj _) => true
  end.

Section ToString.

(** [Number::toString] applied to the double written by a lexeme. *)
Variable Number_toString : jsstring -> jsstring.

(** [ToString] on a parsed value, as string concatenation applies it. *)
Fixpoint to_string (v : json) : jsstring :=
  match v with
  | JNull => js "null"
  | JBool true => js "true"
  | JBool false => js "false"
  | JNum lexeme => Number_toString lexeme
  | JStr s => s
  | JArr items =>
      join (js ",")
        (map (fun x => match x with JNull => [] | _ => to_string x end) items)
  | JObj _ => js "[object Object]"
  end.

End ToString.

End Json.

Import Json.

(** ** The credential vault ([services/secureStorage.js]) *)

Module Vault.

Definition Buffer := list byte.

(** [buffer.toString('latin1')]: one code unit per byte. *)
Definition toString_latin1 (b : Buffer) : jsstring := map Byte.to_N b.

(** [Buffer.from(s, 'latin1')]: the low byte of every code unit. *)
Definition Buffer_from_latin1 (s : jsstring) : Buffer :=
  map (fun c => default x00 (Byte.of_N (c mod 256))) s.

(** Electron's [safeStorage], an external collaborator. *)
Record SafeStorage := {
  encryptString : jsstring -> completion Buffer;
  decryptString : Buffer -> completion jsstring
}.

(** What [fetch] does for the model-listing request. *)
Inductive FetchOutcome :=
| Responded (status : N) (statusText : jsstring)
| Rejected (e : JsError).

Inductive Event :=
| ApiKeyStored (keyName : jsstring) (storageBackend : jsstring)
    (warnings : list jsstring)
| ApiKeyRetrieved (keyName : jsstring) (storageBackend : jsstring)
| BackendConfigRetrieved (storageBackend : jsstring)
| ErrorEvent (type : jsstring) (keyName : option jsstring) (error : jsstring).

Definition is_error_event (ev : Event) : bool :=
  match ev with
  | ErrorEvent _ _ _ => true
  | _ => false
  end.

(** The service object.  [store] is the electron-store file seen as a map
    from key names to the strings written under them; [requests] records the
    API keys sent to the model-listing endpoint. *)
Record Service := mkService {
  store : gmap jsstring jsstring;
  storageBackend : jsstring;
  errorListener : bool;
  emitted : list Event;
  requests : list jsstring
}.

Definition set_store (f : gmap jsstring jsstring -> gmap jsstring jsstring)
  (s : Service) : Service :=
  mkService (f (store s)) (storageBackend s) (errorListener s) (emitted s)
    (requests s).

Definition push_event (ev : Event) (s : Service) : Service :=
  mkService (store s) (storageBackend s) (errorListener s) (emitted s ++ [ev])
    (requests s).

Definition push_request (k : jsstring) (s : Service) : Service :=
  mkService (store s) (storageBackend s) (errorListener s) (emitted s)
    (requests s ++ [k]).

(** [this.emit(name, payload)] *)
Definition emit (ev : Event) : M Service unit :=
  fun s =>
    if is_error_event ev && negb (errorListener s)
    then (s, Raise ERR_UNHANDLED_ERROR)
    else (push_event ev s, Value tt).

Definition KEYS_GEMINI_API_KEY : jsstring := js "gemini_api_key".
Definition KEYS_BACKEND_CONFIG : jsstring := js "backend_config".

Record Validation := mkValidation {
  isValid : bool;
  errors : list jsstring;
  warnings : list jsstring
}.

Definition is_key_char (c : N) : bool :=
  (65 <=? c) && (c <=? 90) || (97 <=? c) && (c <=? 122)
  || (48 <=? c) && (c <=? 57) || (c =? 95) || (c =? 45).

(** [/^[A-Za-z0-9_-]+$/] *)
Definition validPattern : regex := Plus (Class is_key_char).

(** [validateApiKeyFormat(apiKey)], for a string argument. *)
Definition validateApiKeyFormat (apiKey : jsstring) : Validation :=
  match apiKey with
  | [] => mkValidation false [js "API key must be a non-empty string"] []
  | _ :: _ =>
      let trimmedKey := trim apiKey in
      if (length trimmedKey <? 20)%nat then
        mkValidation false [js "API key is too short (minimum 20 characters)"] []
      else
        let warnings1 :=
          if (100 <? length trimmedKey)%nat
          then [js "API key is unusually long"] else [] in
        if negb (startsWith trimmedKey (js "AI")) then
          mkValidation false
            [js "Gemini API key should start with " ++ [34] ++ js "AI" ++ [34]]
            warnings1
        else if negb (matches validPattern trimmedKey) then
          mkValidation false [js "API key contains invalid characters"] warnings1
        else if includes trimmedKey (js " ") then
          mkValidation false [js "API key should not contain spaces"] warnings1
        else
          let warnings2 :=
            if includes (toLowerCase trimmedKey) (js "example")
               || includes (toLowerCase trimmedKey) (js "test")
               || includes (toLowerCase trimmedKey) (js "demo")
            then warnings1 ++ [js "API key appears to be a test/demo key"]
            else warnings1 in
          mkValidation true [] warnings2
  end.

Record ApiTest := mkApiTest {
  test_isValid : bool;
  test_error : option jsstring;
  test_details : option (N * jsstring)
}.

Section WithEnvironment.

Variable safeStorage : SafeStorage.
Variable fetch_models : jsstring -> FetchOutcome.

(** [testApiKeyAgainstGemini(apiKey)]: one GET on the model-listing
    endpoint carrying the key. *)
Definition testApiKeyAgainstGemini (apiKey : jsstring) : M Service ApiTest :=
  modify (push_request apiKey) ;;
  ret
    match fetch_models apiKey with
    | Responded status statusText =>
        if (200 <=? status) && (status <=? 299) then
          mkApiTest true None (Some (status, statusText))
        else if status =? 400 then
          mkApiTest false (Some (js "Invalid API key format")) None
        else if status =? 401 then
          mkApiTest false (Some (js "API key is invalid or expired")) None
        else if status =? 403 then
          mkApiTest false
            (Some (js "API key does not have permission to access Gemini API"))
            None
        else if status =? 429 then
          mkApiTest false (Some (js "API rate limit exceeded")) None
        else
          mkApiTest false (Some (js "API request failed: " ++ statusText)) None
    | Rejected error =>
        if str_eqb (name error) (js "AbortError") then
          mkApiTest false (Some (js "API request timed out")) None
        else if str_eqb (name error) (js "TypeError")
                && includes (message error) (js "fetch") then
          mkApiTest false
            (Some (js "Network error - unable to reach Gemini API")) None
        else
          mkApiTest false (Some (js "Unexpected error: " ++ message error)) None
    end.

Record StoreDetails := mkDetails {
  details_keyName : option jsstring;
  details_storageBackend : option jsstring;
  details_warnings : option (list jsstring);
  details_apiTest : option (option (N * jsstring))
}.

Record StoreResult := mkStoreResult {
  success : bool;
  error : option jsstring;
  details : StoreDetails
}.

Definition no_details : StoreDetails := mkDetails None None None None.

(** [storeApiKey(keyName, apiKey, options)], for a string [apiKey];
    [testAgainstApi] is [options.testAgainstApi]. *)
Definition storeApiKey (keyName apiKey : jsstring) (testAgainstApi : bool)
  : M Service StoreResult :=
  try_catch
    (match apiKey with
     | [] => throw (new_Error (js "Invalid API key provided"))
     | _ :: _ =>
         if (length (trim apiKey) =? 0)%nat
         then throw (new_Error (js "Invalid API key provided"))
         else ret tt
     end ;;
     let validation := validateApiKeyFormat apiKey in
     (if negb (isValid validation) then
        throw (new_Error (js "API key format validation failed: "
                          ++ join (js ", ") (errors validation)))
      else ret tt) ;;
     let warned :=
       if (0 <? length (warnings validation))%nat
       then Some (warnings validation) else None in
     tested ←
       (if testAgainstApi then
          apiTest ← testApiKeyAgainstGemini apiKey;
          if negb (test_isValid apiTest) then
            throw (new_Error (js "API key test failed: "
                              ++ default (js "null") (test_error apiTest)))
          else ret (Some (test_details apiTest))
        else ret None);
     encryptedBuffer ← lift (encryptString safeStorage apiKey);
     let encryptedString := toString_latin1 encryptedBuffer in
     modify (set_store (insert keyName encryptedString)) ;;
     s ← get;
     emit (ApiKeyStored keyName (storageBackend s) (warnings validation)) ;;
     ret (mkStoreResult true None
            (mkDetails (Some keyName) (Some (storageBackend s)) warned tested)))
    (fun err =>
       emit (ErrorEvent (js "store-failed") (Some keyName) (message err)) ;;
       ret (mkStoreResult false (Some (message err)) no_details)).

(** [retrieveApiKey(keyName)]: [None] is [null]. *)
Definition retrieveApiKey (keyName : jsstring) : M Service (option jsstring) :=
  try_catch
    (s ← get;
     match store s !! keyName with
     | None | Some [] => ret None
     | Some encryptedString =>
         let encryptedBuffer := Buffer_from_latin1 encryptedString in
         decryptedApiKey ← lift (decryptString safeStorage encryptedBuffer);
         emit (ApiKeyRetrieved keyName (storageBackend s)) ;;
         ret (Some decryptedApiKey)
     end)
    (fun err =>
       emit (ErrorEvent (js "retrieve-failed") (Some keyName) (message err)) ;;
       ret None).

Definition storeGeminiApiKey (apiKey : jsstring) (testAgainstApi : bool)
  : M Service StoreResult :=
  storeApiKey KEYS_GEMINI_API_KEY apiKey testAgainstApi.

Definition retrieveGeminiApiKey : M Service (option jsstring) :=
  retrieveApiKey KEYS_GEMINI_API_KEY.

Definition hasApiKey (keyName : jsstring) (s : Service) : bool :=
  bool_decide (is_Some (store s !! keyName)).

Definition hasGeminiApiKey (s : Service) : bool :=
  hasApiKey KEYS_GEMINI_API_KEY s.

(** [retrieveBackendConfig()]: [None] is [null]. *)
Definition retrieveBackendConfig : M Service (option json) :=
  try_catch
    (s ← get;
     match store s !! KEYS_BACKEND_CONFIG with
     | None | Some [] => ret None
     | Some encryptedString =>
         let encryptedBuffer := Buffer_from_latin1 encryptedString in
         decryptedString ← lift (decryptString safeStorage encryptedBuffer);
         config ← lift (JSON_parse decryptedString);
         emit (BackendConfigRetrieved (storageBackend s)) ;;
         ret (Some config)
     end)
    (fun err =>
       emit (ErrorEvent (js "config-retrieve-failed") None (message err)) ;;
       ret None).

(** Repeated store/retrieve cycles: each pair is stored (without the live
    test) and read back at once; the results of the reads are collected. *)
Fixpoint store_retrieve_cycles (cycles : list (jsstring * jsstring))
  (s : Service) : Service * list (outcome (option jsstring)) :=
  match cycles with
  | [] => (s, [])
  | (keyName, apiKey) :: rest =>
      let '(s1, _) := storeApiKey keyName apiKey false s in
      let '(s2, r) := retrieveApiKey keyName s1 in
      let '(s3, rs) := store_retrieve_cycles rest s2 in
      (s3, r :: rs)
  end.

End WithEnvironment.

(** A stand-in for [safeStorage] used to exercise the vault: the payload is
    the big-endian bytes of the code units behind a three-byte tag, the
    shape of an Electron blob without the cipher. *)
Definition tag : Buffer := [x76; x31; x30].

Definition unit_bytes (c : N) : Buffer :=
  [default x00 (Byte.of_N (c / 256 mod 256));
   default x00 (Byte.of_N (c mod 256))].

Fixpoint units_of_bytes (b : Buffer) : option jsstring :=
  match b with
  | [] => Some []
  | hi :: lo :: b' =>
      match units_of_bytes b' with
      | Some s => Some ((Byte.to_N hi * 256 + Byte.to_N lo) :: s)
      | None => None
      end
  | [_] => None
  end.

Definition decryptError : JsError :=
  new_Error (js "Error while decrypting the ciphertext provided to safeStorage.decryptString.").

Definition plain_safeStorage : SafeStorage :=
  {| encryptString := fun s => Return (tag ++ flat_map unit_bytes s);
     decryptString := fun b =>
       match b with
       | t1 :: t2 :: t3 :: payload =>
           if Byte.eqb t1 x76 && Byte.eqb t2 x31 && Byte.eqb t3 x30 then
             match units_of_bytes payload with
             | Some s => Return s
             | None => Throw decryptError
             end
           else Throw decryptError
       | _ => Throw decryptError
       end |}.

(** The static checks on the format of a key. *)
Definition static_checks (k : jsstring) : Prop :=
  (20 <= length (trim k))%nat
  /\ startsWith (trim k) (js "AI") = true
  /\ forallb is_key_char (trim k) = true.

(** The contract of [safeStorage] at one string: encryption yields a
    non-empty blob that decrypts to that string. *)
Definition encrypts_faithfully (safe : SafeStorage) (x : jsstring) : Prop :=
  exists blob, encryptString safe x = Return blob
               /\ blob <> []
               /\ decryptString safe blob = Return x.

(** The blob persisted under [keyName] cannot be decrypted. *)
Definition decryption_fails (safe : SafeStorage) (s : Service)
  (keyName : jsstring) : Prop :=
  exists blob e,
    store s !! keyName = Some blob
    /\ decryptString safe (Buffer_from_latin1 blob) = Throw e.

Definition key1 : jsstring := js "AIzaSyA-1234567890_abcdefghijklmnopqrs".
Definition key2 : jsstring := js "  AIzaSyB_0987654321-zyxwvutsrqponmlkjih ".

Definition empty_vault : Service :=
  mkService ∅ (js "basic_text") true [] [].

Definition offline (k : jsstring) : FetchOutcome :=
  Rejected {| name := js "TypeError"; message := js "fetch failed" |}.

Definition corrupted_vault : Service :=
  mkService
    (<[KEYS_BACKEND_CONFIG := js "v10garbage"]>
       (<[KEYS_GEMINI_API_KEY := js "not a blob"]> ∅))
    (js "basic_text") true [] [].

(** The same vault before a listener for ['error'] is attached. *)
Definition corrupted_unheard_vault : Service :=
  mkService (store corrupted_vault) (js "basic_text") false [] [].

End Vault.

(** ** Clipboard content heuristics

    [isValidClipboardChange], [detectContentType] and [isSignificantChange]
    have the same text in [services/clipboardMonitor.js] and in its
    adaptive variant; they are embedded once. *)

Module Clipboard.

Inductive ContentType :=
| TyEmpty       (* 'empty' *)
| TyUrl         (* 'url' *)
| TyEmail       (* 'email' *)
| TyCode        (* 'code' *)
| TyText        (* 'text' *)
| TyShortText.  (* 'short-text' *)

Definition ContentType_eqb (a b : ContentType) : bool :=
  match a, b with
  | TyEmpty, TyEmpty | TyUrl, TyUrl | TyEmail, TyEmail | TyCode, TyCode
  | TyText, TyText | TyShortText, TyShortText => true
  | _, _ => false
  end.

(** A string is falsy exactly when it is empty. *)
Definition is_empty (s : jsstring) : bool :=
  match s with
  | [] => true
  | _ :: _ => false
  end.

(** [isValidClipboardChange(newValue, oldValue)] on strings ([null] and
    [undefined] are rejected by its first test). *)
Definition isValidClipboardChange (newValue oldValue : jsstring) : bool :=
  if is_empty (trim newValue) && is_empty (trim oldValue) then false
  else if (length (trim newValue) <? 3)%nat then false
  else if (10000 <? Z.of_nat (length newValue))%Z then false
  else if str_eqb newValue oldValue then false
  else true.

(** [/^https?:\/\/.+/] *)
Definition url_scheme : regex :=
  Cat (Lit (js "http")) (Cat (Opt (Chr 115)) (Cat (Lit (js "://")) (Plus dot))).

(** [/^www\./] *)
Definition url_www : regex := Cat (Lit (js "www")) (Chr 46).

(** [[^\s@]] *)
Definition not_space_at : regex :=
  Class (fun c => negb (is_white_space c || (c =? 64))).

(** [/^[^\s@]+@[^\s@]+\.[^\s@]+$/] *)
Definition email_pattern : regex :=
  Cat (Plus not_space_at)
    (Cat (Chr 64) (Cat (Plus not_space_at) (Cat (Chr 46) (Plus not_space_at)))).

(** [detectContentType(content)] *)
Definition detectContentType (content : jsstring) : ContentType :=
  if is_empty content || is_empty (trim content) then TyEmpty
  else
    let trimmed := trim content in
    if matches_prefix url_scheme trimmed || matches_prefix url_www trimmed
    then TyUrl
    else if matches email_pattern trimmed then TyEmail
    else if includes trimmed (js "function")
            || includes trimmed (js "const ")
            || includes trimmed (js "var ")
            || includes trimmed (js "let ")
            || includes trimmed (js "{") && includes trimmed (js "}")
            || includes trimmed (js "(") && includes trimmed (js ")")
    then TyCode
    else if (100 <? length trimmed)%nat && includes trimmed (js ".")
    then TyText
    else TyShortText.

(** [isSignificantChange(newValue, oldValue)].  The lengths are integers, so
    [lengthDiff > avgLength * 0.5] with [avgLength = (n + o) / 2] is computed
    without rounding and holds exactly when [4 * lengthDiff > n + o]. *)
Definition isSignificantChange (newValue oldValue : jsstring) : bool :=
  if is_empty oldValue || is_empty (trim oldValue) then true
  else
    let lengthDiff :=
      Z.abs (Z.of_nat (length newValue) - Z.of_nat (length oldValue)) in
    let avgLength_x2 :=
      (Z.of_nat (length newValue) + Z.of_nat (length oldValue))%Z in
    if (avgLength_x2 <? 4 * lengthDiff)%Z then true
    else
      let newType := detectContentType newValue in
      let oldType := detectContentType oldValue in
      if negb (ContentType_eqb newType oldType) then true
      else true.

End Clipboard.

Import Clipboard.

(** ** The clipboard monitor ([services/clipboardMonitor.js]) *)

Module Monitor.

Record ChangeEvent := mkChangeEvent {
  newValue : jsstring;
  oldValue : jsstring;
  timestamp : Z;
  isEmpty : bool;
  length_ : nat;
  type : ContentType;
  isSignificant : bool
}.

Inductive Event :=
| MonitoringStarted (intervalMs : Z) (initialValue : jsstring)
| MonitoringStopped
| MonitoringAlreadyActive
| MonitoringNotActive
| Polling (currentValue previousValue : jsstring) (timestamp : Z)
    (hasChanged : bool) (pollCount : nat)
| ClipboardChanged (e : ChangeEvent)
| MonitoringPaused (timestamp duration : Z)
| MonitoringResumed (timestamp : Z)
| ErrorEvent (type : jsstring) (error : jsstring).

Definition is_error_event (ev : Event) : bool :=
  match ev with
  | ErrorEvent _ _ => true
  | _ => false
  end.

Record Monitor := mkMonitor {
  isMonitoring : bool;
  pollingInterval : option Z;
  previousValue : jsstring;
  pollingIntervalMs : Z;
  lastChangeTime : Z;
  minChangeInterval : Z;
  maxRetries : nat;
  retryDelay : Z;
  retryCount : nat;
  lastPollTime : Z;
  pollCount : nat;
  changeCount : nat;
  isPaused : bool;
  pauseThreshold : Z;
  resumeThreshold : Z;
  lastActivityTime : Z;
  retryTimers : list Z;
  errorListener : bool;
  emitted : list Event
}.

Definition set_isMonitoring (v : bool) (s : Monitor) : Monitor :=
  mkMonitor v (pollingInterval s) (previousValue s) (pollingIntervalMs s)
    (lastChangeTime s) (minChangeInterval s) (maxRetries s) (retryDelay s)
    (retryCount s) (lastPollTime s) (pollCount s) (changeCount s) (isPaused
    s) (pauseThreshold s) (resumeThreshold s) (lastActivityTime s)
    (retryTimers s) (errorListener s) (emitted s).

Definition set_pollingInterval (v : option Z) (s : Monitor) : Monitor :=
  mkMonitor (isMonitoring s) v (previousValue s) (pollingIntervalMs s)
    (lastChangeTime s) (minChangeInterval s) (maxRetries s) (retryDelay s)
    (retryCount s) (lastPollTime s) (pollCount s) (changeCount s) (isPaused
    s) (pauseThreshold s) (resumeThreshold s) (lastActivityTime s)
    (retryTimers s) (errorListener s) (emitted s).

Definition set_previousValue (v : jsstring) (s : Monitor) : Monitor :=
  mkMonitor (isMonitoring s) (pollingInterval s) v (pollingIntervalMs s)
    (lastChangeTime s) (minChangeInterval s) (maxRetries s) (retryDelay s)
    (retryCount s) (lastPollTime s) (pollCount s) (changeCount s) (isPaused
    s) (pauseThreshold s) (resumeThreshold s) (lastActivityTime s)
    (retryTimers s) (errorListener s) (emitted s).

Definition set_pollingIntervalMs (v : Z) (s : Monitor) : Monitor :=
  mkMonitor (isMonitoring s) (pollingInterval s) (previousValue s) v
    (lastChangeTime s) (minChangeInterval s) (maxRetries s) (retryDelay s)
    (retryCount s) (lastPollTime s) (pollCount s) (changeCount s) (isPaused
    s) (pauseThreshold s) (resumeThreshold s) (lastActivityTime s)
    (retryTimers s) (errorListener s) (emitted s).

Definition set_lastChangeTime (v : Z) (s : Monitor) : Monitor :=
  mkMonitor (isMonitoring s) (pollingInterval s) (previousValue s)
    (pollingIntervalMs s) v (minChangeInterval s) (maxRetries s) (retryDelay
    s) (retryCount s) (lastPollTime s) (pollCount s) (changeCount s)
    (isPaused s) (pauseThreshold s) (resumeThreshold s) (lastActivityTime s)
    (retryTimers s) (errorListener s) (emitted s).

Definition set_retryCount (v : nat) (s : Monitor) : Monitor :=
  mkMonitor (isMonitoring s) (pollingInterval s) (previousValue s)
    (pollingIntervalMs s) (lastChangeTime s) (minChangeInterval s)
    (maxRetries s) (retryDelay s) v (lastPollTime s) (pollCount s)
    (changeCount s) (isPaused s) (pauseThreshold s) (resumeThreshold s)
    (lastActivityTime s) (retryTimers s) (errorListener s) (emitted s).

Definition set_lastPollTime (v : Z) (s : Monitor) : Monitor :=
  mkMonitor (isMonitoring s) (pollingInterval s) (previousValue s)
    (pollingIntervalMs s) (lastChangeTime s) (minChangeInterval s)
    (maxRetries s) (retryDelay s) (retryCount s) v (pollCount s) (changeCount
    s) (isPaused s) (pauseThreshold s) (resumeThreshold s) (lastActivityTime
    s) (retryTimers s) (errorListener s) (emitted s).

Definition set_pollCount (v : nat) (s : Monitor) : Monitor :=
  mkMonitor (isMonitoring s) (pollingInterval s) (previousValue s)
    (pollingIntervalMs s) (lastChangeTime s) (minChangeInterval s)
    (maxRetries s) (retryDelay s) (retryCount s) (lastPollTime s) v
    (changeCount s) (isPaused s) (pauseThreshold s) (resumeThreshold s)
    (lastActivityTime s) (retryTimers s) (errorListener s) (emitted s).

Definition set_changeCount (v : nat) (s : Monitor) : Monitor :=
  mkMonitor (isMonitoring s) (pollingInterval s) (previousValue s)
    (pollingIntervalMs s) (lastChangeTime s) (minChangeInterval s)
    (maxRetries s) (retryDelay s) (retryCount s) (lastPollTime s) (pollCount
    s) v (isPaused s) (pauseThreshold s) (resumeThreshold s)
    (lastActivityTime s) (retryTimers s) (errorListener s) (emitted s).

Definition set_isPaused (v : bool) (s : Monitor) : Monitor :=
  mkMonitor (isMonitoring s) (pollingInterval s) (previousValue s)
    (pollingIntervalMs s) (lastChangeTime s) (minChangeInterval s)
    (maxRetries s) (retryDelay s) (retryCount s) (lastPollTime s) (pollCount
    s) (changeCount s) v (pauseThreshold s) (resumeThreshold s)
    (lastActivityTime s) (retryTimers s) (errorListener s) (emitted s).

Definition set_lastActivityTime (v : Z) (s : Monitor) : Monitor :=
  mkMonitor (isMonitoring s) (pollingInterval s) (previousValue s)
    (pollingIntervalMs s) (lastChangeTime s) (minChangeInterval s)
    (maxRetries s) (retryDelay s) (retryCount s) (lastPollTime s) (pollCount
    s) (changeCount s) (isPaused s) (pauseThreshold s) (resumeThreshold s) v
    (retryTimers s) (errorListener s) (emitted s).

Definition set_retryTimers (v : list Z) (s : Monitor) : Monitor :=
  mkMonitor (isMonitoring s) (pollingInterval s) (previousValue s)
    (pollingIntervalMs s) (lastChangeTime s) (minChangeInterval s)
    (maxRetries s) (retryDelay s) (retryCount s) (lastPollTime s) (pollCount
    s) (changeCount s) (isPaused s) (pauseThreshold s) (resumeThreshold s)
    (lastActivityTime s) v (errorListener s) (emitted s).

Definition set_emitted (v : list Event) (s : Monitor) : Monitor :=
  mkMonitor (isMonitoring s) (pollingInterval s) (previousValue s)
    (pollingIntervalMs s) (lastChangeTime s) (minChangeInterval s)
    (maxRetries s) (retryDelay s) (retryCount s) (lastPollTime s) (pollCount
    s) (changeCount s) (isPaused s) (pauseThreshold s) (resumeThreshold s)
    (lastActivityTime s) (retryTimers s) (errorListener s) v.

(** The object built by the constructor at time [now]. *)
Definition new_Monitor (now : Z) : Monitor :=
  {| isMonitoring := false; pollingInterval := None; previousValue := [];
     pollingIntervalMs := 1000; lastChangeTime := 0; minChangeInterval := 500;
     maxRetries := 3; retryDelay := 1000; retryCount := 0; lastPollTime := 0;
     pollCount := 0; changeCount := 0; isPaused := false;
     pauseThreshold := 30000; resumeThreshold := 5000;
     lastActivityTime := now; retryTimers := []; errorListener := false;
     emitted := [] |}.

(** [monitor.on('error', listener)] *)
Definition on_error (s : Monitor) : Monitor :=
  mkMonitor (isMonitoring s) (pollingInterval s) (previousValue s)
    (pollingIntervalMs s) (lastChangeTime s) (minChangeInterval s)
    (maxRetries s) (retryDelay s) (retryCount s) (lastPollTime s)
    (pollCount s) (changeCount s) (isPaused s) (pauseThreshold s)
    (resumeThreshold s) (lastActivityTime s) (retryTimers s) true (emitted s).

Definition emit (ev : Event) : M Monitor unit :=
  fun s =>
    if is_error_event ev && negb (errorListener s)
    then (s, Raise ERR_UNHANDLED_ERROR)
    else (set_emitted (emitted s ++ [ev]) s, Value tt).

(** [startMonitoring(intervalMs)]; [readText] is what [clipboard.readText()]
    does and [now] the reading of the clock. *)
Definition startMonitoring (intervalMs : Z) (readText : completion jsstring)
  (now : Z) : M Monitor bool :=
  s ← get;
  if isMonitoring s then
    emit MonitoringAlreadyActive ;; ret false
  else
    try_catch
      (modify (set_pollingIntervalMs intervalMs) ;;
       text ← lift readText;
       modify (set_previousValue text) ;;
       modify (set_lastChangeTime now) ;;
       modify (set_pollingInterval (Some intervalMs)) ;;
       modify (set_isMonitoring true) ;;
       emit (MonitoringStarted intervalMs text) ;;
       ret true)
      (fun error =>
         emit (ErrorEvent (js "start-failed") (message error)) ;; ret false).

(** [stopMonitoring()] *)
Definition stopMonitoring : M Monitor bool :=
  s ← get;
  if negb (isMonitoring s) then
    emit MonitoringNotActive ;; ret false
  else
    try_catch
      (modify (set_pollingInterval None) ;;
       modify (set_isMonitoring false) ;;
       modify (set_previousValue []) ;;
       emit MonitoringStopped ;;
       ret true)
      (fun error =>
         emit (ErrorEvent (js "stop-failed") (message error)) ;; ret false).

(** [handleClipboardChange(newValue, oldValue)] with the clock at [now]. *)
Definition handleClipboardChange (now : Z) (newValue oldValue : jsstring)
  : M Monitor unit :=
  s ← get;
  if (now - lastChangeTime s <? minChangeInterval s)%Z then ret tt
  else if negb (isValidClipboardChange newValue oldValue) then ret tt
  else
    modify (set_previousValue newValue) ;;
    modify (set_lastChangeTime now) ;;
    modify (fun s => set_changeCount (S (changeCount s)) s) ;;
    let changeEvent :=
      {| newValue := newValue;
         oldValue := oldValue;
         timestamp := now;
         isEmpty := is_empty newValue || is_empty (trim newValue);
         length_ := if is_empty newValue then 0%nat else length newValue;
         type := detectContentType newValue;
         isSignificant := isSignificantChange newValue oldValue |} in
    emit (ClipboardChanged changeEvent).

(** [optimizePolling()] with the clock at [now]. *)
Definition optimizePolling (now : Z) : M Monitor unit :=
  s ← get;
  let timeSinceLastActivity := (now - lastActivityTime s)%Z in
  (if negb (isPaused s) && (pauseThreshold s <? timeSinceLastActivity)%Z then
     modify (set_isPaused true) ;;
     emit (MonitoringPaused now timeSinceLastActivity)
   else ret tt) ;;
  s1 ← get;
  if isPaused s1 && (timeSinceLastActivity <? resumeThreshold s1)%Z then
    modify (set_isPaused false) ;;
    emit (MonitoringResumed now)
  else ret tt.

(** [handlePollingError(error, timestamp)]; the retry armed with
    [setTimeout] is recorded by its delay. *)
Definition handlePollingError (error : JsError) (timestamp : Z)
  : M Monitor unit :=
  modify (fun s => set_retryCount (S (retryCount s)) s) ;;
  s ← get;
  if (retryCount s <=? maxRetries s)%nat then
    let backoffDelay := (retryDelay s * 2 ^ Z.of_nat (retryCount s - 1))%Z in
    modify (set_retryTimers (retryTimers s ++ [backoffDelay]))
  else
    emit (ErrorEvent (js "max-retries-exceeded") (message error)) ;;
    stopMonitoring ;;
    ret tt.

(** [pollClipboard()].  The three readings of the clock are those taken by
    [pollClipboard], [handleClipboardChange] and [optimizePolling]. *)
Definition pollClipboard (now : Z) (readText : completion jsstring)
  (now_change now_optimize : Z) : M Monitor unit :=
  s ← get;
  if isPaused s then ret tt
  else if (now - lastPollTime s <? 50)%Z then ret tt
  else
    modify (set_lastPollTime now) ;;
    modify (fun s => set_pollCount (S (pollCount s)) s) ;;
    try_catch
      (currentValue ← lift readText;
       modify (set_lastActivityTime now) ;;
       s1 ← get;
       emit (Polling currentValue (previousValue s1) now
               (negb (str_eqb currentValue (previousValue s1)))
               (pollCount s1)) ;;
       (if negb (str_eqb currentValue (previousValue s1)) then
          handleClipboardChange now_change currentValue (previousValue s1)
        else ret tt) ;;
       modify (set_retryCount 0) ;;
       optimizePolling now_optimize)
      (fun error => handlePollingError error now).

(** The new values carried by the [clipboard-changed] events of a log. *)
Definition changed_values (log : list Event) : list jsstring :=
  omap (fun ev => match ev with
                  | ClipboardChanged e => Some (newValue e)
                  | _ => None
                  end) log.

Definition significant_event (ev : Event) : Prop :=
  match ev with
  | ClipboardChanged e => isSignificant e = true
  | _ => True
  end.

(** The log only grows, and only by events that satisfy [P]. *)
Definition grows_by (P : Event -> Prop) (s s' : Monitor) : Prop :=
  exists evs, emitted s' = emitted s ++ evs /\ Forall P evs.


End Monitor.

(** ** The adaptive clipboard monitor

    The variant of the monitor with debouncing, adaptive polling and
    performance metrics.  The polling interval and the average poll time are
    floating-point numbers; their arithmetic is kept abstract. *)

Module AdaptiveMonitor.

Section WithDoubles.

Variable double : Type.
Variable of_Z : Z -> double.
(** [x * 1.5], [x * 0.8], [x * 0.7] *)
Variables times_1_5 times_0_8 times_0_7 : double -> double.
(** [Math.min], [Math.max] *)
Variables fmin fmax : double -> double -> double.
(** [Math.abs(a - b) > 100] *)
Variable differs_by_more_than_100 : double -> double -> bool.
(** [a / n] *)
Variable fdiv : Z -> nat -> double.

Record AdaptivePolling := mkAdaptivePolling {
  enabled : bool;
  minInterval : double;
  maxInterval : double;
  currentInterval : double;
  activityThreshold : Z;
  inactivityThreshold : Z;
  changeRateThreshold : nat;
  lastChangeRate : nat;
  changeHistory : list Z
}.

Record PerformanceMetrics := mkPerformanceMetrics {
  startTime : Z;
  totalPolls : nat;
  totalChanges : nat;
  averagePollTime : double;
  lastMetricsUpdate : Z
}.

Record ChangeEvent := mkChangeEvent {
  newValue : jsstring;
  oldValue : jsstring;
  timestamp : Z;
  isEmpty : bool;
  length_ : nat;
  type : ContentType;
  isSignificant : bool;
  performance : nat * nat * double
}.

Inductive Event :=
| MonitoringStarted (intervalMs : double) (initialValue : jsstring)
| MonitoringStopped
| MonitoringAlreadyActive
| MonitoringNotActive
| Polling (currentValue previousValue : jsstring) (timestamp : Z)
    (hasChanged : bool) (pollCount : nat)
| ClipboardChanged (e : ChangeEvent)
| MonitoringPaused (timestamp duration : Z)
| MonitoringResumed (timestamp : Z)
| AdaptiveIntervalUpdated (newInterval : double) (timestamp : Z)
    (changeRate : nat)
| PerformanceMetricsEvent (metrics : PerformanceMetrics) (timestamp : Z)
    (adaptiveInterval : double) (isPaused : bool)
| ErrorEvent (type : jsstring) (error : jsstring).

Definition is_error_event (ev : Event) : bool :=
  match ev with
  | ErrorEvent _ _ => true
  | _ => false
  end.

(** The closure handed to [setTimeout] by [handleClipboardChange]: the values
    and the clock reading it has captured, and the time it is due. *)
Record Debounced := mkDebounced {
  d_newValue : jsstring;
  d_oldValue : jsstring;
  d_now : Z;
  d_due : Z
}.

Record Monitor := mkMonitor {
  isMonitoring : bool;
  pollingInterval : option double;
  previousValue : jsstring;
  pollingIntervalMs : double;
  lastChangeTime : Z;
  minChangeInterval : Z;
  maxRetries : nat;
  retryDelay : Z;
  retryCount : nat;
  lastPollTime : Z;
  pollCount : nat;
  changeCount : nat;
  isPaused : bool;
  pauseThreshold : Z;
  resumeThreshold : Z;
  lastActivityTime : Z;
  adaptivePolling : AdaptivePolling;
  performanceMetrics : PerformanceMetrics;
  debounceTimer : option nat;
  debounceDelay : Z;
  timers : list (nat * Debounced);
  nextTimer : nat;
  retryTimers : list Z;
  errorListener : bool;
  emitted : list Event
}.

Definition set_isMonitoring (v : bool) (s : Monitor) : Monitor :=
  mkMonitor v (pollingInterval s) (previousValue s) (pollingIntervalMs s)
    (lastChangeTime s) (minChangeInterval s) (maxRetries s) (retryDelay s)
    (retryCount s) (lastPollTime s) (pollCount s) (changeCount s) (isPaused
    s) (pauseThreshold s) (resumeThreshold s) (lastActivityTime s)
    (adaptivePolling s) (performanceMetrics s) (debounceTimer s)
    (debounceDelay s) (timers s) (nextTimer s) (retryTimers s) (errorListener
    s) (emitted s).

Definition set_pollingInterval (v : option double) (s : Monitor) : Monitor :=
  mkMonitor (isMonitoring s) v (previousValue s) (pollingIntervalMs s)
    (lastChangeTime s) (minChangeInterval s) (maxRetries s) (retryDelay s)
    (retryCount s) (lastPollTime s) (pollCount s) (changeCount s) (isPaused
    s) (pauseThreshold s) (resumeThreshold s) (lastActivityTime s)
    (adaptivePolling s) (performanceMetrics s) (debounceTimer s)
    (debounceDelay s) (timers s) (nextTimer s) (retryTimers s) (errorListener
    s) (emitted s).

Definition set_previousValue (v : jsstring) (s : Monitor) : Monitor :=
  mkMonitor (isMonitoring s) (pollingInterval s) v (pollingIntervalMs s)
    (lastChangeTime s) (minChangeInterval s) (maxRetries s) (retryDelay s)
    (retryCount s) (lastPollTime s) (pollCount s) (changeCount s) (isPaused
    s) (pauseThreshold s) (resumeThreshold s) (lastActivityTime s)
    (adaptivePolling s) (performanceMetrics s) (debounceTimer s)
    (debounceDelay s) (timers s) (nextTimer s) (retryTimers s) (errorListener
    s) (emitted s).

Definition set_pollingIntervalMs (v : double) (s : Monitor) : Monitor :=
  mkMonitor (isMonitoring s) (pollingInterval s) (previousValue s) v
    (lastChangeTime s) (minChangeInterval s) (maxRetries s) (retryDelay s)
    (retryCount s) (lastPollTime s) (pollCount s) (changeCount s) (isPaused
    s) (pauseThreshold s) (resumeThreshold s) (lastActivityTime s)
    (adaptivePolling s) (performanceMetrics s) (debounceTimer s)
    (debounceDelay s) (timers s) (nextTimer s) (retryTimers s) (errorListener
    s) (emitted s).

Definition set_lastChangeTime (v : Z) (s : Monitor) : Monitor :=
  mkMonitor (isMonitoring s) (pollingInterval s) (previousValue s)
    (pollingIntervalMs s) v (minChangeInterval s) (maxRetries s) (retryDelay
    s) (retryCount s) (lastPollTime s) (pollCount s) (changeCount s)
    (isPaused s) (pauseThreshold s) (resumeThreshold s) (lastActivityTime s)
    (adaptivePolling s) (performanceMetrics s) (debounceTimer s)
    (debounceDelay s) (timers s) (nextTimer s) (retryTimers s) (errorListener
    s) (emitted s).

Definition set_retryCount (v : nat) (s : Monitor) : Monitor :=
  mkMonitor (isMonitoring s) (pollingInterval s) (previousValue s)
    (pollingIntervalMs s) (lastChangeTime s) (minChangeInterval s)
    (maxRetries s) (retryDelay s) v (lastPollTime s) (pollCount s)
    (changeCount s) (isPaused s) (pauseThreshold s) (resumeThreshold s)
    (lastActivityTime s) (adaptivePolling s) (performanceMetrics s)
    (debounceTimer s) (debounceDelay s) (timers s) (nextTimer s) (retryTimers
    s) (errorListener s) (emitted s).

Definition set_lastPollTime (v : Z) (s : Monitor) : Monitor :=
  mkMonitor (isMonitoring s) (pollingInterval s) (previousValue s)
    (pollingIntervalMs s) (lastChangeTime s) (minChangeInterval s)
    (maxRetries s) (retryDelay s) (retryCount s) v (pollCount s) (changeCount
    s) (isPaused s) (pauseThreshold s) (resumeThreshold s) (lastActivityTime
    s) (adaptivePolling s) (performanceMetrics s) (debounceTimer s)
    (debounceDelay s) (timers s) (nextTimer s) (retryTimers s) (errorListener
    s) (emitted s).

Definition set_pollCount (v : nat) (s : Monitor) : Monitor :=
  mkMonitor (isMonitoring s) (pollingInterval s) (previousValue s)
    (pollingIntervalMs s) (lastChangeTime s) (minChangeInterval s)
    (maxRetries s) (retryDelay s) (retryCount s) (lastPollTime s) v
    (changeCount s) (isPaused s) (pauseThreshold s) (resumeThreshold s)
    (lastActivityTime s) (adaptivePolling s) (performanceMetrics s)
    (debounceTimer s) (debounceDelay s) (timers s) (nextTimer s) (retryTimers
    s) (errorListener s) (emitted s).

Definition set_changeCount (v : nat) (s : Monitor) : Monitor :=
  mkMonitor (isMonitoring s) (pollingInterval s) (previousValue s)
    (pollingIntervalMs s) (lastChangeTime s) (minChangeInterval s)
    (maxRetries s) (retryDelay s) (retryCount s) (lastPollTime s) (pollCount
    s) v (isPaused s) (pauseThreshold s) (resumeThreshold s)
    (lastActivityTime s) (adaptivePolling s) (performanceMetrics s)
    (debounceTimer s) (debounceDelay s) (timers s) (nextTimer s) (retryTimers
    s) (errorListener s) (emitted s).

Definition set_isPaused (v : bool) (s : Monitor) : Monitor :=
  mkMonitor (isMonitoring s) (pollingInterval s) (previousValue s)
    (pollingIntervalMs s) (lastChangeTime s) (minChangeInterval s)
    (maxRetries s) (retryDelay s) (retryCount s) (lastPollTime s) (pollCount
    s) (changeCount s) v (pauseThreshold s) (resumeThreshold s)
    (lastActivityTime s) (adaptivePolling s) (performanceMetrics s)
    (debounceTimer s) (debounceDelay s) (timers s) (nextTimer s) (retryTimers
    s) (errorListener s) (emitted s).

Definition set_lastActivityTime (v : Z) (s : Monitor) : Monitor :=
  mkMonitor (isMonitoring s) (pollingInterval s) (previousValue s)
    (pollingIntervalMs s) (lastChangeTime s) (minChangeInterval s)
    (maxRetries s) (retryDelay s) (retryCount s) (lastPollTime s) (pollCount
    s) (changeCount s) (isPaused s) (pauseThreshold s) (resumeThreshold s) v
    (adaptivePolling s) (performanceMetrics s) (debounceTimer s)
    (debounceDelay s) (timers s) (nextTimer s) (retryTimers s) (errorListener
    s) (emitted s).

Definition set_adaptivePolling (v : AdaptivePolling) (s : Monitor) : Monitor
    :=
  mkMonitor (isMonitoring s) (pollingInterval s) (previousValue s)
    (pollingIntervalMs s) (lastChangeTime s) (minChangeInterval s)
    (maxRetries s) (retryDelay s) (retryCount s) (lastPollTime s) (pollCount
    s) (changeCount s) (isPaused s) (pauseThreshold s) (resumeThreshold s)
    (lastActivityTime s) v (performanceMetrics s) (debounceTimer s)
    (debounceDelay s) (timers s) (nextTimer s) (retryTimers s) (errorListener
    s) (emitted s).

Definition set_performanceMetrics (v : PerformanceMetrics) (s : Monitor) :
    Monitor :=
  mkMonitor (isMonitoring s) (pollingInterval s) (previousValue s)
    (pollingIntervalMs s) (lastChangeTime s) (minChangeInterval s)
    (maxRetries s) (retryDelay s) (retryCount s) (lastPollTime s) (pollCount
    s) (changeCount s) (isPaused s) (pauseThreshold s) (resumeThreshold s)
    (lastActivityTime s) (adaptivePolling s) v (debounceTimer s)
    (debounceDelay s) (timers s) (nextTimer s) (retryTimers s) (errorListener
    s) (emitted s).

Definition set_debounceTimer (v : option nat) (s : Monitor) : Monitor :=
  mkMonitor (isMonitoring s) (pollingInterval s) (previousValue s)
    (pollingIntervalMs s) (lastChangeTime s) (minChangeInterval s)
    (maxRetries s) (retryDelay s) (retryCount s) (lastPollTime s) (pollCount
    s) (changeCount s) (isPaused s) (pauseThreshold s) (resumeThreshold s)
    (lastActivityTime s) (adaptivePolling s) (performanceMetrics s) v
    (debounceDelay s) (timers s) (nextTimer s) (retryTimers s) (errorListener
    s) (emitted s).

Definition set_timers (v : list (nat * Debounced)) (s : Monitor) : Monitor :=
  mkMonitor (isMonitoring s) (pollingInterval s) (previousValue s)
    (pollingIntervalMs s) (lastChangeTime s) (minChangeInterval s)
    (maxRetries s) (retryDelay s) (retryCount s) (lastPollTime s) (pollCount
    s) (changeCount s) (isPaused s) (pauseThreshold s) (resumeThreshold s)
    (lastActivityTime s) (adaptivePolling s) (performanceMetrics s)
    (debounceTimer s) (debounceDelay s) v (nextTimer s) (retryTimers s)
    (errorListener s) (emitted s).

Definition set_nextTimer (v : nat) (s : Monitor) : Monitor :=
  mkMonitor (isMonitoring s) (pollingInterval s) (previousValue s)
    (pollingIntervalMs s) (lastChangeTime s) (minChangeInterval s)
    (maxRetries s) (retryDelay s) (retryCount s) (lastPollTime s) (pollCount
    s) (changeCount s) (isPaused s) (pauseThreshold s) (resumeThreshold s)
    (lastActivityTime s) (adaptivePolling s) (performanceMetrics s)
    (debounceTimer s) (debounceDelay s) (timers s) v (retryTimers s)
    (errorListener s) (emitted s).

Definition set_retryTimers (v : list Z) (s : Monitor) : Monitor :=
  mkMonitor (isMonitoring s) (pollingInterval s) (previousValue s)
    (pollingIntervalMs s) (lastChangeTime s) (minChangeInterval s)
    (maxRetries s) (retryDelay s) (retryCount s) (lastPollTime s) (pollCount
    s) (changeCount s) (isPaused s) (pauseThreshold s) (resumeThreshold s)
    (lastActivityTime s) (adaptivePolling s) (performanceMetrics s)
    (debounceTimer s) (debounceDelay s) (timers s) (nextTimer s) v
    (errorListener s) (emitted s).

Definition set_emitted (v : list Event) (s : Monitor) : Monitor :=
  mkMonitor (isMonitoring s) (pollingInterval s) (previousValue s)
    (pollingIntervalMs s) (lastChangeTime s) (minChangeInterval s)
    (maxRetries s) (retryDelay s) (retryCount s) (lastPollTime s) (pollCount
    s) (changeCount s) (isPaused s) (pauseThreshold s) (resumeThreshold s)
    (lastActivityTime s) (adaptivePolling s) (performanceMetrics s)
    (debounceTimer s) (debounceDelay s) (timers s) (nextTimer s) (retryTimers
    s) (errorListener s) v.

Definition set_currentInterval (v : double) (a : AdaptivePolling)
  : AdaptivePolling :=
  mkAdaptivePolling (enabled a) (minInterval a) (maxInterval a) v
    (activityThreshold a) (inactivityThreshold a) (changeRateThreshold a)
    (lastChangeRate a) (changeHistory a).

Definition set_changeHistory (rate : nat) (h : list Z) (a : AdaptivePolling)
  : AdaptivePolling :=
  mkAdaptivePolling (enabled a) (minInterval a) (maxInterval a)
    (currentInterval a) (activityThreshold a) (inactivityThreshold a)
    (changeRateThreshold a) rate h.

(** The object built by the constructor at time [now]. *)
Definition new_Monitor (now : Z) : Monitor :=
  {| isMonitoring := false; pollingInterval := None; previousValue := [];
     pollingIntervalMs := of_Z 1000; lastChangeTime := 0;
     minChangeInterval := 500; maxRetries := 3; retryDelay := 1000;
     retryCount := 0; lastPollTime := 0; pollCount := 0; changeCount := 0;
     isPaused := false; pauseThreshold := 30000; resumeThreshold := 5000;
     lastActivityTime := now;
     adaptivePolling :=
       {| enabled := true; minInterval := of_Z 500; maxInterval := of_Z 5000;
          currentInterval := of_Z 1000; activityThreshold := 10000;
          inactivityThreshold := 30000; changeRateThreshold := 5;
          lastChangeRate := 0; changeHistory := [] |};
     performanceMetrics :=
       {| startTime := 0; totalPolls := 0; totalChanges := 0;
          averagePollTime := of_Z 0; lastMetricsUpdate := 0 |};
     debounceTimer := None; debounceDelay := 100; timers := [];
     nextTimer := 1; retryTimers := []; errorListener := false;
     emitted := [] |}.

Definition emit (ev : Event) : M Monitor unit :=
  fun s =>
    if is_error_event ev && negb (errorListener s)
    then (s, Raise ERR_UNHANDLED_ERROR)
    else (set_emitted (emitted s ++ [ev]) s, Value tt).

(** [monitor.on('error', listener)] *)
Definition on_error (s : Monitor) : Monitor :=
  mkMonitor (isMonitoring s) (pollingInterval s) (previousValue s)
    (pollingIntervalMs s) (lastChangeTime s) (minChangeInterval s)
    (maxRetries s) (retryDelay s) (retryCount s) (lastPollTime s)
    (pollCount s) (changeCount s) (isPaused s) (pauseThreshold s)
    (resumeThreshold s) (lastActivityTime s) (adaptivePolling s)
    (performanceMetrics s) (debounceTimer s) (debounceDelay s) (timers s)
    (nextTimer s) (retryTimers s) true (emitted s).

(** [startMonitoring(intervalMs)]; [readText] is what [clipboard.readText()]
    does; [now_start], [now_update] and [now] are the readings of the clock
    stored in [startTime], [lastMetricsUpdate] and [lastChangeTime]. *)
Definition startMonitoring (intervalMs : double)
  (readText : completion jsstring) (now_start now_update now : Z)
  : M Monitor bool :=
  s ← get;
  if isMonitoring s then
    emit MonitoringAlreadyActive ;; ret false
  else
    try_catch
      (modify (set_pollingIntervalMs intervalMs) ;;
       modify (fun s =>
         set_adaptivePolling
           (set_currentInterval intervalMs (adaptivePolling s)) s) ;;
       modify (fun s =>
         let m := performanceMetrics s in
         set_performanceMetrics
           (mkPerformanceMetrics now_start (totalPolls m) (totalChanges m)
              (averagePollTime m) now_update) s) ;;
       text ← lift readText;
       modify (set_previousValue text) ;;
       modify (set_lastChangeTime now) ;;
       modify (set_pollingInterval (Some intervalMs)) ;;
       modify (set_isMonitoring true) ;;
       emit (MonitoringStarted intervalMs text) ;;
       ret true)
      (fun error =>
         emit (ErrorEvent (js "start-failed") (message error)) ;; ret false).

(** [clearTimeout(id)] *)
Definition clearTimeout (id : nat) : M Monitor unit :=
  modify (fun s =>
    set_timers (filter (fun t => fst t ≠ id) (timers s)) s).

(** [setTimeout(closure, delay)]: a fresh handle. *)
Definition setTimeout (closure : Debounced) : M Monitor nat :=
  s ← get;
  let id := nextTimer s in
  modify (set_timers (timers s ++ [(id, closure)])) ;;
  modify (set_nextTimer (S id)) ;;
  ret id.

(** [calculatePerformanceMetrics()] with the clock at [now]. *)
Definition calculatePerformanceMetrics (now : Z) : M Monitor unit :=
  s ← get;
  let m := performanceMetrics s in
  if (now - lastMetricsUpdate m <? 10000)%Z then ret tt
  else
    let m1 :=
      {| startTime := startTime m;
         totalPolls := pollCount s;
         totalChanges := changeCount s;
         averagePollTime :=
           if (0 <? pollCount s)%nat
           then fdiv (now - startTime m) (pollCount s)
           else averagePollTime m;
         lastMetricsUpdate := now |} in
    modify (set_performanceMetrics m1) ;;
    emit (PerformanceMetricsEvent m1 now
            (currentInterval (adaptivePolling s)) (isPaused s)).

(** [updateAdaptiveInterval()] with the clock at [now]. *)
Definition updateAdaptiveInterval (now : Z) : M Monitor unit :=
  s ← get;
  let a := adaptivePolling s in
  let timeSinceLastActivity := (now - lastActivityTime s)%Z in
  let oneMinuteAgo := (now - 60000)%Z in
  let history :=
    filter (fun timestamp => (oneMinuteAgo < timestamp)%Z) (changeHistory a) in
  let rate := length history in
  let a1 := set_changeHistory rate history a in
  modify (set_adaptivePolling a1) ;;
  let newInterval :=
    if (inactivityThreshold a <? timeSinceLastActivity)%Z then
      fmin (maxInterval a) (times_1_5 (currentInterval a))
    else if (timeSinceLastActivity <? activityThreshold a)%Z then
      fmax (minInterval a) (times_0_8 (currentInterval a))
    else if (changeRateThreshold a <? rate)%nat then
      fmax (minInterval a) (times_0_7 (currentInterval a))
    else currentInterval a in
  if differs_by_more_than_100 newInterval (currentInterval a) then
    modify (set_adaptivePolling (set_currentInterval newInterval a1)) ;;
    modify (set_pollingIntervalMs newInterval) ;;
    (if isMonitoring s && bool_decide (is_Some (pollingInterval s)) then
       modify (set_pollingInterval (Some newInterval))
     else ret tt) ;;
    emit (AdaptiveIntervalUpdated newInterval now rate)
  else ret tt.

(** [optimizePolling()].  The three readings of the clock are those taken by
    [optimizePolling], [calculatePerformanceMetrics] and
    [updateAdaptiveInterval]. *)
Definition optimizePolling (now now_metrics now_adaptive : Z)
  : M Monitor unit :=
  s ← get;
  let timeSinceLastActivity := (now - lastActivityTime s)%Z in
  calculatePerformanceMetrics now_metrics ;;
  (if negb (isPaused s) && (pauseThreshold s <? timeSinceLastActivity)%Z then
     modify (set_isPaused true) ;;
     emit (MonitoringPaused now timeSinceLastActivity)
   else ret tt) ;;
  s1 ← get;
  (if isPaused s1 && (timeSinceLastActivity <? resumeThreshold s1)%Z then
     modify (set_isPaused false) ;;
     emit (MonitoringResumed now)
   else ret tt) ;;
  s2 ← get;
  if enabled (adaptivePolling s2) then updateAdaptiveInterval now_adaptive
  else ret tt.

(** [handleClipboardChange(newValue, oldValue)] with the clock at [now]: the
    update itself is deferred to the debounce timer. *)
Definition handleClipboardChange (now : Z) (newValue oldValue : jsstring)
  : M Monitor unit :=
  s ← get;
  if (now - lastChangeTime s <? minChangeInterval s)%Z then ret tt
  else if negb (isValidClipboardChange newValue oldValue) then ret tt
  else
    match debounceTimer s with
    | Some id => clearTimeout id
    | None => ret tt
    end ;;
    id ← setTimeout
           (mkDebounced newValue oldValue now (now + debounceDelay s)%Z);
    modify (set_debounceTimer (Some id)).

(** The body of the debounce closure. *)
Definition debounce_callback (d : Debounced) : M Monitor unit :=
  let newValue := d_newValue d in
  let oldValue := d_oldValue d in
  let now := d_now d in
  modify (set_previousValue newValue) ;;
  modify (set_lastChangeTime now) ;;
  modify (fun s => set_changeCount (S (changeCount s)) s) ;;
  modify (fun s =>
    let a := adaptivePolling s in
    set_adaptivePolling
      (set_changeHistory (lastChangeRate a) (changeHistory a ++ [now]) a) s) ;;
  s ← get;
  let changeEvent :=
    {| newValue := newValue;
       oldValue := oldValue;
       timestamp := now;
       isEmpty := is_empty newValue || is_empty (trim newValue);
       length_ := if is_empty newValue then 0%nat else length newValue;
       type := detectContentType newValue;
       isSignificant := isSignificantChange newValue oldValue;
       performance :=
         (pollCount s, changeCount s,
          averagePollTime (performanceMetrics s)) |} in
  emit (ClipboardChanged changeEvent).

(** The event loop runs the timer with handle [id] at time [at_time]:
    nothing happens unless that timer is armed and due. *)
Definition fire_timer (id : nat) (at_time : Z) : M Monitor unit :=
  s ← get;
  match list_find (fun t => fst t = id) (timers s) with
  | Some (_, (_, d)) =>
      if (d_due d <=? at_time)%Z then
        clearTimeout id ;; debounce_callback d
      else ret tt
  | None => ret tt
  end.

(** [stopMonitoring()] with the clock at [now] (read by
    [calculatePerformanceMetrics]). *)
Definition stopMonitoring (now : Z) : M Monitor bool :=
  s ← get;
  if negb (isMonitoring s) then
    emit MonitoringNotActive ;; ret false
  else
    try_catch
      (modify (set_pollingInterval None) ;;
       match debounceTimer s with
       | Some id => clearTimeout id ;; modify (set_debounceTimer None)
       | None => ret tt
       end ;;
       calculatePerformanceMetrics now ;;
       modify (set_isMonitoring false) ;;
       modify (set_previousValue []) ;;
       emit MonitoringStopped ;;
       ret true)
      (fun error =>
         emit (ErrorEvent (js "stop-failed") (message error)) ;; ret false).

(** [handlePollingError(error, timestamp)] *)
Definition handlePollingError (error : JsError) (timestamp now_stop : Z)
  : M Monitor unit :=
  modify (fun s => set_retryCount (S (retryCount s)) s) ;;
  s ← get;
  if (retryCount s <=? maxRetries s)%nat then
    let backoffDelay := (retryDelay s * 2 ^ Z.of_nat (retryCount s - 1))%Z in
    modify (set_retryTimers (retryTimers s ++ [backoffDelay]))
  else
    emit (ErrorEvent (js "max-retries-exceeded") (message error)) ;;
    stopMonitoring now_stop ;;
    ret tt.

(** The readings of the clock taken during one poll, in program order. *)
Record Readings := mkReadings {
  t_poll : Z;
  t_change : Z;
  t_optimize : Z;
  t_metrics : Z;
  t_adaptive : Z;
  t_stop : Z
}.

(** [pollClipboard()] *)
Definition pollClipboard (t : Readings) (readText : completion jsstring)
  : M Monitor unit :=
  let now := t_poll t in
  s ← get;
  if isPaused s then ret tt
  else if (now - lastPollTime s <? 50)%Z then ret tt
  else
    modify (set_lastPollTime now) ;;
    modify (fun s => set_pollCount (S (pollCount s)) s) ;;
    try_catch
      (currentValue ← lift readText;
       modify (set_lastActivityTime now) ;;
       s1 ← get;
       emit (Polling currentValue (previousValue s1) now
               (negb (str_eqb currentValue (previousValue s1)))
               (pollCount s1)) ;;
       (if negb (str_eqb currentValue (previousValue s1)) then
          handleClipboardChange (t_change t) currentValue (previousValue s1)
        else ret tt) ;;
       modify (set_retryCount 0) ;;
       optimizePolling (t_optimize t) (t_metrics t) (t_adaptive t))
      (fun error => handlePollingError error now (t_stop t)).

(** The new values carried by the [clipboard-changed] events of a log. *)
Definition changed_values (log : list Event) : list jsstring :=
  omap (fun ev => match ev with
                  | ClipboardChanged e => Some (newValue e)
                  | _ => None
                  end) log.

Definition significant_event (ev : Event) : Prop :=
  match ev with
  | ClipboardChanged e => isSignificant e = true
  | _ => True
  end.

(** The log only grows, and only by events that satisfy [P]. *)
Definition grows_by (P : Event -> Prop) (s s' : Monitor) : Prop :=
  exists evs, emitted s' = emitted s ++ evs /\ Forall P evs.

(** A monitor built and started at time 0 whose poll at 1000 stalls: the
    clock reads 32000 by the time [optimizePolling] runs. *)
Definition paused_monitor : Monitor :=
  let s0 := on_error (new_Monitor 0) in
  let s1 := fst (startMonitoring (of_Z 1000) (Return []) 0 0 0 s0) in
  fst (pollClipboard (mkReadings 1000 1000 32000 32000 32000 32000)
         (Return []) s1).

End WithDoubles.

(** The type of floating-point numbers is inferred from the monitor. *)
Arguments isMonitoring {double}.
Arguments pollingInterval {double}.
Arguments previousValue {double}.
Arguments pollingIntervalMs {double}.
Arguments lastChangeTime {double}.
Arguments minChangeInterval {double}.
Arguments maxRetries {double}.
Arguments retryDelay {double}.
Arguments retryCount {double}.
Arguments lastPollTime {double}.
Arguments pollCount {double}.
Arguments changeCount {double}.
Arguments isPaused {double}.
Arguments pauseThreshold {double}.
Arguments resumeThreshold {double}.
Arguments lastActivityTime {double}.
Arguments adaptivePolling {double}.
Arguments performanceMetrics {double}.
Arguments debounceTimer {double}.
Arguments debounceDelay {double}.
Arguments timers {double}.
Arguments nextTimer {double}.
Arguments retryTimers {double}.
Arguments errorListener {double}.
Arguments emitted {double}.
Arguments enabled {double}.
Arguments minInterval {double}.
Arguments maxInterval {double}.
Arguments currentInterval {double}.
Arguments activityThreshold {double}.
Arguments inactivityThreshold {double}.
Arguments changeRateThreshold {double}.
Arguments lastChangeRate {double}.
Arguments changeHistory {double}.
Arguments startTime {double}.
Arguments totalPolls {double}.
Arguments totalChanges {double}.
Arguments averagePollTime {double}.
Arguments lastMetricsUpdate {double}.
Arguments newValue {double}.
Arguments oldValue {double}.
Arguments timestamp {double}.
Arguments isEmpty {double}.
Arguments length_ {double}.
Arguments type {double}.
Arguments isSignificant {double}.
Arguments performance {double}.
Arguments MonitoringStarted {double}.
Arguments Polling {double}.
Arguments ClipboardChanged {double}.
Arguments MonitoringPaused {double}.
Arguments MonitoringResumed {double}.
Arguments AdaptiveIntervalUpdated {double}.
Arguments PerformanceMetricsEvent {double}.
Arguments ErrorEvent {double}.
Arguments MonitoringStopped {double}.
Arguments MonitoringAlreadyActive {double}.
Arguments MonitoringNotActive {double}.
Arguments on_error {double}.
Arguments emit {double}.
Arguments clearTimeout {double}.
Arguments setTimeout {double}.
Arguments handleClipboardChange {double}.
Arguments debounce_callback {double}.
Arguments fire_timer {double}.
Arguments changed_values {double}.
Arguments is_error_event {double}.
Arguments startMonitoring {double}.
Arguments new_Monitor {double}.
Arguments calculatePerformanceMetrics {double}.
Arguments updateAdaptiveInterval {double}.
Arguments optimizePolling {double}.
Arguments stopMonitoring {double}.
Arguments handlePollingError {double}.
Arguments pollClipboard {double}.
Arguments significant_event {double}.
Arguments grows_by {double}.
Arguments paused_monitor {double}.

End AdaptiveMonitor.

(** ** Backend clients *)

(** What [fetch] delivers for one generation request, once the body of an
    error response has been read by [getErrorMessage]. *)
Record HttpResponse (Body : Type) := mkResponse {
  status : N;
  errorMessage : jsstring;
  body : Body
}.
Arguments mkResponse {Body} status errorMessage body.
Arguments status {Body} h.
Arguments errorMessage {Body} h.
Arguments body {Body} h.

(** [response.ok] *)
Definition ok {Body} (r : HttpResponse Body) : bool :=
  (200 <=? status r) && (status r <=? 299).

(** The rejection of [fetch] when the request's [AbortController] fires. *)
Definition AbortError : JsError :=
  {| name := js "AbortError"; message := js "This operation was aborted" |}.

Record GenerationResult := mkResult {
  response : jsstring;
  isComplete : bool;
  result_model : jsstring
}.

(** [prompt.substring(0, 100) + (prompt.length > 100 ? '...' : '')] *)
Definition prompt_preview (prompt : jsstring) : jsstring :=
  take 100 prompt ++ (if (100 <? length prompt)%nat then js "..." else []).

(** The [Error] thrown for a response that is not [ok]. *)
Definition http_error (status : N) (errorMessage : jsstring) : JsError :=
  new_Error (js "HTTP " ++ num_to_string status ++ js ": " ++ errorMessage).

(** The error caught by [generateResponse] after one request: the
    rejection of [fetch], or the [Error] built from a response that is not
    [ok]; [None] when the response is [ok]. *)
Definition attempt_error {Body} (r : completion (HttpResponse Body))
  : option JsError :=
  match r with
  | Throw e => Some e
  | Return resp =>
      if ok resp then None
      else Some (http_error (status resp) (errorMessage resp))
  end.

(** The requests numbered [from], ..., [from + count - 1] all fail, none
    of them with an error that the client holds to be permanent. *)
Definition fails_transiently {Body}
  (network : nat -> completion (HttpResponse Body))
  (permanent : JsError -> bool) (from count : nat) : Prop :=
  forall k, (k < count)%nat ->
    exists e, attempt_error (network (from + k)%nat) = Some e
              /\ permanent e = false.

Definition is_timeout (e : JsError) : bool := str_eqb (name e) (js "AbortError").

(** The back-off delays waited before retries [from + 1], [from + 2], ...,
    [from + count]. *)
Definition backoff_delays (retryDelay : Z) (from count : nat) : list Z :=
  map (fun j => (retryDelay * 2 ^ Z.of_nat j)%Z) (seq from count).

(** A network on which every request gets the same outcome. *)
Definition always {Body} (r : completion (HttpResponse Body))
  : nat -> completion (HttpResponse Body) :=
  fun _ => r.

(** A prompt that [generateResponse] accepts. *)
Definition prompt_ok (prompt : jsstring) : Prop :=
  is_empty prompt || (length (trim prompt) =? 0)%nat = false.

(** *** The Ollama client ([services/ollamaService.js]) *)

Module Ollama.

Inductive Event :=
| GenerationStarted (model : jsstring) (prompt : jsstring)
| ErrorEvent (type : jsstring) (error : jsstring) (model : option jsstring)
    (retryCount : option nat).

Definition is_error_event (ev : Event) : bool :=
  match ev with
  | ErrorEvent _ _ _ _ => true
  | _ => false
  end.

(** The service object; [requests] counts the generation requests issued
    and [sleeps] lists the back-off delays waited, both in order. *)
Record Service := mkService {
  currentModel : jsstring;
  isConnected : bool;
  requestTimeout : Z;
  maxRetries : nat;
  retryDelay : Z;
  errorListener : bool;
  emitted : list Event;
  requests : nat;
  sleeps : list Z
}.

Definition new_Service : Service :=
  {| currentModel := js "gpt-oss:20b"; isConnected := false;
     requestTimeout := 120000; maxRetries := 3; retryDelay := 1000;
     errorListener := false; emitted := []; requests := 0; sleeps := [] |}.

Definition push_event (ev : Event) (s : Service) : Service :=
  mkService (currentModel s) (isConnected s) (requestTimeout s) (maxRetries s)
    (retryDelay s) (errorListener s) (emitted s ++ [ev]) (requests s)
    (sleeps s).

Definition count_request (s : Service) : Service :=
  mkService (currentModel s) (isConnected s) (requestTimeout s) (maxRetries s)
    (retryDelay s) (errorListener s) (emitted s) (S (requests s)) (sleeps s).

Definition push_sleep (delay : Z) (s : Service) : Service :=
  mkService (currentModel s) (isConnected s) (requestTimeout s) (maxRetries s)
    (retryDelay s) (errorListener s) (emitted s) (requests s)
    (sleeps s ++ [delay]).

Definition emit (ev : Event) : M Service unit :=
  fun s =>
    if is_error_event ev && negb (errorListener s)
    then (s, Raise ERR_UNHANDLED_ERROR)
    else (push_event ev s, Value tt).

Section WithNetwork.

Variable Body : Type.
(** The outcome of the [n]-th generation request (counted from 0). *)
Variable network : nat -> completion (HttpResponse Body).
Variable handleStreamingResponse : Body -> M Service GenerationResult.
Variable handleNonStreamingResponse : Body -> M Service GenerationResult.

(** [await fetch(`${this.baseUrl}/generate`, ...)] *)
Definition fetch_generate : M Service (HttpResponse Body) :=
  s ← get;
  modify count_request ;;
  lift (network (requests s)).

(** [await new Promise(resolve => setTimeout(resolve, delay))] *)
Definition sleep (delay : Z) : M Service unit := modify (push_sleep delay).

(** The [while (retryCount <= maxRetries)] loop of [generateResponse],
    unrolled at most [fuel] times; [None] is the [undefined] returned when
    the loop condition fails. *)
Fixpoint request_loop (fuel : nat) (model : jsstring) (stream : bool)
  (maxRetries : nat) (retryCount : nat)
  : M Service (option GenerationResult) :=
  if (retryCount <=? maxRetries)%nat then
    match fuel with
    | O => fun s => (s, OutOfFuel)
    | S fuel' =>
        attempt ←
          try_catch
            (response ← fetch_generate;
             if negb (ok response) then
               throw (new_Error (js "HTTP " ++ num_to_string (status response)
                                 ++ js ": " ++ errorMessage response))
             else ret (inl response))
            (fun error =>
               let retryCount := S retryCount in
               s ← get;
               (if str_eqb (name error) (js "AbortError") then
                  emit (ErrorEvent (js "timeout")
                          (js "Request timed out after "
                           ++ num_to_string (Z.to_N (requestTimeout s))
                           ++ js "ms")
                          (Some model) (Some retryCount))
                else if includes (message error) (js "HTTP 404") then
                  emit (ErrorEvent (js "model-not-found")
                          (js "Model '" ++ model ++ js "' not found")
                          (Some model) None) ;;
                  throw error
                else if includes (message error) (js "HTTP 500") then
                  emit (ErrorEvent (js "server-error")
                          (js "Ollama server internal error")
                          (Some model) (Some retryCount))
                else
                  emit (ErrorEvent (js "generation-failed") (message error)
                          (Some model) (Some retryCount))) ;;
               (if (maxRetries <? retryCount)%nat then
                  throw (new_Error
                           (js "Failed after "
                            ++ num_to_string (N.of_nat maxRetries)
                            ++ js " retries: " ++ message error))
                else ret tt) ;;
               let delay := (retryDelay s * 2 ^ Z.of_nat (retryCount - 1))%Z in
               sleep delay ;;
               ret (inr retryCount));
        match attempt with
        | inl response =>
            r ← (if stream then handleStreamingResponse (body response)
                 else handleNonStreamingResponse (body response));
            ret (Some r)
        | inr retryCount =>
            request_loop fuel' model stream maxRetries retryCount
        end
    end
  else ret None.

(** [generateResponse(prompt, options)] with [options.model] and
    [options.stream] made explicit. *)
Definition generateResponse (prompt : jsstring) (model : jsstring)
  (stream : bool) : M Service (option GenerationResult) :=
  s ← get;
  (if negb (isConnected s) then
     let error := new_Error (js "Ollama service not connected") in
     emit (ErrorEvent (js "service-not-connected") (message error) None None) ;;
     throw error
   else ret tt) ;;
  (if is_empty prompt || (length (trim prompt) =? 0)%nat then
     let error := new_Error (js "Empty prompt provided") in
     emit (ErrorEvent (js "invalid-prompt") (message error) None None) ;;
     throw error
   else ret tt) ;;
  emit (GenerationStarted model (prompt_preview prompt)) ;;
  let maxRetries := maxRetries s in
  request_loop (S maxRetries) model stream maxRetries 0.

End WithNetwork.

(** The errors after which [generateResponse] gives up at once. *)
Definition permanent (e : JsError) : bool :=
  negb (is_timeout e) && includes (message e) (js "HTTP 404").

(** What one failed request leaves behind. *)
Definition after_failure (s s1 : Service) : Prop :=
  requests s1 = S (requests s)
  /\ errorListener s1 = errorListener s
  /\ retryDelay s1 = retryDelay s
  /\ requestTimeout s1 = requestTimeout s.

(** A connected service with a listener for ['error'], as the application
    sets it up before a generation. *)
Definition ready : Service :=
  {| currentModel := js "gpt-oss:20b"; isConnected := true;
     requestTimeout := 120000; maxRetries := 3; retryDelay := 1000;
     errorListener := true; emitted := []; requests := 0; sleeps := [] |}.

(** The same client without a listener for ['error']. *)
Definition unheard : Service :=
  {| currentModel := js "gpt-oss:20b"; isConnected := true;
     requestTimeout := 120000; maxRetries := 3; retryDelay := 1000;
     errorListener := false; emitted := []; requests := 0; sleeps := [] |}.

(** Response handlers for bodies that carry nothing. *)
Definition no_handler (b : unit) : M Service GenerationResult :=
  ret (mkResult [] true []).

(** One timeout, then the given status on every request. *)
Definition timeout_then (status : N) (errorMessage : jsstring) (n : nat)
  : completion (HttpResponse unit) :=
  match n with
  | O => Throw AbortError
  | S _ => Return (mkResponse status errorMessage tt)
  end.

End Ollama.

(** *** The Gemini client *)

Module Gemini.

Inductive Event :=
| GenerationStarted (model : jsstring) (prompt : jsstring)
| TokenReceived (token : json) (model : jsstring)
| GenerationCompleted (fullResponse : jsstring) (model : jsstring)
    (finishReason : value)
| ErrorEvent (type : jsstring) (error : jsstring) (model : option jsstring)
    (retryCount : option nat).

Definition is_error_event (ev : Event) : bool :=
  match ev with
  | ErrorEvent _ _ _ _ => true
  | _ => false
  end.

Record Service := mkService {
  currentModel : jsstring;
  apiKey : option jsstring;
  isConnected : bool;
  requestTimeout : Z;
  maxRetries : nat;
  retryDelay : Z;
  errorListener : bool;
  emitted : list Event;
  requests : nat;
  sleeps : list Z
}.

Definition new_Service : Service :=
  {| currentModel := js "gemini-1.5-flash-002"; apiKey := None;
     isConnected := false; requestTimeout := 60000; maxRetries := 3;
     retryDelay := 1000; errorListener := false; emitted := [];
     requests := 0; sleeps := [] |}.

Definition push_event (ev : Event) (s : Service) : Service :=
  mkService (currentModel s) (apiKey s) (isConnected s) (requestTimeout s)
    (maxRetries s) (retryDelay s) (errorListener s) (emitted s ++ [ev])
    (requests s) (sleeps s).

Definition count_request (s : Service) : Service :=
  mkService (currentModel s) (apiKey s) (isConnected s) (requestTimeout s)
    (maxRetries s) (retryDelay s) (errorListener s) (emitted s)
    (S (requests s)) (sleeps s).

Definition push_sleep (delay : Z) (s : Service) : Service :=
  mkService (currentModel s) (apiKey s) (isConnected s) (requestTimeout s)
    (maxRetries s) (retryDelay s) (errorListener s) (emitted s) (requests s)
    (sleeps s ++ [delay]).

Definition emit (ev : Event) : M Service unit :=
  fun s =>
    if is_error_event ev && negb (errorListener s)
    then (s, Raise ERR_UNHANDLED_ERROR)
    else (push_event ev s, Value tt).

(** [validateApiKeyFormat(apiKey)], for a string argument. *)
Definition validateApiKeyFormat (apiKey : jsstring) : bool :=
  match apiKey with
  | [] => false
  | _ :: _ =>
      let trimmedKey := trim apiKey in
      if (length trimmedKey <? 20)%nat then false
      else true
  end.

(** The state of the scanner of [parseStreamingJSON]. *)
Record Scanner := mkScanner {
  objects : list json;
  currentObject : jsstring;
  braceCount : Z;
  inString : bool;
  escapeNext : bool
}.

(** One iteration of the [for] loop of [parseStreamingJSON]. *)
Definition scan_char (st : Scanner) (char : N) : Scanner :=
  if escapeNext st then
    mkScanner (objects st) (currentObject st ++ [char]) (braceCount st)
      (inString st) false
  else if char =? 92 then
    mkScanner (objects st) (currentObject st ++ [char]) (braceCount st)
      (inString st) true
  else
    let inString1 :=
      if (char =? 34) && negb (escapeNext st) then negb (inString st)
      else inString st in
    let braceCount1 :=
      if negb inString1 then
        if char =? 123 then (braceCount st + 1)%Z
        else if char =? 125 then (braceCount st - 1)%Z
        else braceCount st
      else braceCount st in
    let currentObject1 := currentObject st ++ [char] in
    if (braceCount1 =? 0)%Z && negb (is_empty (trim currentObject1)) then
      let objects1 :=
        match JSON_parse (trim currentObject1) with
        | Return parsed => objects st ++ [parsed]
        | Throw _ => objects st
        end in
      mkScanner objects1 [] braceCount1 inString1 (escapeNext st)
    else
      mkScanner (objects st) currentObject1 braceCount1 inString1
        (escapeNext st).

(** [parseStreamingJSON(buffer)] *)
Definition parseStreamingJSON (buffer : jsstring) : list json :=
  objects (fold_left scan_char buffer (mkScanner [] [] 0 false false)).

(** What the reader of a response body delivers: the decoded chunks, then
    either the end of the stream or an error. *)
Record StreamBody := mkStream {
  chunks : list jsstring;
  read_error : option JsError
}.

Section WithNetwork.

Variable Number_toString : jsstring -> jsstring.
(** The outcome of the [n]-th generation request (counted from 0); the body
    of a successful response is its stream of chunks when streaming, and
    the body read by [response.json()] otherwise. *)
Variable JsonBody : Type.
Variable network : nat -> completion (HttpResponse (StreamBody * JsonBody)).
(** [handleNonStreamingResponse(response)] *)
Variable handleNonStreamingResponse : JsonBody -> M Service GenerationResult.

(** [a && b && c] on the candidates of a parsed object: the value of the
    expression [data.candidates && data.candidates[0] &&
    data.candidates[0].<field>]. *)
Definition first_candidate_field (data : json) (field : jsstring)
  : completion value :=
  match get_prop (Some data) (js "candidates") with
  | Throw e => Throw e
  | Return candidates =>
      if negb (truthy candidates) then Return candidates
      else
        match get_index0 candidates with
        | Throw e => Throw e
        | Return candidate =>
            if negb (truthy candidate) then Return candidate
            else get_prop candidate field
        end
  end.

(** [data.candidates[0].content.parts[0].text] *)
Definition first_part_text (data : json) : completion value :=
  match get_prop (Some data) (js "candidates") with
  | Throw e => Throw e
  | Return candidates =>
      match get_index0 candidates with
      | Throw e => Throw e
      | Return candidate =>
          match get_prop candidate (js "content") with
          | Throw e => Throw e
          | Return content =>
              match get_prop content (js "parts") with
              | Throw e => Throw e
              | Return parts =>
                  match get_index0 parts with
                  | Throw e => Throw e
                  | Return part => get_prop part (js "text")
                  end
              end
          end
      end
  end.

(** The first [if] of the body of the [for] loop of
    [handleStreamingResponse]: the text of the object, when it has one, is
    appended to [fullResponse] and emitted as a token; the result is the new
    [fullResponse]. *)
Definition receive_token (data : json) (fullResponse : jsstring)
  : M Service jsstring :=
  has_content ← lift (first_candidate_field data (js "content"));
  if truthy has_content then
    content ← lift (first_part_text data);
    match content with
    | Some token =>
        if truthy content then
          s ← get;
          emit (TokenReceived token (currentModel s)) ;;
          ret (fullResponse ++ to_string Number_toString token)
        else ret fullResponse
    | None => ret fullResponse
    end
  else ret fullResponse.

(** The [for (const data of jsonObjects)] loop of [handleStreamingResponse]:
    [inl fullResponse] when the loop runs to its end, [inr result] when it
    returns from the function. *)
Fixpoint process_objects (jsonObjects : list json) (fullResponse : jsstring)
  : M Service (jsstring + GenerationResult) :=
  match jsonObjects with
  | [] => ret (inl fullResponse)
  | data :: rest =>
      fullResponse1 ← receive_token data fullResponse;
      finishReason ← lift (first_candidate_field data (js "finishReason"));
      if truthy finishReason then
        s ← get;
        emit (GenerationCompleted fullResponse1 (currentModel s)
                finishReason) ;;
        ret (inr (mkResult fullResponse1 true (currentModel s)))
      else process_objects rest fullResponse1
  end.

(** The [while (true)] loop of [handleStreamingResponse] over the chunks
    still to be read. *)
Fixpoint read_loop (chunks : list jsstring) (read_error : option JsError)
  (buffer fullResponse : jsstring) : M Service GenerationResult :=
  match chunks with
  | [] =>
      match read_error with
      | Some e => throw e
      | None =>
          s ← get;
          ret (mkResult fullResponse true (currentModel s))
      end
  | value :: chunks' =>
      let buffer1 := buffer ++ value in
      let jsonObjects := parseStreamingJSON buffer1 in
      r ← process_objects jsonObjects fullResponse;
      match r with
      | inl fullResponse1 => read_loop chunks' read_error buffer1 fullResponse1
      | inr result => ret result
      end
  end.

(** [handleStreamingResponse(response)] *)
Definition handleStreamingResponse (stream : StreamBody)
  : M Service GenerationResult :=
  try_catch
    (read_loop (chunks stream) (read_error stream) [] [])
    (fun error =>
       emit (ErrorEvent (js "streaming-failed") (message error) None None) ;;
       throw error).

(** [await fetch(endpoint, ...)] *)
Definition fetch_generate : M Service (HttpResponse (StreamBody * JsonBody)) :=
  s ← get;
  modify count_request ;;
  lift (network (requests s)).

(** [await new Promise(resolve => setTimeout(resolve, delay))] *)
Definition sleep (delay : Z) : M Service unit := modify (push_sleep delay).

(** The [while (retryCount <= maxRetries)] loop of [generateResponse],
    unrolled at most [fuel] times; [None] is the [undefined] returned when
    the loop condition fails. *)
Fixpoint request_loop (fuel : nat) (stream : bool) (maxRetries : nat)
  (retryCount : nat) : M Service (option GenerationResult) :=
  if (retryCount <=? maxRetries)%nat then
    match fuel with
    | O => fun s => (s, OutOfFuel)
    | S fuel' =>
        attempt ←
          try_catch
            (response ← fetch_generate;
             if negb (ok response) then
               throw (new_Error (js "HTTP " ++ num_to_string (status response)
                                 ++ js ": " ++ errorMessage response))
             else ret (inl response))
            (fun error =>
               let retryCount := S retryCount in
               s ← get;
               (if str_eqb (name error) (js "AbortError") then
                  emit (ErrorEvent (js "timeout")
                          (js "Request timed out after "
                           ++ num_to_string (Z.to_N (requestTimeout s))
                           ++ js "ms")
                          (Some (currentModel s)) (Some retryCount))
                else if includes (message error) (js "HTTP 401") then
                  emit (ErrorEvent (js "invalid-api-key")
                          (js "Invalid API key provided")
                          (Some (currentModel s)) None) ;;
                  throw error
                else if includes (message error) (js "HTTP 429") then
                  emit (ErrorEvent (js "rate-limited")
                          (js "Rate limit exceeded")
                          (Some (currentModel s)) (Some retryCount))
                else if includes (message error) (js "HTTP 400") then
                  emit (ErrorEvent (js "invalid-request")
                          (js "Invalid request parameters")
                          (Some (currentModel s)) None) ;;
                  throw error
                else
                  emit (ErrorEvent (js "generation-failed") (message error)
                          (Some (currentModel s)) (Some retryCount))) ;;
               (if (maxRetries <? retryCount)%nat then
                  throw (new_Error
                           (js "Failed after "
                            ++ num_to_string (N.of_nat maxRetries)
                            ++ js " retries: " ++ message error))
                else ret tt) ;;
               let delay := (retryDelay s * 2 ^ Z.of_nat (retryCount - 1))%Z in
               sleep delay ;;
               ret (inr retryCount));
        match attempt with
        | inl response =>
            r ← (if stream then handleStreamingResponse (fst (body response))
                 else handleNonStreamingResponse (snd (body response)));
            ret (Some r)
        | inr retryCount => request_loop fuel' stream maxRetries retryCount
        end
    end
  else ret None.

(** [generateResponse(prompt, options)] with [options.stream] made
    explicit. *)
Definition generateResponse (prompt : jsstring) (stream : bool)
  : M Service (option GenerationResult) :=
  s ← get;
  (if negb (isConnected s) then
     let error := new_Error (js "Gemini service not connected") in
     emit (ErrorEvent (js "service-not-connected") (message error) None None) ;;
     throw error
   else ret tt) ;;
  (if is_empty prompt || (length (trim prompt) =? 0)%nat then
     let error := new_Error (js "Empty prompt provided") in
     emit (ErrorEvent (js "invalid-prompt") (message error) None None) ;;
     throw error
   else ret tt) ;;
  emit (GenerationStarted (currentModel s) (prompt_preview prompt)) ;;
  let maxRetries := maxRetries s in
  request_loop (S maxRetries) stream maxRetries 0.

(** The tokens carried by the [token-received] events of a log, rendered as
    string concatenation renders them. *)
Definition token_texts (log : list Event) : list jsstring :=
  omap (fun ev => match ev with
                  | TokenReceived token _ => Some (to_string Number_toString token)
                  | _ => None
                  end) log.

(** The [fullResponse] carried by the [generation-completed] events. *)
Definition completed_responses (log : list Event) : list jsstring :=
  omap (fun ev => match ev with
                  | GenerationCompleted fullResponse _ _ => Some fullResponse
                  | _ => None
                  end) log.

End WithNetwork.

(** What the client looks for in the text of an error before it gives up:
    ["HTTP 401"], or ["HTTP 400"] without ["HTTP 429"]. *)
Definition markers (text : jsstring) : bool :=
  includes text (js "HTTP 401")
  || negb (includes text (js "HTTP 429")) && includes text (js "HTTP 400").

(** The errors after which [generateResponse] gives up at once. *)
Definition permanent (e : JsError) : bool :=
  negb (is_timeout e) && markers (message e).

(** What one failed request leaves behind. *)
Definition after_failure (s s1 : Service) : Prop :=
  requests s1 = S (requests s)
  /\ errorListener s1 = errorListener s
  /\ retryDelay s1 = retryDelay s
  /\ requestTimeout s1 = requestTimeout s.

(** A connected service with a listener for ['error'], as the application
    sets it up before a generation. *)
Definition ready : Service :=
  {| currentModel := js "gemini-1.5-flash-002";
     apiKey := Some (js "AIzaSyA-1234567890_abcdefghijklmnopqrs");
     isConnected := true; requestTimeout := 60000; maxRetries := 3;
     retryDelay := 1000; errorListener := true; emitted := [];
     requests := 0; sleeps := [] |}.

(** The same client without a listener for ['error']. *)
Definition unheard : Service :=
  {| currentModel := js "gemini-1.5-flash-002";
     apiKey := Some (js "AIzaSyA-1234567890_abcdefghijklmnopqrs");
     isConnected := true; requestTimeout := 60000; maxRetries := 3;
     retryDelay := 1000; errorListener := false; emitted := [];
     requests := 0; sleeps := [] |}.

Definition no_handler (b : unit) : M Service GenerationResult :=
  ret (mkResult [] true []).

Definition no_body : StreamBody * unit := (mkStream [] None, tt).

(** A JSON text written with an apostrophe wherever it has a double
    quote. *)
Definition json_text (s : string) : jsstring :=
  map (fun c => if c =? 39 then 34 else c) (js s).

(** A response streamed in two chunks, one object in each: the text ["Hi"],
    then the text ["!"] with the finish reason. *)
Definition first_chunk : jsstring :=
  json_text "[{'candidates':[{'content':{'parts':[{'text':'Hi'}]}}]}".

Definition second_chunk : jsstring :=
  json_text ",{'candidates':[{'content':{'parts':[{'text':'!'}]},'finishReason':'STOP'}]}]".

(** The text of the first part of the first candidate of an object, when it
    is a string. *)
Definition part_text (data : json) : option jsstring :=
  match first_part_text data with
  | Return (Some (JStr text)) => Some text
  | _ => None
  end.

(** One timeout, then the given status on every request. *)
Definition timeout_then (status : N) (errorMessage : jsstring) (n : nat)
  : completion (HttpResponse (StreamBody * unit)) :=
  match n with
  | O => Throw AbortError
  | S _ => Return (mkResponse status errorMessage no_body)
  end.

End Gemini.

(** ** Backend selection ([main.js]) *)

Module Orchestrator.

(** Which service object a validation refers to. *)
Inductive ServiceRef :=
| GeminiService
| OllamaService.

Record Validation := mkValidation {
  backend : jsstring;
  isValid : bool;
  error : option jsstring;
  config : option json;
  service : option ServiceRef;
  apiKeyConfigured : bool;
  modelConfigured : bool;
  currentModel : option jsstring
}.

(** What [sendToRenderer(channel, data)] hands to the window. *)
Inductive Message :=
| BackendError (type : jsstring) (error : option jsstring)
    (contentType : ContentType) (contentLength : nat) (backend : jsstring)
| BackendFallback (from to reason : jsstring).

Record App := mkApp {
  activeBackend : option jsstring;
  backendConfig : option json;
  geminiService : option Gemini.Service;
  ollamaService : option Ollama.Service;
  secureStorage : option Vault.Service;
  mainWindow : bool;
  sent : list Message
}.

Definition set_secureStorage (v : option Vault.Service) (a : App) : App :=
  mkApp (activeBackend a) (backendConfig a) (geminiService a)
    (ollamaService a) v (mainWindow a) (sent a).

(** [sendToRenderer(event, data)]: delivered only while the window and its
    web contents exist. *)
Definition sendToRenderer (msg : Message) : M App unit :=
  modify (fun a =>
    if mainWindow a then
      mkApp (activeBackend a) (backendConfig a) (geminiService a)
        (ollamaService a) (secureStorage a) (mainWindow a) (sent a ++ [msg])
    else a).

Section WithEnvironment.

Variable safeStorage : Vault.SafeStorage.

(** [this.secureStorage?.retrieveGeminiApiKey()]: [None] is [null] or
    [undefined]. *)
Definition retrieve_key : M (App * Validation) (option jsstring) :=
  fun ctx =>
    match secureStorage (fst ctx) with
    | None => (ctx, Value None)
    | Some vault =>
        let '(vault1, r) := Vault.retrieveGeminiApiKey safeStorage vault in
        ((set_secureStorage (Some vault1) (fst ctx), snd ctx), r)
    end.

Definition update_validation (f : Validation -> Validation)
  : M (App * Validation) unit :=
  modify (fun ctx => (fst ctx, f (snd ctx))).

(** The [if (backend === 'gemini')] block inside the [try]; the result
    tells whether the function has returned from within it. *)
Definition validate_gemini : M (App * Validation) bool :=
  ctx ← get;
  match geminiService (fst ctx) with
  | None =>
      update_validation (fun v =>
        mkValidation (js "ollama") (isValid v) (error v) (config v)
          (service v) (apiKeyConfigured v) (modelConfigured v)
          (currentModel v)) ;;
      (* [backend = 'ollama'] assigns to a binding declared with [const]. *)
      throw (TypeError (js "Assignment to constant variable."))
  | Some gemini =>
      if negb (Gemini.isConnected gemini) then
        throw (new_Error (js "Gemini service is not connected. Please check your API key configuration."))
      else
        apiKey ← retrieve_key;
        match apiKey with
        | None | Some [] =>
            throw (new_Error (js "Gemini API key is not configured. Please set up your API key in settings."))
        | Some (_ :: _) =>
            update_validation (fun v =>
              mkValidation (backend v) true (error v) (config v)
                (Some GeminiService) true (modelConfigured v)
                (currentModel v)) ;;
            ret true
        end
  end.

(** The validation of the Ollama configuration that ends the [try]. *)
Definition validate_ollama : M (App * Validation) unit :=
  ctx ← get;
  match ollamaService (fst ctx) with
  | None => throw (new_Error (js "Ollama service is not initialized"))
  | Some ollama =>
      if negb (Ollama.isConnected ollama) then
        throw (new_Error (js "Ollama service is not connected. Please ensure Ollama is running locally at http://localhost:11434"))
      else
        match Ollama.currentModel ollama with
        | [] =>
            throw (new_Error (js "No Ollama model is configured. Please select a model in settings."))
        | (_ :: _) as model =>
            update_validation (fun v =>
              mkValidation (backend v) true (error v) (config v)
                (Some OllamaService) (apiKeyConfigured v) true (Some model))
        end
  end.

(** The body of the [try] of [determineBackendFromSettings]. *)
Definition validate_backend (selected : jsstring) : M (App * Validation) unit :=
  returned ← (if str_eqb selected (js "gemini") then validate_gemini
              else ret false);
  if returned : bool then ret tt else validate_ollama.

(** Its [catch]. *)
Definition record_error (err : JsError) : M (App * Validation) unit :=
  update_validation (fun v =>
    mkValidation (backend v) (isValid v) (Some (message err)) (config v)
      (service v) (apiKeyConfigured v) (modelConfigured v) (currentModel v)).

(** [this.activeBackend || 'ollama'] *)
Definition selected_backend (app : App) : jsstring :=
  match activeBackend app with
  | Some ((_ :: _) as b) => b
  | _ => js "ollama"
  end.

(** [determineBackendFromSettings()] *)
Definition determineBackendFromSettings : M App Validation :=
  fun app =>
    let selected := selected_backend app in
    let validation :=
      mkValidation selected false None (backendConfig app) None false false
        None in
    let '((app1, validation1), _) :=
      try_catch (validate_backend selected) record_error (app, validation) in
    (app1, Value validation1).

(** Where [handleClipboardChange] sends the generation request. *)
Inductive Dispatch :=
| NoDispatch
| DispatchTo (backend : jsstring) (service : option ServiceRef).

(** [handleClipboardChange(changeEvent)] up to the choice of the service:
    the [try] block that builds the prompt and calls [generateResponse] on
    the chosen service is represented by the returned [DispatchTo]. *)
Definition handleClipboardChange (changeEvent : Monitor.ChangeEvent)
  : M App Dispatch :=
  if negb (Monitor.isSignificant changeEvent) then ret NoDispatch
  else if Monitor.isEmpty changeEvent then ret NoDispatch
  else
    backendValidation ← determineBackendFromSettings;
    if negb (isValid backendValidation) then
      sendToRenderer
        (BackendError (js "backend-validation-failed")
           (error backendValidation) (Monitor.type changeEvent)
           (Monitor.length_ changeEvent) (backend backendValidation)) ;;
      ret NoDispatch
    else
      app ← get;
      (if bool_decide (activeBackend app = Some (js "gemini"))
          && str_eqb (backend backendValidation) (js "ollama") then
         sendToRenderer
           (BackendFallback (js "gemini") (js "ollama")
              (js "Gemini service not initialized (no API key)"))
       else ret tt) ;;
      ret (DispatchTo (backend backendValidation)
             (service backendValidation)).

Definition is_fallback (m : Message) : bool :=
  match m with
  | BackendFallback _ _ _ => true
  | _ => false
  end.

Definition fallbacks (log : list Message) : list Message :=
  List.filter is_fallback log.

End WithEnvironment.

(** The cloud backend is selected, no key was ever stored and so the Gemini
    service was never created; Ollama is up with a model. *)
Definition gemini_without_key : App :=
  {| activeBackend := Some (js "gemini");
     backendConfig := None;
     geminiService := None;
     ollamaService := Some Ollama.ready;
     secureStorage := Some Vault.empty_vault;
     mainWindow := true;
     sent := [] |}.

(** The event of the clipboard going from empty to a link. *)
Definition link_copied : Monitor.ChangeEvent :=
  {| Monitor.newValue := js "https://example.com";
     Monitor.oldValue := [];
     Monitor.timestamp := 1000;
     Monitor.isEmpty := false;
     Monitor.length_ := 19;
     Monitor.type := detectContentType (js "https://example.com");
     Monitor.isSignificant := isSignificantChange (js "https://example.com") [] |}.

End Orchestrator.


(** ** The vault: key management ([services/secureStorage.js]) *)

Module VaultAdmin.

Inductive Event :=
| ApiKeyDeleted (keyName : jsstring)
| ApiKeyExported (keyName : jsstring)
| ApiKeyImported (keyName : jsstring) (sourcePlatform : jsstring)
| ApiKeyMigrated (envVarName : jsstring)
| StorageCleared.

(** The service object as the operations below see it: [core] holds the
    fields of [Vault.Service], with the events of the operations modelled
    there; [emitted] lists the events of the operations below, none of
    which is an ['error'] event; [sleeps] lists the delays waited by
    [retryOperation]. *)
Record Service := mkService {
  core : Vault.Service;
  platform : jsstring;
  emitted : list Event;
  sleeps : list Z
}.

Definition set_core (f : Vault.Service -> Vault.Service) (s : Service)
  : Service :=
  mkService (f (core s)) (platform s) (emitted s) (sleeps s).

(** Run an operation of the core on the [core] of the service. *)
Definition on_core {A} (m : M Vault.Service A) : M Service A :=
  fun s =>
    let '(c, r) := m (core s) in
    (mkService c (platform s) (emitted s) (sleeps s), r).

Definition emit (ev : Event) : M Service unit :=
  modify (fun s => mkService (core s) (platform s) (emitted s ++ [ev])
                     (sleeps s)).

(** [await new Promise(resolve => setTimeout(resolve, delay))] *)
Definition sleep (delay : Z) : M Service unit :=
  modify (fun s => mkService (core s) (platform s) (emitted s)
                     (sleeps s ++ [delay])).

(** [deleteApiKey(keyName)] *)
Definition deleteApiKey (keyName : jsstring) : M Service bool :=
  try_catch
    (s ← get;
     let exists_ := Vault.hasApiKey keyName (core s) in
     if exists_ then
       modify (set_core (Vault.set_store (delete keyName))) ;;
       emit (ApiKeyDeleted keyName) ;;
       ret true
     else ret false)
    (fun error =>
       on_core (Vault.emit (Vault.ErrorEvent (js "delete-failed")
                              (Some keyName) (message error))) ;;
       ret false).

Definition deleteGeminiApiKey : M Service bool :=
  deleteApiKey Vault.KEYS_GEMINI_API_KEY.

(** [clearAll()] *)
Definition clearAll : M Service bool :=
  try_catch
    (modify (set_core (Vault.set_store (fun _ => ∅))) ;;
     emit StorageCleared ;;
     ret true)
    (fun error =>
       on_core (Vault.emit (Vault.ErrorEvent (js "clear-failed") None
                              (message error))) ;;
       ret false).

(** The [shouldRetry] that [retryOperation] uses when it is given none. *)
Definition default_shouldRetry (error : JsError) : bool :=
  includes (message error) (js "timeout")
  || includes (message error) (js "network")
  || includes (message error) (js "rate limit")
  || includes (message error) (js "temporary").

Section Retry.

Context {A : Type}.
Variable operation : M Service A.
Variable maxRetries : nat.
Variables baseDelay maxDelay : Z.
Variable shouldRetry : JsError -> bool.

(** The [for (let attempt = 0; attempt <= maxRetries; attempt++)] loop of
    [retryOperation] from the iteration [attempt] on, with [remaining]
    iterations to follow it, and the [throw lastError] behind the loop. *)
Fixpoint retry_from (remaining attempt : nat) : M Service A :=
  try_catch operation
    (fun error =>
       match remaining with
       | O => throw error
       | S remaining' =>
           if negb (shouldRetry error) then throw error
           else
             let delay := Z.min (baseDelay * 2 ^ Z.of_nat attempt) maxDelay in
             sleep delay ;;
             retry_from remaining' (S attempt)
       end).

(** [retryOperation(operation, options)] for a [maxRetries] that is a
    natural number. *)
Definition retryOperation : M Service A := retry_from maxRetries 0.

(** The delays [Math.min(baseDelay * Math.pow(2, attempt), maxDelay)] of
    the attempts [from], ..., [from + count - 1]. *)
Definition capped_delays (from count : nat) : list Z :=
  map (fun attempt => Z.min (baseDelay * 2 ^ Z.of_nat attempt) maxDelay)
    (seq from count).

End Retry.

Record StoredKeyValidation := mkStoredKeyValidation {
  isValid : bool;
  error : option jsstring;
  formatErrors : option (list jsstring);
  apiTest : option Vault.ApiTest
}.

Record ExportData := mkExportData {
  export_keyName : jsstring;
  export_platform : jsstring;
  export_storageBackend : jsstring;
  encryptedData : option jsstring
}.

Record ExportResult := mkExportResult {
  export_success : bool;
  data : option ExportData;
  export_error : option jsstring
}.

Inductive TransferDetails :=
| NoDetails                                         (* [{}] *)
| Existing                                          (* [{ existing: true }] *)
| ValidationErrors (errors : list jsstring)
| Migrated (envVarName : jsstring)
| Imported (keyName : jsstring) (sourcePlatform : jsstring)
| UndefinedDetails.

(** The result of [importApiKey] and of [migrateFromEnvironment];
    [transferred] is [imported], respectively [migrated]. *)
Record TransferResult := mkTransferResult {
  success : bool;
  transferred : bool;
  transfer_error : option jsstring;
  details : TransferDetails
}.

(** What reading a property gives on the promise that a call of an [async]
    function returns: [success], [error] and [details] are not properties
    of a promise. *)
Definition promise_property {A} (field : jsstring) : option A := None.

Section WithEnvironment.

Variable safeStorage : Vault.SafeStorage.
Variable fetch_models : jsstring -> Vault.FetchOutcome.
(** [process.env] *)
Variable env : jsstring -> option jsstring.

(** [validateStoredApiKey(keyName)] *)
Definition validateStoredApiKey (keyName : jsstring)
  : M Service StoredKeyValidation :=
  try_catch
    (apiKey ← on_core (Vault.retrieveApiKey safeStorage keyName);
     match apiKey with
     | None | Some [] =>
         ret (mkStoredKeyValidation false
                (Some (js "API key not found in storage")) None None)
     | Some apiKey =>
         let formatValidation := Vault.validateApiKeyFormat apiKey in
         if negb (Vault.isValid formatValidation) then
           ret (mkStoredKeyValidation false
                  (Some (js "Format validation failed: "
                         ++ join (js ", ") (Vault.errors formatValidation)))
                  (Some (Vault.errors formatValidation)) None)
         else
           apiTest ←
             retryOperation
               (on_core (Vault.testApiKeyAgainstGemini fetch_models apiKey))
               2 2000 10000
               (fun error =>
                  includes (message error) (js "timeout")
                  || includes (message error) (js "rate limit")
                  || includes (message error) (js "network"));
           if Vault.test_isValid apiTest then
             ret (mkStoredKeyValidation true None None (Some apiTest))
           else
             ret (mkStoredKeyValidation false (Vault.test_error apiTest) None
                    (Some apiTest))
     end)
    (fun error =>
       ret (mkStoredKeyValidation false (Some (message error)) None None)).

(** A call of the [async] function [storeApiKey] that is not awaited, with
    no [options]: the body runs to its end at once, there being no [await]
    on its way when [options.testAgainstApi] is not set, and whatever it
    returns or throws settles the promise that the caller gets. *)
Definition storeApiKey_promise (keyName apiKey : jsstring) : M Service unit :=
  fun s =>
    let '(s1, _) :=
      on_core (Vault.storeApiKey safeStorage fetch_models keyName apiKey false)
        s in
    (s1, Value tt).

(** [migrateFromEnvironment(keyName, envVarName)] *)
Definition migrateFromEnvironment (keyName envVarName : jsstring)
  : M Service TransferResult :=
  try_catch
    (s ← get;
     if Vault.hasApiKey keyName (core s) then
       ret (mkTransferResult false false
              (Some (js "API key already exists in secure storage")) Existing)
     else
       match env envVarName with
       | None | Some [] =>
           ret (mkTransferResult false false
                  (Some (js "Environment variable " ++ envVarName
                         ++ js " not found or empty")) NoDetails)
       | Some envApiKey =>
           if (length (trim envApiKey) =? 0)%nat then
             ret (mkTransferResult false false
                    (Some (js "Environment variable " ++ envVarName
                           ++ js " not found or empty")) NoDetails)
           else
             let validation := Vault.validateApiKeyFormat envApiKey in
             if negb (Vault.isValid validation) then
               ret (mkTransferResult false false
                      (Some (js "Invalid API key format: "
                             ++ join (js ", ") (Vault.errors validation)))
                      (ValidationErrors (Vault.errors validation)))
             else
               (* [const storeResult = this.storeApiKey(keyName, envApiKey)] *)
               storeApiKey_promise keyName envApiKey ;;
               if default false (promise_property (js "success")) then
                 emit (ApiKeyMigrated envVarName) ;;
                 ret (mkTransferResult true true None (Migrated envVarName))
               else
                 ret (mkTransferResult false false
                        (promise_property (js "error"))
                        (default UndefinedDetails
                           (promise_property (js "details"))))
       end)
    (fun error =>
       ret (mkTransferResult false false (Some (message error)) NoDetails)).

(** [exportApiKey(keyName)] *)
Definition exportApiKey (keyName : jsstring) : M Service ExportResult :=
  try_catch
    (apiKey ← on_core (Vault.retrieveApiKey safeStorage keyName);
     match apiKey with
     | None | Some [] =>
         ret (mkExportResult false None (Some (js "API key not found")))
     | Some (_ :: _) =>
         s ← get;
         let exportData :=
           mkExportData keyName (platform s) (Vault.storageBackend (core s))
             (Vault.store (core s) !! keyName) in
         emit (ApiKeyExported keyName) ;;
         ret (mkExportResult true (Some exportData) None)
     end)
    (fun error => ret (mkExportResult false None (Some (message error)))).

(** [importApiKey(exportData)], for export data that is [null] or an
    object of the shape that [exportApiKey] produces. *)
Definition importApiKey (exportData : option ExportData)
  : M Service TransferResult :=
  try_catch
    (match exportData with
     | Some (mkExportData ((_ :: _) as keyName) sourcePlatform _
               (Some ((_ :: _) as encrypted))) =>
         s ← get;
         if Vault.hasApiKey keyName (core s) then
           ret (mkTransferResult false false
                  (Some (js "API key already exists in secure storage"))
                  Existing)
         else
           modify (set_core (Vault.set_store (insert keyName encrypted))) ;;
           emit (ApiKeyImported keyName sourcePlatform) ;;
           ret (mkTransferResult true true None
                  (Imported keyName sourcePlatform))
     | _ =>
         ret (mkTransferResult false false
                (Some (js "Invalid export data format")) NoDetails)
     end)
    (fun error =>
       ret (mkTransferResult false false (Some (message error)) NoDetails)).

End WithEnvironment.

(** The service on Linux, around a given core. *)
Definition on_linux (c : Vault.Service) : Service :=
  mkService c (js "linux") [] [].

(** A vault that holds [Vault.key1] as the Gemini key. *)
Definition with_key : Service :=
  on_linux
    (fst (Vault.storeApiKey Vault.plain_safeStorage Vault.offline
            Vault.KEYS_GEMINI_API_KEY Vault.key1 false Vault.empty_vault)).

(** An environment that defines [GEMINI_API_KEY] only. *)
Definition env_with_key (name : jsstring) : option jsstring :=
  if str_eqb name (js "GEMINI_API_KEY") then Some Vault.key1 else None.

(** An operation that always times out. *)
Definition timing_out : M Service unit :=
  throw (new_Error (js "API request timed out: timeout")).

End VaultAdmin.

(** ** From clipboard text to prompt ([main.js]) *)

Module Prompt.

(** [s.split(sep)] for a separator of one code unit. *)
Fixpoint split (sep : N) (s : jsstring) : list jsstring :=
  match s with
  | [] => [[]]
  | c :: s' =>
      if c =? sep then [] :: split sep s'
      else
        match split sep s' with
        | line :: lines => (c :: line) :: lines
        | [] => [[c]]
        end
  end.

(** *** Backtracking matches

    [ends r s] lists what is left of [s] behind each match of [r] at the
    start of [s], in the order in which a backtracking matcher with greedy
    quantifiers tries them; an iteration of a star that consumes nothing is
    given up, as in ECMAScript. *)
Fixpoint star_ends (step : jsstring -> list jsstring) (fuel : nat)
  (s : jsstring) : list jsstring :=
  match fuel with
  | O => [s]
  | S fuel' =>
      flat_map
        (fun s1 =>
           if (length s1 <? length s)%nat then star_ends step fuel' s1
           else [])
        (step s)
      ++ [s]
  end.

Fixpoint ends (r : regex) (s : jsstring) : list jsstring :=
  match r with
  | Void => []
  | Eps => [s]
  | Class p =>
      match s with
      | c :: s' => if p c then [s'] else []
      | [] => []
      end
  | Cat r1 r2 => flat_map (ends r2) (ends r1 s)
  | Alt r1 r2 => ends r1 s ++ ends r2 s
  | Star r1 => star_ends (ends r1) (length s) s
  end.

(** The match found at the start of [s], if any: what is left behind it. *)
Definition exec (r : regex) (s : jsstring) : option jsstring :=
  head (ends r s).

(** [s.replace(/r/g, replacement)] for a replacement text without [$]:
    the text is scanned from left to right, [skip] being the number of code
    units still covered by the last match; an empty match is replaced and
    the scan moves on by one unit. *)
Fixpoint replace_all (r : regex) (replacement : jsstring) (s : jsstring)
  (skip : nat) : jsstring :=
  match s with
  | [] =>
      match skip, exec r [] with
      | O, Some _ => replacement
      | _, _ => []
      end
  | c :: s' =>
      match skip with
      | S skip' => replace_all r replacement s' skip'
      | O =>
          match exec r s with
          | Some rest =>
              match (length s - length rest)%nat with
              | O => replacement ++ c :: replace_all r replacement s' 0
              | S n => replacement ++ replace_all r replacement s' n
              end
          | None => c :: replace_all r replacement s' 0
          end
      end
  end.

Definition replace (r : regex) (replacement s : jsstring) : jsstring :=
  replace_all r replacement s 0.

(** [\s] *)
Definition white_space : regex := Class is_white_space.

(** [/\n\s*\n\s*\n/] *)
Definition blank_lines : regex :=
  Cat (Chr 10)
    (Cat (Star white_space)
       (Cat (Chr 10) (Cat (Star white_space) (Chr 10)))).

(** [/[ \t]+/] *)
Definition blanks : regex := Plus (Class (fun c => (c =? 32) || (c =? 9))).

(** [isUnsupportedFormat(content)]; [longLines.length > lines.length * 0.5]
    compares integers and holds exactly when twice the first exceeds the
    second. *)
Definition isUnsupportedFormat (content : jsstring) : bool :=
  if includes content [0] || includes content [65533] then true
  else if includes content [92] && includes content [58] then true
  else
    let lines := split 10 content in
    let longLines := List.filter (fun line => (200 <? length line)%nat) lines in
    if (length lines <? 2 * length longLines)%nat then true
    else false.

(** [sanitizeContent(content)] *)
Definition sanitizeContent (content : jsstring) : jsstring :=
  let sanitized := replace (Chr 0) [] content in
  let sanitized := replace (Chr 13) [10] (replace (Lit [13; 10]) [10] sanitized) in
  let sanitized := replace blank_lines [10; 10] sanitized in
  let sanitized := replace blanks [32] sanitized in
  let sanitized := join [10] (map trim (split 10 sanitized)) in
  let sanitized := trim sanitized in
  sanitized.

Record ProcessedText := mkProcessedText {
  originalContent : jsstring;
  processedContent : jsstring;
  contentType : ContentType;
  length_ : nat;
  isValid : bool;
  sanitizationApplied : bool
}.

(** [processAndValidateClipboardText(changeEvent)] *)
Definition processAndValidateClipboardText (changeEvent : Monitor.ChangeEvent)
  : completion ProcessedText :=
  let rawContent := Monitor.newValue changeEvent in
  let contentType := Monitor.type changeEvent in
  if is_empty rawContent then
    Throw (new_Error (js "Invalid clipboard content: not a string"))
  else
    let processedContent := trim rawContent in
    if is_empty processedContent then
      Throw (new_Error (js "Clipboard content is empty after processing"))
    else if (length processedContent <? 3)%nat then
      Throw (new_Error
               (js "Clipboard content is too short (minimum 3 characters)"))
    else if (10000 <? Z.of_nat (length processedContent))%Z then
      Throw (new_Error
               (js "Clipboard content is too long (maximum 10,000 characters)"))
    else if isUnsupportedFormat processedContent then
      Throw (new_Error (js "Unsupported clipboard format detected"))
    else
      let processedContent := sanitizeContent processedContent in
      if is_empty processedContent
         || (length (trim processedContent) =? 0)%nat then
        Throw (new_Error (js "Content became empty after sanitization"))
      else
        Return (mkProcessedText rawContent processedContent contentType
                  (length processedContent) true true).

(** The instruction that [createPromptFromClipboard] puts before the
    content, ending in an empty line. *)
Definition instruction (contentType : ContentType) : jsstring :=
  match contentType with
  | TyCode =>
      js "Please analyze this code and provide a brief explanation or suggestions for improvement:"
      ++ [10; 10]
  | TyUrl =>
      js "This appears to be a URL. Please provide a brief description of what this link might contain:"
      ++ [10; 10]
  | TyEmail =>
      js "This appears to be an email address. Please provide a brief analysis:"
      ++ [10; 10]
  | _ =>
      js "Please provide a brief analysis or summary of this text:"
      ++ [10; 10]
  end.

(** [createPromptFromClipboard(changeEvent)] *)
Definition createPromptFromClipboard (changeEvent : Monitor.ChangeEvent)
  : completion jsstring :=
  match processAndValidateClipboardText changeEvent with
  | Throw e => Throw e
  | Return processedData =>
      let content := processedContent processedData in
      let contentType := contentType processedData in
      Return (instruction contentType ++ content)
  end.

(** The first statements of the [try] block of [handleClipboardChange]:
    the prompt is created and checked. *)
Definition checked_prompt (changeEvent : Monitor.ChangeEvent)
  : completion jsstring :=
  match createPromptFromClipboard changeEvent with
  | Throw e => Throw e
  | Return prompt =>
      if is_empty prompt || (length (trim prompt) =? 0)%nat then
        Throw (new_Error (js "Generated prompt is empty"))
      else Return prompt
  end.

(** [getErrorType(error)] of the application. *)
Definition getErrorType (error : JsError) : jsstring :=
  if includes (message error) (js "not connected")
  then js "service-not-connected"
  else if includes (message error) (js "Empty prompt") then js "invalid-prompt"
  else if includes (message error) (js "timeout") then js "timeout"
  else if includes (message error) (js "model not found")
  then js "model-not-found"
  else if includes (message error) (js "HTTP 500") then js "server-error"
  else js "generation-failed".

(** The messages of the errors that [createPromptFromClipboard] can
    throw. *)
Definition rejections : list jsstring :=
  [js "Invalid clipboard content: not a string";
   js "Clipboard content is empty after processing";
   js "Clipboard content is too short (minimum 3 characters)";
   js "Clipboard content is too long (maximum 10,000 characters)";
   js "Unsupported clipboard format detected"].

(** What is neither white space nor NUL. *)
Definition visible (c : N) : bool := negb (is_white_space c || (c =? 0)).

(** Every character class of [r] lies within [P]. *)
Fixpoint over (P : N -> Prop) (r : regex) : Prop :=
  match r with
  | Class p => forall c, p c = true -> P c
  | Cat r1 r2 | Alt r1 r2 => over P r1 /\ over P r2
  | Star r1 => over P r1
  | Void | Eps => True
  end.

(** A lower bound on the length of what [r] matches. *)
Fixpoint min_len (r : regex) : nat :=
  match r with
  | Class _ => 1
  | Cat r1 r2 => min_len r1 + min_len r2
  | Alt r1 r2 => Nat.min (min_len r1) (min_len r2)
  | Void | Eps | Star _ => 0
  end.

(** [replaced r replacement s out]: [out] is [s] with some non-empty
    matches of [r] replaced, each found where the scan stood, and every
    unit at which the scan found no match copied. *)
Inductive replaced (r : regex) (replacement : jsstring)
  : jsstring -> jsstring -> Prop :=
| replaced_nil : replaced r replacement [] []
| replaced_copy c s out :
    exec r (c :: s) = None ->
    replaced r replacement s out ->
    replaced r replacement (c :: s) (c :: out)
| replaced_match c pre s out :
    exec r (c :: pre ++ s) = Some s ->
    replaced r replacement s out ->
    replaced r replacement (c :: pre ++ s) (replacement ++ out).

End Prompt.

(** ** The streaming reader of the Ollama client
    ([services/ollamaService.js]) *)

Module OllamaStream.

Inductive Event :=
| TokenReceived (token : json) (fullResponse : jsstring) (done : value)
| GenerationCompleted (fullResponse : jsstring) (model usage : value)
| ErrorEvent (type : jsstring) (error : jsstring).

Definition is_error_event (ev : Event) : bool :=
  match ev with
  | ErrorEvent _ _ => true
  | _ => false
  end.

(** The fields of the service that the reader uses, with the local
    variables [fullResponse] and [isComplete] of the call in progress. *)
Record Reader := mkReader {
  currentModel : jsstring;
  errorListener : bool;
  emitted : list Event;
  fullResponse : jsstring;
  isComplete : bool
}.

Definition push_event (ev : Event) (s : Reader) : Reader :=
  mkReader (currentModel s) (errorListener s) (emitted s ++ [ev])
    (fullResponse s) (isComplete s).

Definition set_fullResponse (text : jsstring) (s : Reader) : Reader :=
  mkReader (currentModel s) (errorListener s) (emitted s) text (isComplete s).

Definition set_isComplete (b : bool) (s : Reader) : Reader :=
  mkReader (currentModel s) (errorListener s) (emitted s) (fullResponse s) b.

Definition emit (ev : Event) : M Reader unit :=
  fun s =>
    if is_error_event ev && negb (errorListener s)
    then (s, Raise ERR_UNHANDLED_ERROR)
    else (push_event ev s, Value tt).

Section WithNumbers.

Variable Number_toString : jsstring -> jsstring.

(** The body of the [try] inside the [for] loop; the result tells whether
    the loop is left by [break]. *)
Definition read_line (line : jsstring) : M Reader bool :=
  data ← lift (JSON_parse line);
  response ← lift (get_prop (Some data) (js "response"));
  match response with
  | Some token =>
      if truthy response then
        modify (fun s =>
          set_fullResponse
            (fullResponse s ++ to_string Number_toString token) s) ;;
        done ← lift (get_prop (Some data) (js "done"));
        s ← get;
        emit (TokenReceived token (fullResponse s)
                (if truthy done then done else Some (JBool false)))
      else ret tt
  | None => ret tt
  end ;;
  done ← lift (get_prop (Some data) (js "done"));
  if truthy done then
    modify (set_isComplete true) ;;
    model ← lift (get_prop (Some data) (js "model"));
    usage ← lift (get_prop (Some data) (js "usage"));
    s ← get;
    emit (GenerationCompleted (fullResponse s) model usage) ;;
    ret true
  else ret false.

(** The [for (const line of lines)] loop. *)
Fixpoint read_lines (lines : list jsstring) : M Reader unit :=
  match lines with
  | [] => ret tt
  | line :: rest =>
      left_loop ← try_catch (read_line line) (fun parseError => ret false);
      if left_loop : bool then ret tt else read_lines rest
  end.

(** [chunk.split('\n').filter(line => line.trim())] *)
Definition lines_of (chunk : jsstring) : list jsstring :=
  List.filter (fun line => negb (is_empty (trim line)))
    (Prompt.split 10 chunk).

(** The [while (!isComplete)] loop over the chunks still to be read. *)
Fixpoint read_loop (chunks : list jsstring) (read_error : option JsError)
  : M Reader unit :=
  s ← get;
  if isComplete s then ret tt
  else
    match chunks with
    | [] =>
        match read_error with
        | Some e => throw e
        | None => modify (set_isComplete true)
        end
    | chunk :: chunks' =>
        read_lines (lines_of chunk) ;;
        read_loop chunks' read_error
    end.

(** [handleStreamingResponse(response)], the locals being set up on
    entry. *)
Definition handleStreamingResponse (stream : Gemini.StreamBody)
  : M Reader GenerationResult :=
  modify (set_fullResponse []) ;;
  modify (set_isComplete false) ;;
  try_catch
    (read_loop (Gemini.chunks stream) (Gemini.read_error stream) ;;
     s ← get;
     ret (mkResult (fullResponse s) true (currentModel s)))
    (fun error =>
       emit (ErrorEvent (js "streaming-failed") (message error)) ;;
       throw error).

(** The tokens of the [token-received] events of a log, as text. *)
Definition token_texts (log : list Event) : list jsstring :=
  omap (fun ev => match ev with
                  | TokenReceived token _ _ =>
                      Some (to_string Number_toString token)
                  | _ => None
                  end) log.

(** The [fullResponse] carried by the events of a log. *)
Definition reported_responses (log : list Event) : list jsstring :=
  omap (fun ev => match ev with
                  | TokenReceived _ fullResponse _ => Some fullResponse
                  | GenerationCompleted fullResponse _ _ => Some fullResponse
                  | ErrorEvent _ _ => None
                  end) log.

(** [accumulates text log]: going through [log] from the text [text],
    every token event reports the text so far followed by its token, and
    every completion event the text so far; the result is the text at the
    end. *)
Fixpoint accumulates (text : jsstring) (log : list Event)
  : option jsstring :=
  match log with
  | [] => Some text
  | TokenReceived token reported _ :: log' =>
      if str_eqb reported (text ++ to_string Number_toString token)
      then accumulates reported log'
      else None
  | GenerationCompleted reported _ _ :: log' =>
      if str_eqb reported text then accumulates text log' else None
  | ErrorEvent _ _ :: log' => accumulates text log'
  end.

(** The events of [s'] are those of [s] and then events that take the
    text of [s] to the text of [s']. *)
Definition extends (s s' : Reader) : Prop :=
  exists log,
    emitted s' = emitted s ++ log
    /\ accumulates (fullResponse s) log = Some (fullResponse s').

End WithNumbers.

Definition ready : Reader :=
  mkReader (js "gpt-oss:20b") true [] [] false.

End OllamaStream.

(** ** Backend clients: a response that is [ok]

    What the request loop of each client does once [fetch] has delivered a
    response that is [ok]: the handler chosen by [stream] runs on its body,
    outside the [try] of the loop. *)

Definition ollama_handles {Body : Type}
  (handleStreamingResponse handleNonStreamingResponse
     : Body -> M Ollama.Service GenerationResult)
  (stream : bool) (response : HttpResponse Body)
  : M Ollama.Service (option GenerationResult) :=
  r ← (if stream then handleStreamingResponse (body response)
       else handleNonStreamingResponse (body response));
  ret (Some r).

Definition gemini_handles (Number_toString : jsstring -> jsstring)
  {JsonBody : Type}
  (handleNonStreamingResponse : JsonBody -> M Gemini.Service GenerationResult)
  (stream : bool) (response : HttpResponse (Gemini.StreamBody * JsonBody))
  : M Gemini.Service (option GenerationResult) :=
  r ← (if stream
       then Gemini.handleStreamingResponse Number_toString
              (fst (body response))
       else handleNonStreamingResponse (snd (body response)));
  ret (Some r).

(** A network whose first [failures] requests time out and whose later
    requests are answered with status 200. *)
Definition recovering {Body : Type} (failures : nat) (b : Body) (n : nat)
  : completion (HttpResponse Body) :=
  if (n <? failures)%nat then Throw AbortError
  else Return (mkResponse 200 [] b).

(** ** What the monitors emit

    A change is handed on by a [clipboard-changed] event only after
    [isValidClipboardChange] has accepted it; in the adaptive monitor the
    accepted values wait in the closure of the debounce timer. *)

(** The properties of an emitted change: it has passed
    [isValidClipboardChange], is not marked empty, and carries the length
    and the type of its new value. *)
Definition accepted_change (newValue oldValue : jsstring) (isEmpty : bool)
  (length_ : nat) (type : ContentType) : Prop :=
  isValidClipboardChange newValue oldValue = true
  /\ isEmpty = false
  /\ length_ = length newValue
  /\ type = detectContentType newValue
  /\ type <> TyEmpty.

Definition monitor_accepted (ev : Monitor.Event) : Prop :=
  match ev with
  | Monitor.ClipboardChanged e =>
      accepted_change (Monitor.newValue e) (Monitor.oldValue e)
        (Monitor.isEmpty e) (Monitor.length_ e) (Monitor.type e)
  | _ => True
  end.

Definition adaptive_accepted {double : Type}
  (ev : AdaptiveMonitor.Event double) : Prop :=
  match ev with
  | AdaptiveMonitor.ClipboardChanged e =>
      accepted_change (AdaptiveMonitor.newValue e)
        (AdaptiveMonitor.oldValue e) (AdaptiveMonitor.isEmpty e)
        (AdaptiveMonitor.length_ e) (AdaptiveMonitor.type e)
  | _ => True
  end.

(** Every armed debounce timer holds a change that was accepted. *)
Definition pending_valid {double : Type}
  (s : AdaptiveMonitor.Monitor double) : Prop :=
  Forall (fun t =>
            isValidClipboardChange (AdaptiveMonitor.d_newValue (snd t))
              (AdaptiveMonitor.d_oldValue (snd t)) = true)
    (AdaptiveMonitor.timers s).

(** A step of the adaptive monitor that keeps [pending_valid] and emits
    accepted changes only. *)
Definition settles {double : Type} (s s' : AdaptiveMonitor.Monitor double)
  : Prop :=
  pending_valid s ->
  pending_valid s' /\ AdaptiveMonitor.grows_by adaptive_accepted s s'.

(** Polls of the plain monitor at the given times, each finding that
    [clipboard.readText()] throws [error]. *)
Fixpoint failing_polls (error : JsError) (times : list Z)
  (s : Monitor.Monitor) : Monitor.Monitor :=
  match times with
  | [] => s
  | t :: times' =>
      failing_polls error times'
        (fst (Monitor.pollClipboard t (Throw error) t t s))
  end.

(** Each time is at least 50 ms after the one before it, the first after
    [last]: no poll is dropped by the rate limit. *)
Fixpoint spaced (last : Z) (times : list Z) : Prop :=
  match times with
  | [] => True
  | t :: times' => (50 <= t - last)%Z /\ spaced t times'
  end.

(** A running monitor with a listener for ['error']. *)
Definition running_monitor : Monitor.Monitor :=
  fst (Monitor.startMonitoring 1000 (Return []) 0
         (Monitor.on_error (Monitor.new_Monitor 0))).

(** ** [JSON.stringify] and the stored configuration
    ([services/secureStorage.js]) *)

Module Config.

(** A hexadecimal digit, in lower case. *)
Definition hex_digit (d : N) : N := if d <? 10 then 48 + d else 87 + d.

(** [UnicodeEscape]: [\uXXXX]. *)
Definition unicode_escape (c : N) : jsstring :=
  [92; 117; hex_digit (c / 4096 mod 16); hex_digit (c / 256 mod 16);
   hex_digit (c / 16 mod 16); hex_digit (c mod 16)].

Definition is_leading_surrogate (c : N) : bool :=
  (55296 <=? c) && (c <=? 56319).

Definition is_trailing_surrogate (c : N) : bool :=
  (56320 <=? c) && (c <=? 57343).

(** The escape that [QuoteJSONString] has for a code unit on its own,
    if any. *)
Definition escape_unit (c : N) : option jsstring :=
  if c =? 8 then Some [92; 98]
  else if c =? 9 then Some [92; 116]
  else if c =? 10 then Some [92; 110]
  else if c =? 12 then Some [92; 102]
  else if c =? 13 then Some [92; 114]
  else if c =? 34 then Some [92; 34]
  else if c =? 92 then Some [92; 92]
  else if (c <? 32) || is_leading_surrogate c || is_trailing_surrogate c
  then Some (unicode_escape c)
  else None.

(** The inside of the string literal that [QuoteJSONString] builds: the
    text is read code point by code point, so a leading surrogate followed
    by a trailing one is copied with it, and a surrogate on its own is
    escaped. *)
Fixpoint quote_units (s : jsstring) : jsstring :=
  match s with
  | [] => []
  | c :: s' =>
      if is_leading_surrogate c then
        match s' with
        | d :: s'' =>
            if is_trailing_surrogate d then c :: d :: quote_units s''
            else unicode_escape c ++ quote_units s'
        | [] => unicode_escape c
        end
      else
        match escape_unit c with
        | Some escape => escape ++ quote_units s'
        | None => c :: quote_units s'
        end
  end.

(** [QuoteJSONString(value)] *)
Definition quote (s : jsstring) : jsstring := [34] ++ quote_units s ++ [34].

(** What may follow a value inside a JSON text: nothing, a comma or a
    closing bracket. *)
Definition closes (rest : jsstring) : Prop :=
  match rest with
  | [] => True
  | c :: _ => c = 44 \/ c = 93 \/ c = 125
  end.

Section WithNumbers.

(** [Number::toString] applied to the double written by a lexeme. *)
Variable Number_toString : jsstring -> jsstring.

(** [JSON.stringify(value)] without indentation, for a value made of
    [null], booleans, finite numbers, strings, arrays and plain objects;
    an object is given by its properties in the order of enumeration. *)
Fixpoint JSON_stringify (v : json) : jsstring :=
  match v with
  | JNull => js "null"
  | JBool true => js "true"
  | JBool false => js "false"
  | JNum lexeme => Number_toString lexeme
  | JStr s => quote s
  | JArr items => [91] ++ join [44] (map JSON_stringify items) ++ [93]
  | JObj fields =>
      [123]
      ++ join [44]
           (map (fun field =>
                   quote (fst field) ++ [58] ++ JSON_stringify (snd field))
              fields)
      ++ [125]
  end.

(** Every number of the value is written as [Number::toString] prints
    it, in the grammar of JSON. *)
Fixpoint printed_as_written (v : json) : bool :=
  match v with
  | JNum lexeme =>
      str_eqb (Number_toString lexeme) lexeme
      && match parse_number lexeme with
         | Some (parsed, []) => str_eqb parsed lexeme
         | _ => false
         end
  | JArr items => forallb printed_as_written items
  | JObj fields =>
      forallb (fun field => printed_as_written (snd field)) fields
  | JNull | JBool _ | JStr _ => true
  end.

End WithNumbers.

Inductive Event :=
| BackendConfigStored (storageBackend : jsstring).

(** The service with the log of [backend-config-stored] events. *)
Record Service := mkService {
  core : Vault.Service;
  emitted : list Event
}.

Definition on_core {A} (m : M Vault.Service A) : M Service A :=
  fun s =>
    let '(c, r) := m (core s) in
    (mkService c (emitted s), r).

Definition emit (ev : Event) : M Service unit :=
  modify (fun s => mkService (core s) (emitted s ++ [ev])).

Section WithEnvironment.

Variable Number_toString : jsstring -> jsstring.
Variable safeStorage : Vault.SafeStorage.

(** [storeBackendConfig(config)]; [None] is [undefined].  The test
    [!config || typeof config !== 'object'] lets objects and arrays
    through and nothing else: [null] is an object by [typeof] but is not
    truthy. *)
Definition storeBackendConfig (config : value) : M Service bool :=
  try_catch
    (match config with
     | Some ((JObj _ | JArr _) as config) =>
         let configString := JSON_stringify Number_toString config in
         encryptedBuffer ←
           lift (Vault.encryptString safeStorage configString);
         let encryptedString := Vault.toString_latin1 encryptedBuffer in
         on_core (modify (Vault.set_store
                            (insert Vault.KEYS_BACKEND_CONFIG
                               encryptedString))) ;;
         s ← get;
         emit (BackendConfigStored (Vault.storageBackend (core s))) ;;
         ret true
     | _ => throw (new_Error (js "Invalid backend configuration provided"))
     end)
    (fun error =>
       on_core (Vault.emit (Vault.ErrorEvent (js "config-store-failed") None
                              (message error))) ;;
       ret false).

End WithEnvironment.

(** A configuration as the settings window saves it. *)
Definition sample : list (jsstring * json) :=
  [(js "backend", JStr (js "ollama"));
   (js "autoHide", JBool true);
   (js "autoHideDelay", JNum (js "5000"));
   (js "position",
    JObj [(js "x", JNum (js "-12.5")); (js "y", JNull); (js "tags", JArr [])]);
   (js "models", JArr [JStr (js "gpt-oss:20b"); JObj []]);
   (js "note", JStr [9; 34; 92; 233; 55357; 56832; 56832; 1])].

Definition fresh : Service := mkService Vault.empty_vault [].

End Config.

(** ** The pending change of the adaptive monitor

    [debounceTimer] holds the handle of the last debounce timer that was
    set; a timer that has fired or was cleared stays named there. *)

(** At most one debounce timer is armed, and it is the one that
    [debounceTimer] names: at most one change is pending. *)
Definition single_timer {double : Type} (s : AdaptiveMonitor.Monitor double)
  : Prop :=
  match AdaptiveMonitor.timers s with
  | [] => True
  | [t] => AdaptiveMonitor.debounceTimer s = Some (fst t)
  | _ :: _ :: _ => False
  end.

(** A step that keeps [single_timer]. *)
Definition keeps_single_timer {double : Type}
  (s s' : AdaptiveMonitor.Monitor double) : Prop :=
  single_timer s -> single_timer s'.

(** A step that arms and clears no debounce timer. *)
Definition same_timers {double : Type}
  (s s' : AdaptiveMonitor.Monitor double) : Prop :=
  AdaptiveMonitor.timers s' = AdaptiveMonitor.timers s.

(** A monitor that was started on an empty clipboard at time 0, failed to
    read the clipboard at its poll at 60, so that [handlePollingError] set a
    retry timer for 1000 ms later, and was stopped at 100. *)
Definition stopped_monitor : AdaptiveMonitor.Monitor Z :=
  let s0 := AdaptiveMonitor.on_error (AdaptiveMonitor.new_Monitor id 0) in
  let s1 :=
    fst (AdaptiveMonitor.startMonitoring 1000%Z (Return []) 0 0 0 s0) in
  let s2 :=
    fst (AdaptiveMonitor.pollClipboard id id id Z.min Z.max
           (fun _ _ => false) (fun _ _ => 0%Z)
           (AdaptiveMonitor.mkReadings 60 60 60 60 60 60)
           (Throw (new_Error (js "clipboard unavailable"))) s1) in
  fst (AdaptiveMonitor.stopMonitoring (fun _ _ => 0%Z) 100 s2).

(** The poll that the retry timer runs at 1060, finding ["hello"]. *)
Definition late_poll : AdaptiveMonitor.Monitor Z :=
  fst (AdaptiveMonitor.pollClipboard id id id Z.min Z.max
         (fun _ _ => false) (fun _ _ => 0%Z)
         (AdaptiveMonitor.mkReadings 1060 1060 1060 1060 1060 1060)
         (Return (js "hello")) stopped_monitor).
(** * Verification *)

#[local] Arguments Vault.validateApiKeyFormat : simpl never.
#[local] Arguments trim : simpl never.

(** Unfold the plumbing of the effect monad. *)
Ltac run_effects :=
  unfold lift in *; unfold ret, throw, try_catch, get, modify in *;
  unfold mbind, M_bind, mret, M_ret in *.

(** Replace the scrutinee of a lookup in the store by its known value. *)
Ltac lookup_is H :=
  match goal with
  | |- context [match ?t with Some _ => _ | None => _ end] =>
      match type of H with
      | _ = ?v => replace t with v by (symmetry; exact H)
      end
  end.

(** ** Monotone effects *)

Section Advances.

Context {S : Type} (R : S -> S -> Prop) `{!Reflexive R} `{!Transitive R}.

Lemma advances_ret {A} (a : A) : advances R (ret a).
Proof. intros s. reflexivity. Qed.

Lemma advances_mret {A} (a : A) : advances R (mret a).
Proof. intros s. reflexivity. Qed.

Lemma advances_throw {A} (e : JsError) : advances R (throw (A:=A) e).
Proof. intros s. reflexivity. Qed.

Lemma advances_get : advances R get.
Proof. intros s. reflexivity. Qed.

Lemma advances_lift {A} (c : completion A) : advances R (lift c).
Proof. destruct c; intros s; reflexivity. Qed.

Lemma advances_bind {A B} (m : M S A) (k : A -> M S B) :
  advances R m -> (forall a, advances R (k a)) -> advances R (m ≫= k).
Proof.
  intros Hm Hk s. unfold mbind, M_bind.
  specialize (Hm s). destruct (m s) as [s' [a| |]]; simpl in *; auto.
  etransitivity; [eassumption | apply Hk].
Qed.

Lemma advances_try_catch {A} (m : M S A) (h : JsError -> M S A) :
  advances R m -> (forall e, advances R (h e)) -> advances R (try_catch m h).
Proof.
  intros Hm Hh s. unfold try_catch.
  specialize (Hm s). destruct (m s) as [s' [a|e|]]; simpl in *; auto.
  etransitivity; [eassumption | apply Hh].
Qed.

End Advances.

(** Walk through a method body, leaving the state updates and the emitted
    events as goals. *)
Ltac advance :=
  repeat first
    [ match goal with |- forall _, _ => intro end
    | progress cbv zeta
    | apply advances_bind; try apply _
    | apply advances_try_catch; try apply _
    | apply advances_ret; try apply _
    | apply advances_mret; try apply _
    | apply advances_throw; try apply _
    | apply advances_get; try apply _
    | apply advances_lift; try apply _
    | match goal with
      | |- advances _ (if ?c then _ else _) => destruct c
      | |- advances _ (match ?c with _ => _ end) => destruct c
      end ].

(** ** Strings and patterns *)

Lemma latin1_roundtrip (b : Vault.Buffer) :
  Vault.Buffer_from_latin1 (Vault.toString_latin1 b) = b.
Proof.
  unfold Vault.Buffer_from_latin1, Vault.toString_latin1.
  induction b as [|x b IH]; simpl; [reflexivity|].
  rewrite IH. f_equal.
  rewrite N.mod_small by (pose proof (Byte.to_N_bounded x); lia).
  now rewrite Byte.of_to_N.
Qed.

Lemma toString_latin1_nil (b : Vault.Buffer) :
  Vault.toString_latin1 b = [] -> b = [].
Proof. destruct b; [reflexivity | discriminate]. Qed.

Lemma matches_Void (s : jsstring) : matches Void s = false.
Proof. induction s; simpl; auto. Qed.

Lemma matches_Cat_Void (r : regex) (s : jsstring) :
  matches (Cat Void r) s = false.
Proof. induction s; simpl; auto. Qed.

Lemma matches_Alt (r1 r2 : regex) (s : jsstring) :
  matches (Alt r1 r2) s = matches r1 s || matches r2 s.
Proof. revert r1 r2; induction s; intros; simpl; auto. Qed.

Lemma matches_Cat_Eps (r : regex) (s : jsstring) :
  matches (Cat Eps r) s = matches r s.
Proof.
  destruct s; simpl; [reflexivity|].
  now rewrite matches_Alt, matches_Cat_Void.
Qed.

Lemma matches_Star_Class (p : N -> bool) (s : jsstring) :
  matches (Star (Class p)) s = forallb p s.
Proof.
  induction s as [|c s IH]; simpl; [reflexivity|].
  destruct (p c); simpl.
  - now rewrite matches_Cat_Eps.
  - apply matches_Cat_Void.
Qed.

Lemma matches_Plus_Class (p : N -> bool) (s : jsstring) :
  matches (Plus (Class p)) s = negb (is_empty s) && forallb p s.
Proof.
  destruct s as [|c s]; simpl; [reflexivity|].
  destruct (p c); simpl.
  - now rewrite matches_Cat_Eps, matches_Star_Class.
  - apply matches_Cat_Void.
Qed.

(** ** The vault *)

Lemma vault_format_valid (k : jsstring) :
  Vault.isValid (Vault.validateApiKeyFormat k) = true -> Vault.static_checks k.
Proof.
  unfold Vault.validateApiKeyFormat, Vault.static_checks.
  destruct k as [|c k]; [discriminate|].
  destruct (Nat.ltb_spec (length (trim (c :: k))) 20); [discriminate|].
  destruct (startsWith (trim (c :: k)) (js "AI")) eqn:Hp; [|discriminate].
  destruct (matches Vault.validPattern (trim (c :: k))) eqn:Hm; [|discriminate].
  intros _. repeat split; try assumption.
  unfold Vault.validPattern in Hm. rewrite matches_Plus_Class in Hm.
  now apply andb_true_iff in Hm.
Qed.

Lemma gemini_format_valid (k : jsstring) :
  Gemini.validateApiKeyFormat k = true -> (20 <= length (trim k))%nat.
Proof.
  unfold Gemini.validateApiKeyFormat.
  destruct k as [|c k]; [discriminate|].
  destruct (Nat.ltb_spec (length (trim (c :: k))) 20); [discriminate | auto].
Qed.

Lemma valid_nonempty (k : jsstring) :
  Vault.isValid (Vault.validateApiKeyFormat k) = true ->
  exists c k', k = c :: k' /\ (length (trim k) =? 0)%nat = false.
Proof.
  intros H. pose proof (vault_format_valid k H) as (Hl & _).
  destruct k as [|c k']; [discriminate|].
  exists c, k'. split; [reflexivity|].
  apply Nat.eqb_neq. lia.
Qed.

Lemma emit_inv ev s s' o :
  Vault.emit ev s = (s', o) ->
  Vault.requests s' = Vault.requests s /\ Vault.store s' = Vault.store s
  /\ Vault.errorListener s' = Vault.errorListener s.
Proof.
  unfold Vault.emit. destruct (_ && _); intros [= <- <-]; auto.
Qed.

Ltac emit_step :=
  match goal with
  | |- context [Vault.emit ?ev ?s] =>
      let s' := fresh "s" in
      let o := fresh "o" in
      let E := fresh "E" in
      destruct (Vault.emit ev s) as [s' o] eqn:E;
      apply emit_inv in E as (? & ? & ?); destruct o; simpl
  end.

Lemma emit_error_listened ev s :
  Vault.errorListener s = true ->
  Vault.emit ev s = (Vault.push_event ev s, Value tt).
Proof.
  intros H. unfold Vault.emit. rewrite H. now rewrite andb_false_r.
Qed.

Lemma store_without_test_requests safe net keyName k s :
  Vault.requests (fst (Vault.storeApiKey safe net keyName k false s))
  = Vault.requests s.
Proof.
  unfold Vault.storeApiKey. run_effects.
  destruct k as [|c k]; simpl.
  { now emit_step. }
  destruct (length (trim (c :: k)) =? 0)%nat; simpl.
  { now emit_step. }
  destruct (Vault.isValid _); simpl.
  2:{ now emit_step. }
  destruct (Vault.encryptString safe (c :: k)); simpl; [reflexivity|].
  now emit_step.
Qed.

Lemma store_with_test_requests safe net keyName k s :
  Vault.requests (fst (Vault.storeApiKey safe net keyName k true s))
  = if Vault.isValid (Vault.validateApiKeyFormat k)
    then Vault.requests s ++ [k] else Vault.requests s.
Proof.
  unfold Vault.storeApiKey, Vault.testApiKeyAgainstGemini. run_effects.
  destruct k as [|c k]; simpl.
  { now emit_step. }
  destruct (length (trim (c :: k)) =? 0)%nat eqn:Hlen; simpl.
  { destruct (Vault.isValid _) eqn:Hv.
    - apply valid_nonempty in Hv as (? & ? & _ & Hv). congruence.
    - now emit_step. }
  destruct (Vault.isValid _); simpl.
  2:{ now emit_step. }
  destruct (negb _); simpl.
  { now emit_step. }
  destruct (Vault.encryptString safe (c :: k)); simpl; [reflexivity|].
  now emit_step.
Qed.

Lemma storeApiKey_stores safe net keyName x s blob :
  Vault.isValid (Vault.validateApiKeyFormat x) = true ->
  Vault.encryptString safe x = Return blob ->
  exists s' r,
    Vault.storeApiKey safe net keyName x false s = (s', Value r)
    /\ Vault.success r = true
    /\ Vault.store s' = <[keyName := Vault.toString_latin1 blob]> (Vault.store s).
Proof.
  intros Hv He.
  destruct (valid_nonempty x Hv) as (c & k & -> & Hlen).
  unfold Vault.storeApiKey. run_effects. simpl.
  rewrite Hlen, Hv, He. simpl.
  eexists _, _. split; [reflexivity|]. simpl. auto.
Qed.

Lemma retrieveApiKey_decrypts safe keyName s blob x :
  Vault.store s !! keyName = Some (Vault.toString_latin1 blob) ->
  blob <> [] ->
  Vault.decryptString safe blob = Return x ->
  exists s', Vault.retrieveApiKey safe keyName s = (s', Value (Some x))
             /\ Vault.store s' = Vault.store s.
Proof.
  intros Hs Hne Hd.
  unfold Vault.retrieveApiKey. run_effects. cbv beta iota.
  lookup_is Hs.
  destruct (Vault.toString_latin1 blob) as [|u us] eqn:Hl.
  { apply toString_latin1_nil in Hl. contradiction. }
  rewrite <- Hl, latin1_roundtrip, Hd. simpl.
  eexists. split; reflexivity.
Qed.

(** C1.  A key that passes format validation and is stored without the live
    test is read back exactly, cycle after cycle and from any state of the
    vault, provided [safeStorage] encrypts it to a non-empty blob that it
    decrypts to the same string: the latin1 rendering of the blob on write
    is undone exactly on read. *)
Theorem store_retrieve_roundtrip
  (safe : Vault.SafeStorage) (net : jsstring -> Vault.FetchOutcome)
  (cycles : list (jsstring * jsstring)) (s : Vault.Service) :
  Forall (fun c => Vault.isValid (Vault.validateApiKeyFormat (snd c)) = true
                   /\ Vault.encrypts_faithfully safe (snd c)) cycles ->
  snd (Vault.store_retrieve_cycles safe net cycles s)
  = map (fun c => Value (Some (snd c))) cycles.
Proof.
  intros H. revert s.
  induction H as [|[keyName x] cycles [Hv (blob & He & Hne & Hd)] _ IH];
    intros s; simpl; [reflexivity|].
  destruct (storeApiKey_stores safe net keyName x s blob Hv He)
    as (s1 & r & -> & _ & Hs1).
  destruct (retrieveApiKey_decrypts safe keyName s1 blob x) as (s2 & -> & _);
    [rewrite Hs1; apply lookup_insert_eq | assumption | assumption |].
  specialize (IH s2).
  destruct (Vault.store_retrieve_cycles safe net cycles s2) as [s3 rs].
  simpl in *. now rewrite IH.
Qed.

Lemma store_retrieve_roundtrip_witness :
  let cycles := [(Vault.KEYS_GEMINI_API_KEY, Vault.key1);
                 (Vault.KEYS_GEMINI_API_KEY, Vault.key2);
                 (js "other", Vault.key1)] in
  Forall (fun c => Vault.isValid (Vault.validateApiKeyFormat (snd c)) = true
                   /\ Vault.encrypts_faithfully Vault.plain_safeStorage (snd c))
    cycles
  /\ snd (Vault.store_retrieve_cycles Vault.plain_safeStorage Vault.offline
            cycles Vault.empty_vault)
     = [Value (Some Vault.key1); Value (Some Vault.key2);
        Value (Some Vault.key1)].
Proof.
  intros cycles.
  assert (H : Forall (fun c =>
              Vault.isValid (Vault.validateApiKeyFormat (snd c)) = true
              /\ Vault.encrypts_faithfully Vault.plain_safeStorage (snd c))
              cycles).
  { repeat constructor; try (vm_compute; reflexivity);
      (eexists; split;
       [reflexivity | split; [discriminate | vm_compute; reflexivity]]). }
  split; [exact H|].
  exact (store_retrieve_roundtrip Vault.plain_safeStorage Vault.offline cycles
           Vault.empty_vault H).
Defined.

(** C2, as amended.  On a vault whose ['error'] event has a listener (the
    application attaches one as soon as it has built the vault), a blob that
    cannot be decrypted makes [retrieveApiKey] and [retrieveBackendConfig]
    return [null], exactly as an absent key does, and nothing is thrown.
    [retrieveApiKey] returns a string only when it is the complete
    decryption of the stored blob, and [retrieveBackendConfig] a value only
    when it is what [JSON.parse] makes of the complete decryption. *)
Theorem decryption_failure_reads_as_absent
  (safe : Vault.SafeStorage) (s : Vault.Service) :
  Vault.errorListener s = true ->
  (forall keyName, Vault.decryption_fails safe s keyName ->
     snd (Vault.retrieveApiKey safe keyName s) = Value None)
  /\ (Vault.decryption_fails safe s Vault.KEYS_BACKEND_CONFIG ->
      snd (Vault.retrieveBackendConfig safe s) = Value None)
  /\ (forall keyName, Vault.store s !! keyName = None ->
        snd (Vault.retrieveApiKey safe keyName s) = Value None)
  /\ (Vault.store s !! Vault.KEYS_BACKEND_CONFIG = None ->
      snd (Vault.retrieveBackendConfig safe s) = Value None)
  /\ (forall keyName x,
        snd (Vault.retrieveApiKey safe keyName s) = Value (Some x) ->
        exists blob,
          Vault.store s !! keyName = Some blob
          /\ Vault.decryptString safe (Vault.Buffer_from_latin1 blob)
             = Return x)
  /\ (forall config,
        snd (Vault.retrieveBackendConfig safe s) = Value (Some config) ->
        exists blob text,
          Vault.store s !! Vault.KEYS_BACKEND_CONFIG = Some blob
          /\ Vault.decryptString safe (Vault.Buffer_from_latin1 blob)
             = Return text
          /\ JSON_parse text = Return config).
Proof.
  intros HL. repeat apply conj.
  - intros keyName (blob & e & Hs & Hd).
    unfold Vault.retrieveApiKey. run_effects. cbv beta iota.
    lookup_is Hs. destruct blob as [|u us]; [reflexivity|].
    rewrite Hd. cbv beta iota. now rewrite emit_error_listened.
  - intros (blob & e & Hs & Hd).
    unfold Vault.retrieveBackendConfig. run_effects. cbv beta iota.
    lookup_is Hs. destruct blob as [|u us]; [reflexivity|].
    rewrite Hd. cbv beta iota. now rewrite emit_error_listened.
  - intros keyName Hs.
    unfold Vault.retrieveApiKey. run_effects. cbv beta iota.
    now lookup_is Hs.
  - intros Hs.
    unfold Vault.retrieveBackendConfig. run_effects. cbv beta iota.
    now lookup_is Hs.
  - intros keyName x.
    unfold Vault.retrieveApiKey. run_effects. cbv beta iota.
    destruct (Vault.store s !! keyName) as [[|u us]|] eqn:Hs;
      try discriminate.
    destruct (Vault.decryptString safe _) as [y|e] eqn:Hd; cbv beta iota.
    + simpl. intros [= ->]. eauto.
    + rewrite emit_error_listened by assumption. discriminate.
  - intros config.
    unfold Vault.retrieveBackendConfig. run_effects. cbv beta iota.
    destruct (Vault.store s !! Vault.KEYS_BACKEND_CONFIG) as [[|u us]|]
      eqn:Hs; try discriminate.
    destruct (Vault.decryptString safe _) as [text|e] eqn:Hd; cbv beta iota.
    + destruct (JSON_parse text) as [parsed|e] eqn:Hp; cbv beta iota.
      * simpl. intros [= ->]. eauto.
      * rewrite emit_error_listened by assumption. discriminate.
    + rewrite emit_error_listened by assumption. discriminate.
Qed.

Lemma decryption_failure_reads_as_absent_witness :
  Vault.errorListener Vault.corrupted_vault = true
  /\ Vault.decryption_fails Vault.plain_safeStorage Vault.corrupted_vault
       Vault.KEYS_GEMINI_API_KEY
  /\ Vault.decryption_fails Vault.plain_safeStorage Vault.corrupted_vault
       Vault.KEYS_BACKEND_CONFIG
  /\ snd (Vault.retrieveApiKey Vault.plain_safeStorage
            Vault.KEYS_GEMINI_API_KEY Vault.corrupted_vault) = Value None
  /\ snd (Vault.retrieveBackendConfig Vault.plain_safeStorage
            Vault.corrupted_vault)
     = Value None.
Proof.
  assert (HL : Vault.errorListener Vault.corrupted_vault = true)
    by reflexivity.
  assert (H1 : Vault.decryption_fails Vault.plain_safeStorage
                 Vault.corrupted_vault Vault.KEYS_GEMINI_API_KEY).
  { do 2 eexists. split; vm_compute; reflexivity. }
  assert (H2 : Vault.decryption_fails Vault.plain_safeStorage
                 Vault.corrupted_vault Vault.KEYS_BACKEND_CONFIG).
  { do 2 eexists. split; vm_compute; reflexivity. }
  destruct (decryption_failure_reads_as_absent Vault.plain_safeStorage
              Vault.corrupted_vault HL) as (Hkey & Hconfig & _).
  repeat split; auto.
Defined.

(** C2 as stated fails on a vault without a listener for ['error']: the
    blobs cannot be decrypted, [emit] throws inside the [catch] block, and
    both functions throw instead of returning [null]. *)
Lemma decryption_failure_thrown_without_listener :
  Vault.decryption_fails Vault.plain_safeStorage Vault.corrupted_unheard_vault
    Vault.KEYS_GEMINI_API_KEY
  /\ Vault.decryption_fails Vault.plain_safeStorage
       Vault.corrupted_unheard_vault Vault.KEYS_BACKEND_CONFIG
  /\ snd (Vault.retrieveApiKey Vault.plain_safeStorage
            Vault.KEYS_GEMINI_API_KEY Vault.corrupted_unheard_vault)
     = Raise ERR_UNHANDLED_ERROR
  /\ snd (Vault.retrieveBackendConfig Vault.plain_safeStorage
            Vault.corrupted_unheard_vault)
     = Raise ERR_UNHANDLED_ERROR.
Proof.
  repeat apply conj; try (vm_compute; reflexivity);
    do 2 eexists; split; vm_compute; reflexivity.
Qed.

(** C10, as amended.  The vault accepts a key only if its trimmed length is
    at least 20, it starts with ["AI"] and it is made of letters, digits,
    [_] and [-]; the Gemini client accepts a key only if its trimmed length
    is at least 20.  Neither check touches the network: storing without the
    live test sends nothing, and with it exactly one request is sent, and
    only for a key that has already passed the format check. *)
Theorem format_validation_is_static :
  (forall k, Vault.isValid (Vault.validateApiKeyFormat k) = true ->
             Vault.static_checks k)
  /\ (forall k, Gemini.validateApiKeyFormat k = true ->
                (20 <= length (trim k))%nat)
  /\ (forall safe net keyName k s,
        Vault.requests (fst (Vault.storeApiKey safe net keyName k false s))
        = Vault.requests s)
  /\ (forall safe net keyName k s,
        Vault.requests (fst (Vault.storeApiKey safe net keyName k true s))
        = if Vault.isValid (Vault.validateApiKeyFormat k)
          then Vault.requests s ++ [k] else Vault.requests s).
Proof.
  split; [|split; [|split]].
  - apply vault_format_valid.
  - apply gemini_format_valid.
  - intros. apply store_without_test_requests.
  - intros. apply store_with_test_requests.
Qed.

(** C10 as stated fails for the Gemini client, which applies no character
    whitelist: it accepts a key of twenty characters that starts with
    ["AI"] and continues with exclamation marks. *)
Lemma gemini_client_skips_whitelist :
  Gemini.validateApiKeyFormat (js "AI!!!!!!!!!!!!!!!!!!") = true
  /\ ~ Vault.static_checks (js "AI!!!!!!!!!!!!!!!!!!").
Proof.
  split; [vm_compute; reflexivity|].
  intros (_ & _ & H). vm_compute in H. discriminate.
Qed.

(** ** Clipboard heuristics *)

Lemma isSignificantChange_true (newValue oldValue : jsstring) :
  isSignificantChange newValue oldValue = true.
Proof.
  unfold isSignificantChange.
  destruct (is_empty oldValue || is_empty (trim oldValue)); [reflexivity|].
  destruct (_ <? _)%Z; [reflexivity|].
  destruct (negb _); reflexivity.
Qed.

(** ** The monitor *)

#[local] Instance grows_by_refl P : Reflexive (Monitor.grows_by P).
Proof. intros s. exists []. split; [now rewrite app_nil_r | constructor]. Qed.

#[local] Instance grows_by_trans P : Transitive (Monitor.grows_by P).
Proof.
  intros s1 s2 s3 (e1 & H1 & F1) (e2 & H2 & F2).
  exists (e1 ++ e2). split.
  - now rewrite H2, H1, app_assoc.
  - now apply Forall_app.
Qed.

Lemma monitor_emit_grows P ev :
  P ev -> advances (Monitor.grows_by P) (Monitor.emit ev).
Proof.
  intros HP s. unfold Monitor.emit.
  destruct (_ && _); simpl; [reflexivity|].
  exists [ev]. split; [reflexivity | now repeat constructor].
Qed.

Lemma monitor_silent P (f : Monitor.Monitor -> Monitor.Monitor) :
  (forall s, Monitor.emitted (f s) = Monitor.emitted s) ->
  advances (Monitor.grows_by P) (modify f).
Proof.
  intros H s. exists []. simpl.
  split; [now rewrite app_nil_r, H | constructor].
Qed.

Ltac monitor_step :=
  advance;
  try (apply monitor_silent; intros; reflexivity);
  try (apply monitor_emit_grows; simpl; auto using isSignificantChange_true).

Lemma monitor_pollClipboard_grows now readText now_change now_optimize :
  advances (Monitor.grows_by Monitor.significant_event)
    (Monitor.pollClipboard now readText now_change now_optimize).
Proof. unfold Monitor.pollClipboard. monitor_step. Qed.



(** ** The adaptive monitor *)

Module AM := AdaptiveMonitor.

Section AdaptiveProofs.

Context {double : Type}.
Variable of_Z : Z -> double.
Variables times_1_5 times_0_8 times_0_7 : double -> double.
Variables fmin fmax : double -> double -> double.
Variable differs_by_more_than_100 : double -> double -> bool.
Variable fdiv : Z -> nat -> double.

Let poll :=
  AM.pollClipboard times_1_5 times_0_8 times_0_7 fmin fmax
    differs_by_more_than_100 fdiv.

#[local] Instance a_grows_by_refl (P : AM.Event double -> Prop) :
  Reflexive (AM.grows_by P).
Proof. intros s. exists []. split; [now rewrite app_nil_r | constructor]. Qed.

#[local] Instance a_grows_by_trans (P : AM.Event double -> Prop) :
  Transitive (AM.grows_by P).
Proof.
  intros s1 s2 s3 (e1 & H1 & F1) (e2 & H2 & F2).
  exists (e1 ++ e2). split.
  - now rewrite H2, H1, app_assoc.
  - now apply Forall_app.
Qed.

Lemma adaptive_emit_grows (P : AM.Event double -> Prop) ev :
  P ev -> advances (AM.grows_by P) (AM.emit ev).
Proof.
  intros HP s. unfold AM.emit.
  destruct (_ && _); simpl; [reflexivity|].
  exists [ev]. split; [reflexivity | now repeat constructor].
Qed.

Lemma adaptive_silent (P : AM.Event double -> Prop)
  (f : AM.Monitor double -> AM.Monitor double) :
  (forall s, AM.emitted (f s) = AM.emitted s) ->
  advances (AM.grows_by P) (modify f).
Proof.
  intros H s. exists []. simpl.
  split; [now rewrite app_nil_r, H | constructor].
Qed.

Ltac adaptive_step :=
  advance;
  try (apply adaptive_silent; intros; reflexivity);
  try (apply adaptive_emit_grows; simpl; auto using isSignificantChange_true).

Lemma adaptive_fire_timer_grows id at_time :
  advances (AM.grows_by AM.significant_event)
    (AM.fire_timer (double := double) id at_time).
Proof.
  unfold AM.fire_timer, AM.debounce_callback, AM.clearTimeout. adaptive_step.
Qed.

Lemma adaptive_pollClipboard_grows t readText :
  advances (AM.grows_by AM.significant_event) (poll t readText).
Proof. unfold poll, AM.pollClipboard. adaptive_step. Qed.

Lemma adaptive_poll_paused (s : AM.Monitor double) t readText :
  AM.isPaused s = true -> poll t readText s = (s, Value tt).
Proof.
  intros H. unfold poll, AM.pollClipboard. run_effects. now rewrite H.
Qed.






Lemma paused_monitor_is_paused :
  let s := AM.paused_monitor of_Z times_1_5 times_0_8 times_0_7 fmin fmax
             differs_by_more_than_100 fdiv in
  AM.isPaused s = true
  /\ AM.lastActivityTime s = 1000%Z
  /\ In (AM.MonitoringPaused 32000 31000) (AM.emitted s).
Proof.
  unfold AM.paused_monitor. cbv.
  destruct (differs_by_more_than_100 _ _); cbn; intuition.
Qed.

End AdaptiveProofs.

(** C8.  [isSignificantChange] returns [true] on every pair of strings
    (whichever of its tests fires, and when none does), so every
    [clipboard-changed] event that a poll or the debounce timer appends to
    the log carries [isSignificant = true], in both variants of the
    monitor. *)
Theorem every_change_is_significant :
  (forall newValue oldValue, isSignificantChange newValue oldValue = true)
  /\ (forall now readText now_change now_optimize s,
        exists evs,
          Monitor.emitted
            (fst (Monitor.pollClipboard now readText now_change now_optimize s))
          = Monitor.emitted s ++ evs
          /\ Forall Monitor.significant_event evs)
  /\ (forall double times_1_5 times_0_8 times_0_7 fmin fmax differs fdiv
             t readText (s : AM.Monitor double),
        exists evs,
          AM.emitted
            (fst (AM.pollClipboard times_1_5 times_0_8 times_0_7 fmin fmax
                    differs fdiv t readText s))
          = AM.emitted s ++ evs
          /\ Forall AM.significant_event evs)
  /\ (forall double id at_time (s : AM.Monitor double),
        exists evs,
          AM.emitted (fst (AM.fire_timer id at_time s)) = AM.emitted s ++ evs
          /\ Forall AM.significant_event evs).
Proof.
  split; [|split; [|split]].
  - apply isSignificantChange_true.
  - intros. apply monitor_pollClipboard_grows.
  - intros. apply adaptive_pollClipboard_grows.
  - intros. apply adaptive_fire_timer_grows.
Qed.



(** C9, at a paused monitor.  The adaptive monitor started at time 0 whose
    poll at 1000 stalled until 32000 has been paused by [optimizePolling]
    (more than 30 s since the last activity, recorded at 1000).  From then on
    every poll, whatever the clock reads and whatever the clipboard holds,
    returns at the test of the paused flag and leaves the monitor as it is:
    the flag is never cleared and [monitoring-resumed] is never emitted, not
    even by a poll that reads the clock less than 5 s after the last
    activity. *)
Theorem paused_monitor_never_resumes :
  forall double of_Z times_1_5 times_0_8 times_0_7 fmin fmax differs fdiv,
    let s : AM.Monitor double :=
      AM.paused_monitor of_Z times_1_5 times_0_8 times_0_7 fmin fmax differs
        fdiv in
    AM.isPaused s = true
    /\ AM.lastActivityTime s = 1000%Z
    /\ In (AM.MonitoringPaused 32000 31000) (AM.emitted s)
    /\ (forall t readText,
          AM.pollClipboard times_1_5 times_0_8 times_0_7 fmin fmax differs
            fdiv t readText s = (s, Value tt))
    /\ AM.pollClipboard times_1_5 times_0_8 times_0_7 fmin fmax differs fdiv
         (AM.mkReadings 2000 2000 2000 2000 2000 2000)
         (Return (js "new text")) s = (s, Value tt).
Proof.
  intros double of_Z t15 t08 t07 fmin fmax differs fdiv s.
  destruct (paused_monitor_is_paused of_Z t15 t08 t07 fmin fmax differs fdiv)
    as (Hp & Ha & Hev).
  fold s in Hp, Ha, Hev.
  repeat split; try assumption.
  - intros. now apply adaptive_poll_paused.
  - now apply adaptive_poll_paused.
Qed.

(** ** Backend clients *)

#[local] Arguments js : simpl never.
#[local] Arguments includes : simpl never.
#[local] Arguments startsWith : simpl never.
#[local] Arguments str_eqb : simpl never.
#[local] Arguments num_to_string : simpl never.

Section OllamaRetry.

Variable Body : Type.
Variable network : nat -> completion (HttpResponse Body).
Variables streaming plain : Body -> M Ollama.Service GenerationResult.
Variable model : jsstring.
Variable stream : bool.

Let loop := Ollama.request_loop Body network streaming plain.

Lemma ollama_emit_listened ev s :
  Ollama.errorListener s = true ->
  Ollama.emit ev s = (Ollama.push_event ev s, Value tt).
Proof.
  intros H. unfold Ollama.emit. rewrite H. now rewrite andb_false_r.
Qed.


Lemma ollama_step_retry fuel maxR rc s e :
  Ollama.errorListener s = true ->
  (rc < maxR)%nat ->
  attempt_error (network (Ollama.requests s)) = Some e ->
  Ollama.permanent e = false ->
  exists s1,
    loop (S fuel) model stream maxR rc s = loop fuel model stream maxR (S rc) s1
    /\ Ollama.after_failure s s1
    /\ Ollama.sleeps s1
       = Ollama.sleeps s ++ [(Ollama.retryDelay s * 2 ^ Z.of_nat rc)%Z].
Proof.
  intros HL Hrc He Hp. unfold loop. simpl.
  replace (rc <=? maxR)%nat with true by (symmetry; apply Nat.leb_le; lia).
  unfold Ollama.fetch_generate, Ollama.sleep. run_effects. simpl.
  unfold attempt_error, http_error in He. unfold Ollama.permanent, is_timeout in Hp.
  replace (maxR <? S rc)%nat with false by (symmetry; apply Nat.ltb_ge; lia).
  replace (rc - 0)%nat with rc by lia.
  destruct (network (Ollama.requests s)) as [resp|e']; simpl in *.
  - destruct (ok resp); simpl in *; [discriminate|]. simplify_eq.
    simpl in *.
    destruct (includes _ (js "HTTP 404")) eqn:H404; [discriminate|].
    destruct (includes _ (js "HTTP 500")) eqn:H500;
      rewrite ollama_emit_listened by assumption; simpl;
      (eexists; split; [reflexivity|]); repeat split.
  - simplify_eq.
    destruct (str_eqb (name e) (js "AbortError")) eqn:Hn; simpl in *.
    + rewrite ollama_emit_listened by assumption; simpl.
      (eexists; split; [reflexivity|]); repeat split.
    + rewrite Hp.
      destruct (includes _ (js "HTTP 500")) eqn:H500;
        rewrite ollama_emit_listened by assumption; simpl;
        (eexists; split; [reflexivity|]); repeat split.
Qed.

Lemma ollama_step_give_up fuel maxR s e :
  Ollama.errorListener s = true ->
  attempt_error (network (Ollama.requests s)) = Some e ->
  Ollama.permanent e = false ->
  exists s1,
    loop (S fuel) model stream maxR maxR s
    = (s1, Raise (new_Error (js "Failed after "
                             ++ num_to_string (N.of_nat maxR)
                             ++ js " retries: " ++ message e)))
    /\ Ollama.after_failure s s1
    /\ Ollama.sleeps s1 = Ollama.sleeps s.
Proof.
  intros HL He Hp. unfold loop. simpl.
  rewrite Nat.leb_refl.
  unfold Ollama.fetch_generate, Ollama.sleep. run_effects. simpl.
  unfold attempt_error, http_error in He. unfold Ollama.permanent, is_timeout in Hp.
  replace (maxR <? S maxR)%nat with true by (symmetry; apply Nat.ltb_lt; lia).
  destruct (network (Ollama.requests s)) as [resp|e']; simpl in *.
  - destruct (ok resp); simpl in *; [discriminate|]. simplify_eq.
    simpl in *.
    destruct (includes _ (js "HTTP 404")) eqn:H404; [discriminate|].
    destruct (includes _ (js "HTTP 500")) eqn:H500;
      rewrite ollama_emit_listened by assumption; simpl;
      (eexists; split; [reflexivity|]); repeat split.
  - simplify_eq.
    destruct (str_eqb (name e) (js "AbortError")) eqn:Hn; simpl in *.
    + rewrite ollama_emit_listened by assumption; simpl.
      (eexists; split; [reflexivity|]); repeat split.
    + rewrite Hp.
      destruct (includes _ (js "HTTP 500")) eqn:H500;
        rewrite ollama_emit_listened by assumption; simpl;
        (eexists; split; [reflexivity|]); repeat split.
Qed.


(** Every request from the current one on fails with an error that is not
    permanent: the loop issues all the requests the cap allows, waits the
    doubling delays between them, and throws. *)
Lemma ollama_loop_exhausts maxR :
  forall remaining fuel rc s,
    (rc + remaining = maxR)%nat ->
    (remaining < fuel)%nat ->
    Ollama.errorListener s = true ->
    fails_transiently network Ollama.permanent (Ollama.requests s) (S remaining) ->
    exists s1 msg,
      loop fuel model stream maxR rc s
      = (s1, Raise (new_Error (js "Failed after "
                               ++ num_to_string (N.of_nat maxR)
                               ++ js " retries: " ++ msg)))
      /\ Ollama.requests s1 = (Ollama.requests s + S remaining)%nat
      /\ Ollama.sleeps s1
         = Ollama.sleeps s ++ backoff_delays (Ollama.retryDelay s) rc remaining.
Proof.
  induction remaining as [|remaining IH]; intros fuel rc s Hsum Hfuel HL Hnet.
  - destruct fuel as [|fuel]; [lia|].
    destruct (Hnet 0%nat) as (e & He & Hp); [lia|].
    rewrite Nat.add_0_r in He, Hsum. subst rc.
    destruct (ollama_step_give_up fuel maxR s e HL He Hp)
      as (s1 & -> & (Hreq & _) & Hsl).
    exists s1, (message e). split; [reflexivity|]. split; [lia|].
    unfold backoff_delays. simpl. now rewrite app_nil_r.
  - destruct fuel as [|fuel]; [lia|].
    destruct (Hnet 0%nat) as (e & He & Hp); [lia|].
    rewrite Nat.add_0_r in He.
    destruct (ollama_step_retry fuel maxR rc s e HL) as
      (s1 & -> & (Hreq & HL1 & Hd & _) & Hsl); [lia | assumption | assumption |].
    destruct (IH fuel (S rc) s1) as (s2 & msg & -> & Hreq2 & Hsl2);
      [lia | lia | congruence | |].
    { intros k Hk. rewrite Hreq.
      replace (S (Ollama.requests s) + k)%nat
        with (Ollama.requests s + S k)%nat by lia.
      apply Hnet. lia. }
    exists s2, msg. split; [reflexivity|]. split; [lia|].
    rewrite Hsl2, Hsl, Hd. unfold backoff_delays. simpl.
    now rewrite <- app_assoc.
Qed.


End OllamaRetry.

Section OllamaGenerate.

Variable Body : Type.
Variable network : nat -> completion (HttpResponse Body).
Variables streaming plain : Body -> M Ollama.Service GenerationResult.

Lemma ollama_generate_enters prompt model stream s :
  Ollama.isConnected s = true ->
  is_empty prompt || (length (trim prompt) =? 0)%nat = false ->
  Ollama.generateResponse Body network streaming plain prompt model stream s
  = Ollama.request_loop Body network streaming plain
      (S (Ollama.maxRetries s)) model stream (Ollama.maxRetries s) 0
      (Ollama.push_event
         (Ollama.GenerationStarted model (prompt_preview prompt)) s).
Proof.
  intros Hc Hp. unfold Ollama.generateResponse. run_effects.
  rewrite Hc, Hp. reflexivity.
Qed.

End OllamaGenerate.

Section GeminiRetry.

Variable Number_toString : jsstring -> jsstring.
Variable JsonBody : Type.
Variable network :
  nat -> completion (HttpResponse (Gemini.StreamBody * JsonBody)).
Variable plain : JsonBody -> M Gemini.Service GenerationResult.
Variable stream : bool.

Let loop := Gemini.request_loop Number_toString JsonBody network plain.

Lemma gemini_emit_listened ev s :
  Gemini.errorListener s = true ->
  Gemini.emit ev s = (Gemini.push_event ev s, Value tt).
Proof.
  intros H. unfold Gemini.emit. rewrite H. now rewrite andb_false_r.
Qed.

Ltac gemini_done :=
  rewrite gemini_emit_listened by assumption; simpl;
  (eexists; split; [reflexivity|]); repeat split.

Lemma gemini_step_retry fuel maxR rc s e :
  Gemini.errorListener s = true ->
  (rc < maxR)%nat ->
  attempt_error (network (Gemini.requests s)) = Some e ->
  Gemini.permanent e = false ->
  exists s1,
    loop (S fuel) stream maxR rc s = loop fuel stream maxR (S rc) s1
    /\ Gemini.after_failure s s1
    /\ Gemini.sleeps s1
       = Gemini.sleeps s ++ [(Gemini.retryDelay s * 2 ^ Z.of_nat rc)%Z].
Proof.
  intros HL Hrc He Hp. unfold loop. simpl.
  replace (rc <=? maxR)%nat with true by (symmetry; apply Nat.leb_le; lia).
  unfold Gemini.fetch_generate, Gemini.sleep. run_effects. simpl.
  unfold attempt_error, http_error in He. unfold Gemini.permanent, Gemini.markers, is_timeout in Hp.
  replace (maxR <? S rc)%nat with false by (symmetry; apply Nat.ltb_ge; lia).
  replace (rc - 0)%nat with rc by lia.
  destruct (network (Gemini.requests s)) as [resp|e']; simpl in *.
  - destruct (ok resp); simpl in *; [discriminate|]. simplify_eq.
    simpl in *.
    change (str_eqb (js "Error") (js "AbortError")) with false in *.
    simpl in *.
    destruct (includes _ (js "HTTP 401")) eqn:H401; [simpl in *; discriminate|].
    destruct (includes _ (js "HTTP 429")) eqn:H429; [gemini_done|].
    destruct (includes _ (js "HTTP 400")) eqn:H400; [simpl in *; discriminate|].
    gemini_done.
  - simplify_eq.
    destruct (str_eqb (name e) (js "AbortError")) eqn:Hn; simpl in *;
      [gemini_done|].
    destruct (includes _ (js "HTTP 401")) eqn:H401; [simpl in *; discriminate|].
    destruct (includes _ (js "HTTP 429")) eqn:H429; [gemini_done|].
    destruct (includes _ (js "HTTP 400")) eqn:H400; [simpl in *; discriminate|].
    gemini_done.
Qed.

Lemma gemini_step_give_up fuel maxR s e :
  Gemini.errorListener s = true ->
  attempt_error (network (Gemini.requests s)) = Some e ->
  Gemini.permanent e = false ->
  exists s1,
    loop (S fuel) stream maxR maxR s
    = (s1, Raise (new_Error (js "Failed after "
                             ++ num_to_string (N.of_nat maxR)
                             ++ js " retries: " ++ message e)))
    /\ Gemini.after_failure s s1
    /\ Gemini.sleeps s1 = Gemini.sleeps s.
Proof.
  intros HL He Hp. unfold loop. simpl.
  rewrite Nat.leb_refl.
  unfold Gemini.fetch_generate, Gemini.sleep. run_effects. simpl.
  unfold attempt_error, http_error in He. unfold Gemini.permanent, Gemini.markers, is_timeout in Hp.
  replace (maxR <? S maxR)%nat with true by (symmetry; apply Nat.ltb_lt; lia).
  destruct (network (Gemini.requests s)) as [resp|e']; simpl in *.
  - destruct (ok resp); simpl in *; [discriminate|]. simplify_eq.
    simpl in *.
    change (str_eqb (js "Error") (js "AbortError")) with false in *.
    simpl in *.
    destruct (includes _ (js "HTTP 401")) eqn:H401; [simpl in *; discriminate|].
    destruct (includes _ (js "HTTP 429")) eqn:H429; [gemini_done|].
    destruct (includes _ (js "HTTP 400")) eqn:H400; [simpl in *; discriminate|].
    gemini_done.
  - simplify_eq.
    destruct (str_eqb (name e) (js "AbortError")) eqn:Hn; simpl in *;
      [gemini_done|].
    destruct (includes _ (js "HTTP 401")) eqn:H401; [simpl in *; discriminate|].
    destruct (includes _ (js "HTTP 429")) eqn:H429; [gemini_done|].
    destruct (includes _ (js "HTTP 400")) eqn:H400; [simpl in *; discriminate|].
    gemini_done.
Qed.


(** Every request from the current one on fails with an error that is not
    permanent: the loop issues all the requests the cap allows, waits the
    doubling delays between them, and throws. *)
Lemma gemini_loop_exhausts maxR :
  forall remaining fuel rc s,
    (rc + remaining = maxR)%nat ->
    (remaining < fuel)%nat ->
    Gemini.errorListener s = true ->
    fails_transiently network Gemini.permanent (Gemini.requests s) (S remaining) ->
    exists s1 msg,
      loop fuel stream maxR rc s
      = (s1, Raise (new_Error (js "Failed after "
                               ++ num_to_string (N.of_nat maxR)
                               ++ js " retries: " ++ msg)))
      /\ Gemini.requests s1 = (Gemini.requests s + S remaining)%nat
      /\ Gemini.sleeps s1
         = Gemini.sleeps s ++ backoff_delays (Gemini.retryDelay s) rc remaining.
Proof.
  induction remaining as [|remaining IH]; intros fuel rc s Hsum Hfuel HL Hnet.
  - destruct fuel as [|fuel]; [lia|].
    destruct (Hnet 0%nat) as (e & He & Hp); [lia|].
    rewrite Nat.add_0_r in He, Hsum. subst rc.
    destruct (gemini_step_give_up fuel maxR s e HL He Hp)
      as (s1 & -> & (Hreq & _) & Hsl).
    exists s1, (message e). split; [reflexivity|]. split; [lia|].
    unfold backoff_delays. simpl. now rewrite app_nil_r.
  - destruct fuel as [|fuel]; [lia|].
    destruct (Hnet 0%nat) as (e & He & Hp); [lia|].
    rewrite Nat.add_0_r in He.
    destruct (gemini_step_retry fuel maxR rc s e HL) as
      (s1 & -> & (Hreq & HL1 & Hd & _) & Hsl); [lia | assumption | assumption |].
    destruct (IH fuel (S rc) s1) as (s2 & msg & -> & Hreq2 & Hsl2);
      [lia | lia | congruence | |].
    { intros k Hk. rewrite Hreq.
      replace (S (Gemini.requests s) + k)%nat
        with (Gemini.requests s + S k)%nat by lia.
      apply Hnet. lia. }
    exists s2, msg. split; [reflexivity|]. split; [lia|].
    rewrite Hsl2, Hsl, Hd. unfold backoff_delays. simpl.
    now rewrite <- app_assoc.
Qed.


End GeminiRetry.

Section GeminiGenerate.

Variable Number_toString : jsstring -> jsstring.
Variable JsonBody : Type.
Variable network :
  nat -> completion (HttpResponse (Gemini.StreamBody * JsonBody)).
Variable plain : JsonBody -> M Gemini.Service GenerationResult.

Lemma gemini_generate_enters prompt stream s :
  Gemini.isConnected s = true ->
  is_empty prompt || (length (trim prompt) =? 0)%nat = false ->
  Gemini.generateResponse Number_toString JsonBody network plain prompt
    stream s
  = Gemini.request_loop Number_toString JsonBody network plain
      (S (Gemini.maxRetries s)) stream (Gemini.maxRetries s) 0
      (Gemini.push_event
         (Gemini.GenerationStarted (Gemini.currentModel s)
            (prompt_preview prompt)) s).
Proof.
  intros Hc Hp. unfold Gemini.generateResponse. run_effects.
  rewrite Hc, Hp. reflexivity.
Qed.

End GeminiGenerate.


(** ** Which errors are permanent *)

Lemma timeout_not_permanent e :
  is_timeout e = true ->
  Ollama.permanent e = false /\ Gemini.permanent e = false.
Proof.
  intros H. unfold Ollama.permanent, Gemini.permanent. now rewrite H.
Qed.








(** C4, as amended.  On a connected client with a listener for ['error'],
    a request with a prompt that is not blank whose every attempt times out
    makes exactly
    [maxRetries + 1] attempts and then throws ["Failed after ... retries"],
    in the Ollama client and in the Gemini client alike. *)
Theorem retry_cap_on_timeouts
  (Body : Type) (net_o : nat -> completion (HttpResponse Body))
  (streaming plain_o : Body -> M Ollama.Service GenerationResult)
  (Number_toString : jsstring -> jsstring) (JsonBody : Type)
  (net_g : nat -> completion (HttpResponse (Gemini.StreamBody * JsonBody)))
  (plain_g : JsonBody -> M Gemini.Service GenerationResult)
  (prompt model : jsstring) (stream : bool)
  (so : Ollama.Service) (sg : Gemini.Service) :
  Ollama.errorListener so = true -> Ollama.isConnected so = true ->
  Gemini.errorListener sg = true -> Gemini.isConnected sg = true ->
  prompt_ok prompt ->
  (forall n, exists e, net_o n = Throw e /\ is_timeout e = true) ->
  (forall n, exists e, net_g n = Throw e /\ is_timeout e = true) ->
  (exists s1 msg,
     Ollama.generateResponse Body net_o streaming plain_o prompt model stream so
     = (s1, Raise (new_Error (js "Failed after "
                              ++ num_to_string (N.of_nat (Ollama.maxRetries so))
                              ++ js " retries: " ++ msg)))
     /\ Ollama.requests s1 = (Ollama.requests so + (Ollama.maxRetries so + 1))%nat)
  /\ (exists s1 msg,
        Gemini.generateResponse Number_toString JsonBody net_g plain_g prompt
          stream sg
        = (s1, Raise (new_Error (js "Failed after "
                                 ++ num_to_string (N.of_nat (Gemini.maxRetries sg))
                                 ++ js " retries: " ++ msg)))
        /\ Gemini.requests s1
           = (Gemini.requests sg + (Gemini.maxRetries sg + 1))%nat).
Proof.
  intros HLo HCo HLg HCg Hprompt Hno Hng. split.
  - rewrite ollama_generate_enters by assumption.
    destruct (ollama_loop_exhausts Body net_o streaming plain_o model stream
                (Ollama.maxRetries so) (Ollama.maxRetries so)
                (S (Ollama.maxRetries so)) 0%nat
                (Ollama.push_event
                   (Ollama.GenerationStarted model (prompt_preview prompt)) so))
      as (s1 & msg & Hrun & Hreq & _); [reflexivity | lia | assumption | |].
    { intros k _. destruct (Hno (Ollama.requests so + k)%nat) as (e & He & Ht).
      exists e. simpl. rewrite He. split; [reflexivity|].
      now apply timeout_not_permanent. }
    exists s1, msg. split; [exact Hrun|]. simpl in Hreq. lia.
  - rewrite gemini_generate_enters by assumption.
    destruct (gemini_loop_exhausts Number_toString JsonBody net_g plain_g stream
                (Gemini.maxRetries sg) (Gemini.maxRetries sg)
                (S (Gemini.maxRetries sg)) 0%nat
                (Gemini.push_event
                   (Gemini.GenerationStarted (Gemini.currentModel sg)
                      (prompt_preview prompt)) sg))
      as (s1 & msg & Hrun & Hreq & _); [reflexivity | lia | assumption | |].
    { intros k _. destruct (Hng (Gemini.requests sg + k)%nat) as (e & He & Ht).
      exists e. simpl. rewrite He. split; [reflexivity|].
      now apply timeout_not_permanent. }
    exists s1, msg. split; [exact Hrun|]. simpl in Hreq. lia.
Qed.


Lemma retry_cap_on_timeouts_witness :
  Ollama.errorListener Ollama.ready = true
  /\ Ollama.isConnected Ollama.ready = true
  /\ Gemini.errorListener Gemini.ready = true
  /\ Gemini.isConnected Gemini.ready = true
  /\ prompt_ok (js "Summarize this text")
  /\ (exists s1 msg,
        Ollama.generateResponse unit (always (Throw AbortError))
          Ollama.no_handler Ollama.no_handler (js "Summarize this text")
          (js "gpt-oss:20b") true Ollama.ready
        = (s1, Raise (new_Error (js "Failed after " ++ num_to_string 3
                                 ++ js " retries: " ++ msg)))
        /\ Ollama.requests s1 = 4%nat)
  /\ (exists s1 msg,
        Gemini.generateResponse (fun lexeme => lexeme) unit
          (always (Throw AbortError)) Gemini.no_handler
          (js "Summarize this text") true Gemini.ready
        = (s1, Raise (new_Error (js "Failed after " ++ num_to_string 3
                                 ++ js " retries: " ++ msg)))
        /\ Gemini.requests s1 = 4%nat).
Proof.
  assert (Hp : prompt_ok (js "Summarize this text")) by reflexivity.
  destruct (retry_cap_on_timeouts unit (always (Throw AbortError))
              Ollama.no_handler Ollama.no_handler (fun lexeme => lexeme) unit
              (always (Throw AbortError)) Gemini.no_handler
              (js "Summarize this text") (js "gpt-oss:20b") true
              Ollama.ready Gemini.ready
              eq_refl eq_refl eq_refl eq_refl Hp
              (fun n => ex_intro _ AbortError (conj eq_refl eq_refl))
              (fun n => ex_intro _ AbortError (conj eq_refl eq_refl)))
    as (Ho & Hg).
  repeat split; try reflexivity; assumption.
Defined.

(** C4 as stated fails on a client without a listener for ['error']: the
    first timeout makes [emit] throw inside the [catch] block, so one
    request is made, nothing is waited for, and the error thrown is the
    emitter's, where the cap is [maxRetries + 1 = 4] attempts. *)
Lemma timeouts_without_listener_stop_at_once :
  (forall n, exists e,
      always (Body := unit) (Throw AbortError) n = Throw e
      /\ is_timeout e = true)
  /\ Ollama.isConnected Ollama.unheard = true
  /\ Ollama.maxRetries Ollama.unheard = 3%nat
  /\ (let r := Ollama.generateResponse unit (always (Throw AbortError))
                 Ollama.no_handler Ollama.no_handler
                 (js "Summarize this text") (js "gpt-oss:20b") true
                 Ollama.unheard in
      Ollama.requests (fst r) = 1%nat
      /\ Ollama.sleeps (fst r) = []
      /\ snd r = Raise ERR_UNHANDLED_ERROR)
  /\ Gemini.isConnected Gemini.unheard = true
  /\ Gemini.maxRetries Gemini.unheard = 3%nat
  /\ (let r := Gemini.generateResponse (fun lexeme => lexeme) unit
                 (always (Throw AbortError)) Gemini.no_handler
                 (js "Summarize this text") true Gemini.unheard in
      Gemini.requests (fst r) = 1%nat
      /\ Gemini.sleeps (fst r) = []
      /\ snd r = Raise ERR_UNHANDLED_ERROR).
Proof.
  split; [intros n; exists AbortError; split; reflexivity|].
  repeat apply conj; vm_compute; reflexivity.
Qed.



(** ** Backend selection *)

Module Orc := Orchestrator.

(** A validation that succeeds is for the backend the settings select, and
    the settings themselves are left as they were. *)
Lemma determineBackend_valid safe app :
  let r := Orc.determineBackendFromSettings safe app in
  Orc.activeBackend (fst r) = Orc.activeBackend app
  /\ Orc.mainWindow (fst r) = Orc.mainWindow app
  /\ Orc.sent (fst r) = Orc.sent app
  /\ exists v, snd r = Value v
               /\ (Orc.isValid v = true -> Orc.backend v = Orc.selected_backend app).
Proof.
  unfold Orc.determineBackendFromSettings, Orc.validate_backend,
    Orc.validate_gemini, Orc.validate_ollama, Orc.record_error,
    Orc.retrieve_key, Orc.update_validation, Orc.selected_backend.
  run_effects. simpl.
  destruct (str_eqb _ (js "gemini")); simpl.
  - destruct (Orc.geminiService app) as [g|]; simpl.
    + destruct (Gemini.isConnected g); simpl.
      * destruct (Orc.secureStorage app) as [vault|]; simpl.
        -- destruct (Vault.retrieveGeminiApiKey safe vault) as [vault1 [[[|c k]|]|e|]];
             simpl; repeat split; eexists; (split; [reflexivity|]); simpl;
             try discriminate; auto.
        -- repeat split; eexists; (split; [reflexivity|]); simpl; discriminate.
      * repeat split; eexists; (split; [reflexivity|]); simpl; discriminate.
    + repeat split; eexists; (split; [reflexivity|]); simpl; discriminate.
  - destruct (Orc.ollamaService app) as [o|]; simpl.
    + destruct (Ollama.isConnected o); simpl.
      * destruct (Ollama.currentModel o); simpl;
          repeat split; eexists; (split; [reflexivity|]); simpl;
          try discriminate; auto.
      * repeat split; eexists; (split; [reflexivity|]); simpl; discriminate.
    + repeat split; eexists; (split; [reflexivity|]); simpl; discriminate.
Qed.

Lemma handleClipboardChange_never_falls_back safe changeEvent app :
  Orc.fallbacks
    (Orc.sent (fst (Orc.handleClipboardChange safe changeEvent app)))
  = Orc.fallbacks (Orc.sent app).
Proof.
  unfold Orc.handleClipboardChange.
  destruct (negb (Monitor.isSignificant changeEvent)); [reflexivity|].
  destruct (Monitor.isEmpty changeEvent); [reflexivity|].
  destruct (determineBackend_valid safe app) as (Ha & Hw & Hs & v & Hv & Hb).
  unfold mbind, M_bind.
  destruct (Orc.determineBackendFromSettings safe app) as [app1 r].
  simpl in *. subst r.
  destruct (Orc.isValid v) eqn:Hvalid; simpl.
  - specialize (Hb eq_refl). run_effects. simpl.
    destruct (bool_decide (Orc.activeBackend app1 = Some (js "gemini")))
      eqn:Hg; simpl.
    + apply bool_decide_eq_true in Hg. rewrite Ha in Hg.
      unfold Orc.selected_backend in Hb. rewrite Hg in Hb.
      replace (js "gemini") with (103 :: js "emini") in Hb by reflexivity.
      rewrite Hb.
      replace (str_eqb (103 :: js "emini") (js "ollama")) with false
        by reflexivity.
      simpl. now rewrite Hs.
    + now rewrite Hs.
  - unfold Orc.sendToRenderer. run_effects. simpl.
    destruct (Orc.mainWindow app1); simpl; [|now rewrite Hs].
    unfold Orc.fallbacks. rewrite List.filter_app. simpl.
    rewrite app_nil_r. now rewrite Hs.
Qed.

(** C5: with the Gemini backend selected and no Gemini service (no API
    key), a clipboard change is not handed to Ollama: the assignment to the
    constant [backend] raises a [TypeError], the validation comes back
    invalid, and the renderer is sent one [backend-error] and no
    [backend-fallback].  No run of [handleClipboardChange] sends a
    [backend-fallback] at all. *)
Theorem unavailable_gemini_is_an_error_not_a_fallback :
  (let r := Orc.handleClipboardChange Vault.plain_safeStorage Orc.link_copied
              Orc.gemini_without_key in
   snd r = Value Orc.NoDispatch
   /\ Orc.sent (fst r)
      = [Orc.BackendError (js "backend-validation-failed")
           (Some (js "Assignment to constant variable.")) TyUrl 19
           (js "ollama")]
   /\ Orc.fallbacks (Orc.sent (fst r)) = [])
  /\ (forall safe changeEvent app,
        Orc.fallbacks
          (Orc.sent (fst (Orc.handleClipboardChange safe changeEvent app)))
        = Orc.fallbacks (Orc.sent app)).
Proof.
  split.
  - repeat split; vm_compute; reflexivity.
  - apply handleClipboardChange_never_falls_back.
Qed.

(** ** Streaming from Gemini *)

#[local] Arguments truthy : simpl never.

Lemma bind_run {S A B} (m : M S A) (k : A -> M S B) s :
  (m ≫= k) s
  = match m s with
    | (s', Value a) => k a s'
    | (s', Raise e) => (s', Raise e)
    | (s', OutOfFuel) => (s', OutOfFuel)
    end.
Proof. reflexivity. Qed.

Section GeminiStreaming.

Variable Number_toString : jsstring -> jsstring.

Let tokens (s : Gemini.Service) : list jsstring :=
  Gemini.token_texts Number_toString (Gemini.emitted s).

Let completed (s : Gemini.Service) : list jsstring :=
  Gemini.completed_responses (Gemini.emitted s).

Lemma tokens_push_token token model s :
  tokens (Gemini.push_event (Gemini.TokenReceived token model) s)
  = tokens s ++ [to_string Number_toString token]
  /\ completed (Gemini.push_event (Gemini.TokenReceived token model) s)
     = completed s.
Proof.
  unfold tokens, completed, Gemini.token_texts, Gemini.completed_responses.
  simpl. rewrite !omap_app. simpl. now rewrite app_nil_r.
Qed.

Lemma tokens_push_completed full model reason s :
  tokens (Gemini.push_event (Gemini.GenerationCompleted full model reason) s)
  = tokens s
  /\ completed
       (Gemini.push_event (Gemini.GenerationCompleted full model reason) s)
     = completed s ++ [full].
Proof.
  unfold tokens, completed, Gemini.token_texts, Gemini.completed_responses.
  simpl. rewrite !omap_app. simpl. now rewrite app_nil_r.
Qed.

Lemma receive_token_accumulates data fullResponse s :
  let r := Gemini.receive_token Number_toString data fullResponse s in
  exists toks,
    tokens (fst r) = tokens s ++ toks
    /\ completed (fst r) = completed s
    /\ match snd r with
       | Value fullResponse1 => fullResponse1 = fullResponse ++ concat toks
       | _ => True
       end.
Proof.
  unfold Gemini.receive_token. run_effects.
  destruct (Gemini.first_candidate_field data (js "content"))
    as [has_content|e]; simpl.
  2:{ exists []. now rewrite app_nil_r. }
  destruct (truthy has_content); simpl.
  2:{ exists []. simpl. now rewrite !app_nil_r. }
  destruct (Gemini.first_part_text data) as [[token|]|e]; simpl.
  - destruct (truthy (Some token)); simpl.
    + exists [to_string Number_toString token].
      destruct (tokens_push_token token (Gemini.currentModel s) s) as [-> ->].
      simpl. now rewrite app_nil_r.
    + exists []. simpl. now rewrite !app_nil_r.
  - exists []. simpl. now rewrite !app_nil_r.
  - exists []. now rewrite app_nil_r.
Qed.

(** The object loop adds the tokens [toks] to the log and hands on, or
    completes with, the response it was given followed by those tokens. *)
Lemma process_objects_accumulates jsonObjects :
  forall fullResponse s,
    let r := Gemini.process_objects Number_toString jsonObjects fullResponse s in
    exists toks,
      tokens (fst r) = tokens s ++ toks
      /\ match snd r with
         | Value (inl fullResponse1) =>
             fullResponse1 = fullResponse ++ concat toks
             /\ completed (fst r) = completed s
         | Value (inr result) =>
             response result = fullResponse ++ concat toks
             /\ completed (fst r) = completed s ++ [fullResponse ++ concat toks]
         | _ => completed (fst r) = completed s
         end.
Proof.
  induction jsonObjects as [|data rest IH]; intros fullResponse s; simpl.
  { exists []. simpl. now rewrite !app_nil_r. }
  destruct (receive_token_accumulates data fullResponse s)
    as (toks1 & Ht1 & Hc1 & Hf1).
  rewrite bind_run.
  destruct (Gemini.receive_token Number_toString data fullResponse s)
    as [s1 [full1| |]]; simpl in *.
  2,3: (exists toks1; split; assumption).
  subst full1. run_effects.
  destruct (Gemini.first_candidate_field data (js "finishReason"))
    as [finishReason|e]; simpl.
  2:{ exists toks1. split; assumption. }
  destruct (truthy finishReason); simpl.
  - exists toks1.
    destruct (tokens_push_completed (fullResponse ++ concat toks1)
                (Gemini.currentModel s1) finishReason s1) as [-> ->].
    rewrite Ht1, Hc1. auto.
  - destruct (IH (fullResponse ++ concat toks1) s1) as (toks2 & Ht2 & Hr2).
    exists (toks1 ++ toks2). rewrite concat_app, Ht2, Ht1, !app_assoc.
    split; [reflexivity|].
    destruct (Gemini.process_objects _ rest _ s1) as [s2 [[full2|res]| |]];
      simpl in *; rewrite <- Hc1; exact Hr2.
Qed.

(** The read loop: a result carries the response it started from followed
    by the tokens emitted on the way, and the one completion event, when
    there is one, carries the same text. *)
Lemma read_loop_accumulates chunks read_error :
  forall buffer fullResponse s,
    let r := Gemini.read_loop Number_toString chunks read_error buffer
               fullResponse s in
    exists toks,
      tokens (fst r) = tokens s ++ toks
      /\ (completed (fst r) = completed s
          \/ completed (fst r) = completed s ++ [fullResponse ++ concat toks])
      /\ match snd r with
         | Value result => response result = fullResponse ++ concat toks
         | _ => completed (fst r) = completed s
         end.
Proof.
  induction chunks as [|value chunks' IH]; intros buffer fullResponse s; simpl.
  { exists []. rewrite !app_nil_r.
    destruct read_error; simpl; auto. }
  rewrite bind_run.
  destruct (process_objects_accumulates
              (Gemini.parseStreamingJSON (buffer ++ value)) fullResponse s)
    as (toks1 & Ht1 & Hr1).
  destruct (Gemini.process_objects _ _ _ s) as [s1 [[full1|result]| |]];
    simpl in *.
  - destruct Hr1 as [-> Hc1].
    destruct (IH (buffer ++ value) (fullResponse ++ concat toks1) s1)
      as (toks2 & Ht2 & Hc2 & Hr2).
    exists (toks1 ++ toks2).
    rewrite concat_app, Ht2, Ht1, !app_assoc, <- Hc1.
    split; [reflexivity|]. split; [exact Hc2|].
    destruct (snd _); exact Hr2.
  - destruct Hr1 as [Hres Hc1]. exists toks1. auto.
  - exists toks1. auto.
  - exists toks1. auto.
Qed.

Lemma handleStreamingResponse_accumulates stream s :
  let r := Gemini.handleStreamingResponse Number_toString stream s in
  exists toks,
    tokens (fst r) = tokens s ++ toks
    /\ (completed (fst r) = completed s
        \/ completed (fst r) = completed s ++ [concat toks])
    /\ match snd r with
       | Value result => response result = concat toks
       | _ => completed (fst r) = completed s
       end.
Proof.
  unfold Gemini.handleStreamingResponse, try_catch. cbv zeta.
  destruct (read_loop_accumulates (Gemini.chunks stream) (Gemini.read_error stream)
              [] [] s) as (toks & Ht & Hc & Hr).
  simpl in Hc, Hr.
  destruct (Gemini.read_loop _ _ _ _ _ s) as [s1 [result|e|]]; simpl in *.
  - exists toks. auto.
  - exists toks. rewrite bind_run. unfold Gemini.emit. simpl.
    destruct (Gemini.errorListener s1); simpl; auto.
    unfold tokens, completed, Gemini.token_texts, Gemini.completed_responses
      in *.
    simpl. rewrite !omap_app. simpl. rewrite !app_nil_r. auto.
  - exists toks. auto.
Qed.

End GeminiStreaming.

(** C6: the text of the [generation-completed] event is always the
    concatenation of the tokens emitted before it, but not the concatenation
    of the texts of the streamed objects with each counted once: the buffer
    is never cut, so every chunk replays the objects of the chunks before
    it.  A response of two objects with the texts ["Hi"] and ["!"] gives
    ["Hi!"] when it arrives in one chunk and ["HiHi!"] when it arrives in
    two. *)
Theorem streamed_objects_are_replayed_by_later_chunks
  (Number_toString : jsstring -> jsstring) :
  let tokens s := Gemini.token_texts Number_toString (Gemini.emitted s) in
  let completed s := Gemini.completed_responses (Gemini.emitted s) in
  let run chunks :=
    Gemini.handleStreamingResponse Number_toString
      (Gemini.mkStream chunks None) Gemini.ready in
  (forall stream s,
      let r := Gemini.handleStreamingResponse Number_toString stream s in
      exists toks,
        tokens (fst r) = tokens s ++ toks
        /\ (completed (fst r) = completed s
            \/ completed (fst r) = completed s ++ [concat toks])
        /\ match snd r with
           | Value result => response result = concat toks
           | _ => completed (fst r) = completed s
           end)
  /\ map Gemini.part_text
       (Gemini.parseStreamingJSON (Gemini.first_chunk ++ Gemini.second_chunk))
     = [Some (js "Hi"); Some (js "!")]
  /\ tokens (fst (run [Gemini.first_chunk ++ Gemini.second_chunk]))
     = [js "Hi"; js "!"]
  /\ completed (fst (run [Gemini.first_chunk ++ Gemini.second_chunk]))
     = [js "Hi!"]
  /\ tokens (fst (run [Gemini.first_chunk; Gemini.second_chunk]))
     = [js "Hi"; js "Hi"; js "!"]
  /\ completed (fst (run [Gemini.first_chunk; Gemini.second_chunk]))
     = [js "HiHi!"]
  /\ snd (run [Gemini.first_chunk; Gemini.second_chunk])
     = Value (mkResult (js "HiHi!") true (Gemini.currentModel Gemini.ready)).
Proof.
  cbv zeta. split.
  - intros stream s. apply handleStreamingResponse_accumulates.
  - repeat split; vm_compute; reflexivity.
Qed.


(** ** Key management *)

Module VA := VaultAdmin.

Lemma retrieve_absent safe keyName c :
  Vault.store c !! keyName = None ->
  Vault.retrieveApiKey safe keyName c = (c, Value None).
Proof.
  intros H. unfold Vault.retrieveApiKey. run_effects. cbv beta iota.
  lookup_is H. reflexivity.
Qed.

Lemma retrieveBackendConfig_absent safe c :
  Vault.store c !! Vault.KEYS_BACKEND_CONFIG = None ->
  Vault.retrieveBackendConfig safe c = (c, Value None).
Proof.
  intros H. unfold Vault.retrieveBackendConfig. run_effects. cbv beta iota.
  lookup_is H. reflexivity.
Qed.

Lemma hasApiKey_lookup keyName c :
  Vault.hasApiKey keyName c = false <-> Vault.store c !! keyName = None.
Proof.
  unfold Vault.hasApiKey. rewrite bool_decide_eq_false.
  destruct (Vault.store c !! keyName); split; intros H;
    try reflexivity; try discriminate.
  - exfalso. apply H. eauto.
  - intros [? [=]].
Qed.

Lemma deleteApiKey_run keyName s :
  VA.deleteApiKey keyName s
  = (if Vault.hasApiKey keyName (VA.core s)
     then VA.mkService (Vault.set_store (delete keyName) (VA.core s))
            (VA.platform s) (VA.emitted s ++ [VA.ApiKeyDeleted keyName])
            (VA.sleeps s)
     else s,
     Value (Vault.hasApiKey keyName (VA.core s))).
Proof.
  unfold VA.deleteApiKey, VA.emit. run_effects. cbv beta iota.
  destruct (Vault.hasApiKey keyName (VA.core s)); reflexivity.
Qed.

(** X1.  [deleteApiKey] returns whether the key was stored and removes
    that entry and no other; afterwards [hasApiKey] denies the key and
    [retrieveApiKey] returns [null] for it, leaving the vault as it is. *)
Theorem deleted_key_reads_as_absent (safe : Vault.SafeStorage)
  (keyName : jsstring) (s : VA.Service) :
  let r := VA.deleteApiKey keyName s in
  snd r = Value (Vault.hasApiKey keyName (VA.core s))
  /\ Vault.store (VA.core (fst r)) = delete keyName (Vault.store (VA.core s))
  /\ Vault.hasApiKey keyName (VA.core (fst r)) = false
  /\ Vault.retrieveApiKey safe keyName (VA.core (fst r))
     = (VA.core (fst r), Value None).
Proof.
  cbv zeta. rewrite deleteApiKey_run. cbn [fst snd].
  set (s1 := if Vault.hasApiKey keyName (VA.core s) then _ else s).
  assert (Hs : Vault.store (VA.core s1)
               = delete keyName (Vault.store (VA.core s))).
  { subst s1. destruct (Vault.hasApiKey keyName (VA.core s)) eqn:Hh;
      [reflexivity|].
    apply hasApiKey_lookup in Hh. symmetry. now apply delete_id. }
  assert (Hnone : Vault.store (VA.core s1) !! keyName = None).
  { rewrite Hs. apply lookup_delete_eq. }
  split; [reflexivity|]. split; [exact Hs|].
  split; [now apply hasApiKey_lookup | now apply retrieve_absent].
Qed.

(** X2.  [clearAll] returns [true]; afterwards the vault reports no key,
    and [retrieveApiKey], for every name, and [retrieveBackendConfig]
    return [null] without emitting an event. *)
Theorem cleared_vault_holds_nothing (safe : Vault.SafeStorage)
  (s : VA.Service) :
  let r := VA.clearAll s in
  snd r = Value true
  /\ Vault.retrieveBackendConfig safe (VA.core (fst r))
     = (VA.core (fst r), Value None)
  /\ forall keyName,
       Vault.hasApiKey keyName (VA.core (fst r)) = false
       /\ Vault.retrieveApiKey safe keyName (VA.core (fst r))
          = (VA.core (fst r), Value None).
Proof.
  cbv zeta.
  assert (Hrun : VA.clearAll s
                 = (VA.mkService (Vault.set_store (fun _ => ∅) (VA.core s))
                      (VA.platform s) (VA.emitted s ++ [VA.StorageCleared])
                      (VA.sleeps s), Value true)) by reflexivity.
  rewrite Hrun. cbn [fst snd VA.core].
  assert (Hnone : forall k,
             Vault.store (Vault.set_store (fun _ => ∅) (VA.core s)) !! k
             = None) by (intros k; apply lookup_empty).
  split; [reflexivity|]. split.
  - apply retrieveBackendConfig_absent, Hnone.
  - intros keyName. split.
    + apply hasApiKey_lookup, Hnone.
    + apply retrieve_absent, Hnone.
Qed.

(** *** Export and import *)

Lemma retrieveApiKey_reads safe keyName c blob x :
  Vault.store c !! keyName = Some blob ->
  blob <> [] ->
  Vault.decryptString safe (Vault.Buffer_from_latin1 blob) = Return x ->
  Vault.retrieveApiKey safe keyName c
  = (Vault.push_event (Vault.ApiKeyRetrieved keyName (Vault.storageBackend c))
       c, Value (Some x)).
Proof.
  intros Hs Hne Hd.
  unfold Vault.retrieveApiKey. run_effects. cbv beta iota.
  lookup_is Hs. destruct blob as [|u us]; [contradiction|].
  rewrite Hd. reflexivity.
Qed.

Lemma retrieveApiKey_some safe keyName c x :
  snd (Vault.retrieveApiKey safe keyName c) = Value (Some x) ->
  exists blob,
    Vault.store c !! keyName = Some blob
    /\ blob <> []
    /\ Vault.decryptString safe (Vault.Buffer_from_latin1 blob) = Return x.
Proof.
  unfold Vault.retrieveApiKey. run_effects. cbv beta iota.
  destruct (Vault.store c !! keyName) as [[|u us]|] eqn:Hs;
    try discriminate.
  destruct (Vault.decryptString safe _) as [y|e] eqn:Hd; simpl.
  - intros [= ->]. exists (u :: us). auto.
  - unfold Vault.emit. destruct (_ && _); discriminate.
Qed.

Lemma retrieveApiKey_returns safe keyName c :
  snd (Vault.retrieveApiKey safe keyName c) <> OutOfFuel.
Proof.
  unfold Vault.retrieveApiKey. run_effects. cbv beta iota.
  destruct (Vault.store c !! keyName) as [[|u us]|]; try discriminate.
  destruct (Vault.decryptString safe _); simpl; [discriminate|].
  unfold Vault.emit. destruct (_ && _); discriminate.
Qed.

Lemma retrieveApiKey_store safe keyName c :
  Vault.store (fst (Vault.retrieveApiKey safe keyName c)) = Vault.store c.
Proof.
  unfold Vault.retrieveApiKey. run_effects. cbv beta iota.
  destruct (Vault.store c !! keyName) as [[|u us]|]; try reflexivity.
  destruct (Vault.decryptString safe _); simpl; [reflexivity|].
  now emit_step.
Qed.

(** X3.  What [exportApiKey] hands out for a key stored under a name that
    is not empty is accepted by [importApiKey] on a vault that lacks the
    key: the import reports success with the name of the key and the
    platform of the exporting vault, stores the blob that the exporting
    vault holds, and the key that [retrieveApiKey] reads from the importing
    vault is the key that it reads from the exporting one, both with the
    same [safeStorage].  What was exported under the empty name is refused
    as [Invalid export data format], and the importing vault stays as it
    is. *)
Theorem exported_key_is_restored_by_import (safe : Vault.SafeStorage)
  (keyName : jsstring) (s t : VA.Service) (exported : VA.ExportData) :
  (exists result, snd (VA.exportApiKey safe keyName s) = Value result
                  /\ VA.data result = Some exported) ->
  Vault.hasApiKey keyName (VA.core t) = false ->
  let i := VA.importApiKey (Some exported) t in
  (keyName = [] ->
   i = (t, Value (VA.mkTransferResult false false
                    (Some (js "Invalid export data format")) VA.NoDetails)))
  /\ (keyName <> [] ->
      snd i = Value (VA.mkTransferResult true true None
                       (VA.Imported keyName (VA.platform s)))
      /\ Vault.store (VA.core (fst i)) !! keyName
         = Vault.store (VA.core s) !! keyName
      /\ exists apiKey,
           apiKey <> []
           /\ snd (Vault.retrieveApiKey safe keyName (VA.core s))
              = Value (Some apiKey)
           /\ snd (Vault.retrieveApiKey safe keyName (VA.core (fst i)))
              = Value (Some apiKey)).
Proof.
  intros (result & Hrun & Hdata) Habsent.
  unfold VA.exportApiKey, VA.on_core, VA.emit in Hrun.
  run_effects. cbv beta iota in Hrun.
  pose proof (retrieveApiKey_store safe keyName (VA.core s)) as Hstore.
  destruct (Vault.retrieveApiKey safe keyName (VA.core s))
    as [c1 [[[|u apiKey]|]|e|]] eqn:Hret; simpl in Hrun, Hstore;
    try (injection Hrun as <-; discriminate); try discriminate.
  injection Hrun as <-. simpl in Hdata. injection Hdata as <-.
  pose proof (retrieveApiKey_some safe keyName (VA.core s) (u :: apiKey))
    as (blob & Hblob & Hne & Hdec); [now rewrite Hret|].
  rewrite Hstore.
  repeat match goal with
         | |- context [VA.mkExportData _ _ _ ?t] =>
             progress replace t with (Some blob) by (symmetry; exact Hblob)
         end.
  destruct blob as [|b blob]; [contradiction|].
  cbv zeta. split; [intros ->; reflexivity|]. intros Hname.
  destruct keyName as [|k keyName]; [contradiction|].
  unfold VA.importApiKey, VA.emit. run_effects. cbv beta iota.
  rewrite Habsent. cbn [fst snd VA.core Vault.store Vault.set_store].
  split; [reflexivity|]. split; [apply lookup_insert_eq|].
  exists (u :: apiKey). split; [intros [=]|]. split; [reflexivity|].
  rewrite (retrieveApiKey_reads safe (k :: keyName) _ (b :: blob)
             (u :: apiKey)).
  - reflexivity.
  - apply lookup_insert_eq.
  - intros [=].
  - exact Hdec.
Qed.

Lemma exported_key_is_restored_by_import_witness :
  Vault.KEYS_GEMINI_API_KEY <> []
  /\ Vault.hasApiKey Vault.KEYS_GEMINI_API_KEY
       (VA.core (VA.on_linux Vault.empty_vault)) = false
  /\ exists exported,
       VA.data (match snd (VA.exportApiKey Vault.plain_safeStorage
                             Vault.KEYS_GEMINI_API_KEY VA.with_key) with
                | Value result => result
                | _ => VA.mkExportResult false None None
                end) = Some exported
       /\ snd (Vault.retrieveApiKey Vault.plain_safeStorage
                 Vault.KEYS_GEMINI_API_KEY
                 (VA.core (fst (VA.importApiKey (Some exported)
                                  (VA.on_linux Vault.empty_vault)))))
          = Value (Some Vault.key1).
Proof.
  assert (Hname : Vault.KEYS_GEMINI_API_KEY <> []) by discriminate.
  assert (Habsent : Vault.hasApiKey Vault.KEYS_GEMINI_API_KEY
                      (VA.core (VA.on_linux Vault.empty_vault)) = false)
    by reflexivity.
  split; [exact Hname|]. split; [exact Habsent|].
  destruct (VA.exportApiKey Vault.plain_safeStorage
              Vault.KEYS_GEMINI_API_KEY VA.with_key) as [s1 o] eqn:Hexp.
  vm_compute in Hexp. injection Hexp as _ <-.
  eexists. split; [reflexivity|].
  match goal with
  | |- context [VA.importApiKey (Some ?d)] =>
      assert (Hexported :
                exists result,
                  snd (VA.exportApiKey Vault.plain_safeStorage
                         Vault.KEYS_GEMINI_API_KEY VA.with_key)
                  = Value result
                  /\ VA.data result = Some d)
        by (eexists; split; vm_compute; reflexivity);
      destruct (proj2 (exported_key_is_restored_by_import
                         Vault.plain_safeStorage Vault.KEYS_GEMINI_API_KEY
                         VA.with_key (VA.on_linux Vault.empty_vault) d
                         Hexported Habsent) Hname)
        as (_ & _ & apiKey & _ & Hs & Ht)
  end.
  rewrite Ht, <- Hs. vm_compute. reflexivity.
Defined.

(** *** Migration from the environment *)

(** X4.  [migrateFromEnvironment] never reports success: it reads
    [success] off the promise that the [async] method [storeApiKey]
    returns, so the branch that sets [success] and [migrated] and emits
    [api-key-migrated] is never taken.  The key is stored all the same:
    when the vault lacks the key and the environment variable holds a
    well-formed key that [safeStorage] encrypts faithfully, the result is
    [success: false] without an error message, and [retrieveApiKey]
    returns the key of the environment. *)
Theorem migration_stores_the_key_and_reports_failure
  (safe : Vault.SafeStorage) (net : jsstring -> Vault.FetchOutcome)
  (env : jsstring -> option jsstring) (keyName envVarName : jsstring)
  (s : VA.Service) :
  let r := VA.migrateFromEnvironment safe net env keyName envVarName s in
  (exists result,
      snd r = Value result
      /\ VA.success result = false /\ VA.transferred result = false)
  /\ forall envApiKey,
       Vault.hasApiKey keyName (VA.core s) = false ->
       env envVarName = Some envApiKey ->
       Vault.isValid (Vault.validateApiKeyFormat envApiKey) = true ->
       Vault.encrypts_faithfully safe envApiKey ->
       snd r = Value (VA.mkTransferResult false false None
                        VA.UndefinedDetails)
       /\ snd (Vault.retrieveApiKey safe keyName (VA.core (fst r)))
          = Value (Some envApiKey).
Proof.
  cbv zeta. split.
  - unfold VA.migrateFromEnvironment, VA.storeApiKey_promise, VA.on_core.
    run_effects. cbv beta iota.
    destruct (Vault.hasApiKey keyName (VA.core s)); simpl; [eauto|].
    destruct (env envVarName) as [[|c k]|]; simpl; eauto.
    destruct (length (trim (c :: k)) =? 0)%nat; simpl; eauto.
    destruct (Vault.isValid _); simpl; eauto.
    destruct (Vault.storeApiKey _ _ _ _ _ _); simpl. eauto.
  - intros envApiKey Habsent Henv Hvalid (blob & Henc & Hne & Hdec).
    destruct (valid_nonempty envApiKey Hvalid) as (c & k & -> & Hlen).
    destruct (storeApiKey_stores safe net keyName (c :: k) (VA.core s) blob
                Hvalid Henc) as (c1 & res & Hstore & _ & Hmap).
    unfold VA.migrateFromEnvironment, VA.storeApiKey_promise, VA.on_core.
    run_effects. cbv beta iota.
    rewrite Habsent, Henv, Hlen, Hvalid. cbn [negb].
    rewrite Hstore. unfold VA.promise_property. cbn [default fst snd VA.core].
    split; [reflexivity|].
    rewrite (retrieveApiKey_reads safe keyName c1 (Vault.toString_latin1 blob)
               (c :: k)).
    + reflexivity.
    + rewrite Hmap. apply lookup_insert_eq.
    + intros H. apply toString_latin1_nil in H. contradiction.
    + now rewrite latin1_roundtrip.
Qed.

Lemma migration_stores_the_key_and_reports_failure_witness :
  let r := VA.migrateFromEnvironment Vault.plain_safeStorage Vault.offline
             VA.env_with_key Vault.KEYS_GEMINI_API_KEY (js "GEMINI_API_KEY")
             (VA.on_linux Vault.empty_vault) in
  snd r = Value (VA.mkTransferResult false false None VA.UndefinedDetails)
  /\ snd (Vault.retrieveApiKey Vault.plain_safeStorage
            Vault.KEYS_GEMINI_API_KEY (VA.core (fst r)))
     = Value (Some Vault.key1).
Proof.
  refine (proj2 (migration_stores_the_key_and_reports_failure
                   Vault.plain_safeStorage Vault.offline VA.env_with_key
                   Vault.KEYS_GEMINI_API_KEY (js "GEMINI_API_KEY")
                   (VA.on_linux Vault.empty_vault))
            Vault.key1 eq_refl eq_refl _ _).
  - vm_compute. reflexivity.
  - eexists. split; [reflexivity|]. split; [discriminate|].
    vm_compute. reflexivity.
Defined.

(** *** Retries *)

Section RetryProofs.

Context {A : Type}.
Variable operation : M VA.Service A.
Variables baseDelay maxDelay : Z.
Variable shouldRetry : JsError -> bool.

Hypothesis operation_never_sleeps :
  forall s, VA.sleeps (fst (operation s)) = VA.sleeps s.

Lemma retry_from_sleeps remaining :
  forall attempt s,
    exists waits,
      (waits <= remaining)%nat
      /\ VA.sleeps (fst (VA.retry_from operation baseDelay maxDelay
                           shouldRetry remaining attempt s))
         = VA.sleeps s ++ VA.capped_delays baseDelay maxDelay attempt waits.
Proof.
  induction remaining as [|remaining IH]; intros attempt s; simpl;
    unfold try_catch, throw; pose proof (operation_never_sleeps s) as Hop;
    destruct (operation s) as [s1 [a|e|]]; simpl in *;
    try (exists 0%nat; split; [lia|]; now rewrite app_nil_r).
  run_effects.
  destruct (shouldRetry e); simpl.
  -     destruct (IH (S attempt)
                (VA.mkService (VA.core s1) (VA.platform s1) (VA.emitted s1)
                   (VA.sleeps s1 ++
                    [Z.min (baseDelay * 2 ^ Z.of_nat attempt) maxDelay])))
      as (waits & Hle & Hs).
    exists (S waits). split; [lia|].
    rewrite Hs. cbn [VA.sleeps]. rewrite Hop, <- app_assoc. reflexivity.
  - exists 0%nat. split; [lia|]. now rewrite app_nil_r.
Qed.

Lemma retry_from_exhausts remaining :
  (forall s, exists e, snd (operation s) = Raise e /\ shouldRetry e = true) ->
  forall attempt s,
    VA.sleeps (fst (VA.retry_from operation baseDelay maxDelay shouldRetry
                      remaining attempt s))
    = VA.sleeps s ++ VA.capped_delays baseDelay maxDelay attempt remaining
    /\ exists e, snd (VA.retry_from operation baseDelay maxDelay shouldRetry
                        remaining attempt s) = Raise e.
Proof.
  intros Hfail.
  induction remaining as [|remaining IH]; intros attempt s; simpl;
    unfold try_catch, throw; pose proof (operation_never_sleeps s) as Hop;
    destruct (Hfail s) as (e & He & Hretry);
    destruct (operation s) as [s1 o]; simpl in *; subst o.
  - rewrite app_nil_r. eauto.
  - run_effects. rewrite Hretry. simpl.
    destruct (IH (S attempt)
                (VA.mkService (VA.core s1) (VA.platform s1) (VA.emitted s1)
                   (VA.sleeps s1 ++
                    [Z.min (baseDelay * 2 ^ Z.of_nat attempt) maxDelay])))
      as (Hs & e' & He').
    rewrite Hs, He'. cbn [VA.sleeps]. rewrite Hop, <- app_assoc. eauto.
Qed.

Lemma capped_delays_bound from count :
  Forall (fun delay => (delay <= maxDelay)%Z)
    (VA.capped_delays baseDelay maxDelay from count).
Proof.
  unfold VA.capped_delays. apply Forall_map, Forall_forall.
  intros attempt _. apply Z.le_min_r.
Qed.

End RetryProofs.

(** X5.  [retryOperation] waits at most [maxRetries] times, for
    [min(baseDelay * 2^attempt, maxDelay)] milliseconds after attempts 0,
    1, ... in turn, so no wait exceeds [maxDelay]; when every attempt
    fails with an error that [shouldRetry] accepts, it waits exactly
    [maxRetries] times and then throws.  The operation is assumed not to
    wait by itself. *)
Theorem retry_waits_are_capped {A : Type} (operation : M VA.Service A)
  (maxRetries : nat) (baseDelay maxDelay : Z) (shouldRetry : JsError -> bool)
  (s : VA.Service) :
  (forall s, VA.sleeps (fst (operation s)) = VA.sleeps s) ->
  let r := VA.retryOperation operation maxRetries baseDelay maxDelay
             shouldRetry s in
  exists waits,
    (waits <= maxRetries)%nat
    /\ VA.sleeps (fst r)
       = VA.sleeps s ++ VA.capped_delays baseDelay maxDelay 0 waits
    /\ Forall (fun delay => (delay <= maxDelay)%Z)
         (VA.capped_delays baseDelay maxDelay 0 waits)
    /\ ((forall s, exists e, snd (operation s) = Raise e
                             /\ shouldRetry e = true) ->
        waits = maxRetries /\ exists e, snd r = Raise e).
Proof.
  intros Hquiet. cbv zeta. unfold VA.retryOperation.
  destruct (retry_from_sleeps operation baseDelay maxDelay shouldRetry Hquiet
              maxRetries 0%nat s) as (waits & Hle & Hs).
  exists waits. split; [exact Hle|]. split; [exact Hs|].
  split; [apply capped_delays_bound|].
  intros Hfail.
  destruct (retry_from_exhausts operation baseDelay maxDelay shouldRetry
              Hquiet maxRetries Hfail 0%nat s) as (Hall & e & He).
  split; [|eauto].
  rewrite Hs in Hall. apply app_inv_head in Hall.
  apply (f_equal (@length Z)) in Hall.
  unfold VA.capped_delays in Hall.
  now rewrite !length_map, !length_seq in Hall.
Qed.

Lemma testApiKeyAgainstGemini_run net apiKey c :
  exists apiTest,
    Vault.testApiKeyAgainstGemini net apiKey c
    = (Vault.push_request apiKey c, Value apiTest).
Proof. eexists. reflexivity. Qed.

Lemma retry_waits_are_capped_witness :
  (forall s, VA.sleeps (fst (VA.timing_out s)) = VA.sleeps s)
  /\ exists waits,
       (waits <= 3)%nat
       /\ VA.sleeps (fst (VA.retryOperation VA.timing_out 3 4000 10000
                            VA.default_shouldRetry
                            (VA.on_linux Vault.empty_vault)))
          = [] ++ VA.capped_delays 4000 10000 0 waits
       /\ VA.capped_delays 4000 10000 0 waits = [4000; 8000; 10000]%Z.
Proof.
  assert (Hquiet : forall s, VA.sleeps (fst (VA.timing_out s)) = VA.sleeps s)
    by reflexivity.
  split; [exact Hquiet|].
  destruct (retry_waits_are_capped VA.timing_out 3 4000 10000
              VA.default_shouldRetry (VA.on_linux Vault.empty_vault) Hquiet)
    as (waits & Hle & Hs & _ & Hall).
  exists waits. split; [exact Hle|]. split; [exact Hs|].
  destruct Hall as [-> _]; [|reflexivity].
  intros s. exists (new_Error (js "API request timed out: timeout")).
  split; [reflexivity | vm_compute; reflexivity].
Defined.

(** X6.  [validateStoredApiKey] always returns a result, never waits and
    sends at most one request: [testApiKeyAgainstGemini] reports a failure
    in its result and does not throw, so the retries wrapped around it
    never happen.  A request is sent only for a stored key that passes the
    format validation, and carries that key. *)
Theorem stored_key_validation_asks_once (safe : Vault.SafeStorage)
  (net : jsstring -> Vault.FetchOutcome) (keyName : jsstring)
  (s : VA.Service) :
  let r := VA.validateStoredApiKey safe net keyName s in
  (exists result, snd r = Value result)
  /\ VA.sleeps (fst r) = VA.sleeps s
  /\ (Vault.requests (VA.core (fst r)) = Vault.requests (VA.core s)
      \/ exists apiKey,
           snd (Vault.retrieveApiKey safe keyName (VA.core s))
           = Value (Some apiKey)
           /\ Vault.isValid (Vault.validateApiKeyFormat apiKey) = true
           /\ Vault.requests (VA.core (fst r))
              = Vault.requests (VA.core s) ++ [apiKey]).
Proof.
  cbv zeta.
  unfold VA.validateStoredApiKey, VA.retryOperation, VA.on_core.
  run_effects. cbv beta iota.
  assert (Hreq : Vault.requests
                   (fst (Vault.retrieveApiKey safe keyName (VA.core s)))
                 = Vault.requests (VA.core s)).
  { unfold Vault.retrieveApiKey. run_effects. cbv beta iota.
    destruct (Vault.store (VA.core s) !! keyName) as [[|u us]|];
      try reflexivity.
    destruct (Vault.decryptString safe _); simpl; [reflexivity|].
    now emit_step. }
  pose proof (retrieveApiKey_returns safe keyName (VA.core s)) as Hfuel.
  destruct (Vault.retrieveApiKey safe keyName (VA.core s))
    as [c1 [[[|u apiKey]|]|e|]]; cbn [fst snd VA.core VA.sleeps] in *;
    try contradiction;
    try (split; [eauto | split; [reflexivity | left; assumption]]).
  destruct (Vault.isValid (Vault.validateApiKeyFormat (u :: apiKey))) eqn:Hv;
    cbn [negb fst snd VA.core VA.sleeps];
    try (split; [eauto | split; [reflexivity | left; assumption]]).
  destruct (testApiKeyAgainstGemini_run net (u :: apiKey) c1)
    as (apiTest & Htest).
  cbn [VA.retry_from]. unfold try_catch.
  cbn [VA.core VA.platform VA.emitted VA.sleeps]. rewrite Htest.
  cbn [fst snd VA.core].
  split; [|split].
  - destruct (Vault.test_isValid apiTest); eauto.
  - destruct (Vault.test_isValid apiTest); reflexivity.
  - right. exists (u :: apiKey). rewrite <- Hreq.
    destruct (Vault.test_isValid apiTest); auto.
Qed.


(** *** Format validation and storing *)

Lemma includes_singleton_In (s : jsstring) (c : N) :
  includes s [c] = true -> In c s.
Proof.
  induction s as [|d s IH]; intros H; [discriminate H|].
  change (includes (d :: s) [c])
    with ((c =? d) && startsWith s [] || includes s [c]) in H.
  destruct (c =? d) eqn:E.
  - apply N.eqb_eq in E. left. now symmetry.
  - right. apply IH, H.
Qed.

(** X7.  [validateApiKeyFormat] accepts a key exactly when it lists no
    error; it lists at most one error and at most two warnings; and it
    never produces the error about spaces, because a key with a space has
    failed the test of its characters before. *)
Theorem format_verdict_is_coherent (apiKey : jsstring) :
  let v := Vault.validateApiKeyFormat apiKey in
  (Vault.isValid v = true <-> Vault.errors v = [])
  /\ (length (Vault.errors v) <= 1)%nat
  /\ (length (Vault.warnings v) <= 2)%nat
  /\ ~ In (js "API key should not contain spaces") (Vault.errors v).
Proof.
  cbv zeta. unfold Vault.validateApiKeyFormat.
  destruct apiKey as [|c k].
  { repeat split; simpl; try lia; try discriminate.
    intros [H|[]]. vm_compute in H. discriminate. }
  set (t := trim (c :: k)).
  destruct (length t <? 20)%nat.
  { repeat split; simpl; try lia; try discriminate.
    intros [H|[]]. vm_compute in H. discriminate. }
  cbv zeta.
  set (w := if (100 <? length t)%nat then _ else _).
  assert (Hw : (length w <= 1)%nat)
    by (subst w; destruct (100 <? length t)%nat; simpl; lia).
  destruct (startsWith t (js "AI")); cbn [negb].
  2:{ repeat split; simpl; try lia; try discriminate.
      intros [H|[]]. vm_compute in H. discriminate. }
  destruct (matches Vault.validPattern t) eqn:Hm; cbn [negb].
  2:{ repeat split; simpl; try lia; try discriminate.
      intros [H|[]]. vm_compute in H. discriminate. }
  destruct (includes t (js " ")) eqn:Hsp.
  { exfalso. apply includes_singleton_In in Hsp.
    unfold Vault.validPattern in Hm. rewrite matches_Plus_Class in Hm.
    apply andb_true_iff in Hm as [_ Hall].
    rewrite forallb_forall in Hall. specialize (Hall _ Hsp).
    discriminate. }
  repeat split; simpl; try lia; auto.
  destruct (_ || _); [rewrite length_app; simpl|]; lia.
Qed.

Lemma store_failure_keeps ev (c s : Vault.Service) msg :
  Vault.store c = Vault.store s ->
  let r := (Vault.emit ev ;;
            ret (Vault.mkStoreResult false msg Vault.no_details)) c in
  Vault.store (fst r) = Vault.store s
  /\ forall result, snd r = Value result -> Vault.success result = false.
Proof.
  intros Hc. cbv zeta. rewrite bind_run.
  destruct (Vault.emit ev c) as [c' o] eqn:E.
  apply emit_inv in E as (_ & Hst & _).
  destruct o; cbn; split; try congruence; intros result [= <-]; reflexivity.
Qed.

Lemma try_catch_run {S A} (m : M S A) (h : JsError -> M S A) s :
  try_catch m h s
  = match m s with
    | (s1, Raise e) => h e s1
    | r => r
    end.
Proof. unfold try_catch. destruct (m s) as [s1 [a|e|]]; reflexivity. Qed.

(** X8.  [storeApiKey] either reports success, and then the key has passed
    the format validation and the vault holds its encryption under
    [keyName], or leaves the persisted entries as they were, and whatever it
    returns reports failure. *)
Theorem failed_store_keeps_the_stored_key (safe : Vault.SafeStorage)
  (net : jsstring -> Vault.FetchOutcome) (keyName apiKey : jsstring)
  (testAgainstApi : bool) (s : Vault.Service) :
  let r := Vault.storeApiKey safe net keyName apiKey testAgainstApi s in
  (exists result blob,
      snd r = Value result
      /\ Vault.success result = true
      /\ Vault.isValid (Vault.validateApiKeyFormat apiKey) = true
      /\ Vault.encryptString safe apiKey = Return blob
      /\ Vault.store (fst r)
         = <[keyName := Vault.toString_latin1 blob]> (Vault.store s))
  \/ (Vault.store (fst r) = Vault.store s
      /\ forall result, snd r = Value result ->
                        Vault.success result = false).
Proof.
  cbv zeta.
  destruct (Vault.storeApiKey safe net keyName apiKey testAgainstApi s)
    as [s' o] eqn:E.
  cbn [fst snd]. revert E.
  unfold Vault.storeApiKey. rewrite try_catch_run.
  assert (Hfail : forall ev (c : Vault.Service) msg,
             Vault.store c = Vault.store s ->
             (Vault.emit ev ;;
              ret (Vault.mkStoreResult false msg Vault.no_details)) c
             = (s', o) ->
             Vault.store s' = Vault.store s
             /\ forall result, o = Value result ->
                               Vault.success result = false).
  { intros ev c msg Hc E.
    pose proof (store_failure_keeps ev c s msg Hc) as H. cbv zeta in H.
    now rewrite E in H. }
  rewrite bind_run.
  assert (Hthrow : forall {A} e (c : Vault.Service),
             @throw Vault.Service A e c = (c, Raise e)) by reflexivity.
  assert (Hret : forall {A} (a : A) (c : Vault.Service),
             ret a c = (c, Value a)) by reflexivity.
  destruct apiKey as [|c k].
  { rewrite Hthrow. intros E. right. now apply Hfail in E. }
  destruct (length (trim (c :: k)) =? 0)%nat.
  { rewrite Hthrow. intros E. right. now apply Hfail in E. }
  rewrite Hret, bind_run.
  destruct (Vault.isValid (Vault.validateApiKeyFormat (c :: k))) eqn:Hv;
    cbn [negb].
  2:{ rewrite Hthrow. intros E. right. now apply Hfail in E. }
  rewrite Hret, bind_run.
  assert (Htested : exists c2 tested,
             Vault.store c2 = Vault.store s
             /\ ((if testAgainstApi then
                    apiTest ← Vault.testApiKeyAgainstGemini net (c :: k);
                    if negb (Vault.test_isValid apiTest) then
                      throw (new_Error (js "API key test failed: "
                                        ++ default (js "null")
                                             (Vault.test_error apiTest)))
                    else ret (Some (Vault.test_details apiTest))
                  else ret None) s = (c2, tested))
             /\ tested <> OutOfFuel).
  { destruct testAgainstApi.
    - rewrite bind_run.
      destruct (testApiKeyAgainstGemini_run net (c :: k) s) as [apiTest ->].
      destruct (negb (Vault.test_isValid apiTest));
        eexists _, _; (split; [|split; [reflexivity | discriminate]]);
        reflexivity.
    - exists s. eexists. split; [reflexivity|].
      split; [reflexivity | discriminate]. }
  destruct Htested as (c2 & tested & Hc2 & -> & Hfuel).
  destruct tested as [tested|e|]; [| |contradiction].
  2:{ intros E. right. now apply Hfail in E. }
  rewrite bind_run.
  destruct (Vault.encryptString safe (c :: k)) as [blob|e].
  - cbn. intros [= <- <-]. left. eexists. exists blob.
    rewrite <- Hc2. repeat split; reflexivity.
  - change (lift (Throw e) c2) with (c2, @Raise Vault.Buffer e).
    cbv beta iota. intros E. right. now apply Hfail in E.
Qed.



(** ** From clipboard text to prompt *)

Section Backtracking.

Variable P : N -> Prop.

Lemma star_ends_sound (step : jsstring -> list jsstring) :
  (forall s s1, In s1 (step s) ->
     exists pre, s = pre ++ s1 /\ Forall P pre) ->
  forall fuel s s1, In s1 (Prompt.star_ends step fuel s) ->
    exists pre, s = pre ++ s1 /\ Forall P pre.
Proof.
  intros Hstep.
  induction fuel as [|fuel IH]; intros s s1; simpl.
  - intros [<-|[]]. exists []. auto.
  - rewrite in_app_iff, in_flat_map. intros [(s2 & H2 & H1)|[<-|[]]].
    + destruct (length s2 <? length s)%nat; [|destruct H1].
      destruct (Hstep _ _ H2) as (pre2 & -> & Hp2).
      destruct (IH _ _ H1) as (pre1 & -> & Hp1).
      exists (pre2 ++ pre1). rewrite <- app_assoc.
      split; [reflexivity | now apply Forall_app].
    + exists []. auto.
Qed.

Lemma ends_sound (r : regex) :
  Prompt.over P r ->
  forall s s1, In s1 (Prompt.ends r s) ->
    exists pre, s = pre ++ s1 /\ Forall P pre
                /\ (Prompt.min_len r <= length pre)%nat.
Proof.
  induction r as [| |p|r1 IH1 r2 IH2|r1 IH1 r2 IH2|r1 IH1];
    simpl; intros Hover s s1 Hin.
  - destruct Hin.
  - destruct Hin as [<-|[]]. exists []. simpl. auto.
  - destruct s as [|c s]; [destruct Hin|].
    destruct (p c) eqn:Hp; [|destruct Hin].
    destruct Hin as [<-|[]]. exists [c]. simpl. auto.
  - destruct Hover as [H1 H2].
    apply in_flat_map in Hin as (s2 & Hin2 & Hin1).
    destruct (IH1 H1 _ _ Hin2) as (pre2 & -> & Hp2 & Hl2).
    destruct (IH2 H2 _ _ Hin1) as (pre1 & -> & Hp1 & Hl1).
    exists (pre2 ++ pre1). rewrite <- app_assoc, length_app.
    split; [reflexivity|]. split; [now apply Forall_app | lia].
  - destruct Hover as [H1 H2].
    apply in_app_iff in Hin as [Hin|Hin].
    + destruct (IH1 H1 _ _ Hin) as (pre & -> & Hp & Hl).
      exists pre. repeat split; auto. lia.
    + destruct (IH2 H2 _ _ Hin) as (pre & -> & Hp & Hl).
      exists pre. repeat split; auto. lia.
  - assert (Hstep : forall s0 s2, In s2 (Prompt.ends r1 s0) ->
                        exists pre, s0 = pre ++ s2 /\ Forall P pre).
    { intros s0 s2 H. destruct (IH1 Hover _ _ H) as (pre & ? & ? & _).
      eauto. }
    destruct (star_ends_sound (Prompt.ends r1) Hstep _ _ _ Hin)
      as (pre & -> & Hp).
    exists pre. repeat split; auto. lia.
Qed.

Lemma exec_sound (r : regex) (s rest : jsstring) :
  Prompt.over P r ->
  Prompt.exec r s = Some rest ->
  exists pre, s = pre ++ rest /\ Forall P pre
              /\ (Prompt.min_len r <= length pre)%nat.
Proof.
  unfold Prompt.exec. intros Hover H.
  apply ends_sound with (1 := Hover).
  destruct (Prompt.ends r s); [discriminate|].
  injection H as ->. now left.
Qed.

End Backtracking.

Lemma over_True (r : regex) : Prompt.over (fun _ => True) r.
Proof. induction r; simpl; auto. Qed.

Lemma exec_shorter (r : regex) (s rest : jsstring) :
  Prompt.exec r s = Some rest ->
  exists pre, s = pre ++ rest /\ (Prompt.min_len r <= length pre)%nat.
Proof.
  intros H.
  destruct (exec_sound (fun _ => True) r s rest (over_True r) H)
    as (pre & ? & _ & ?).
  eauto.
Qed.

Lemma replace_all_skip (r : regex) (rep : jsstring) (s : jsstring) :
  forall skip, (skip <= length s)%nat ->
    Prompt.replace_all r rep s skip = Prompt.replace_all r rep (drop skip s) 0.
Proof.
  induction s as [|c s IH]; intros [|skip] Hle; simpl in *;
    try reflexivity; try lia.
  apply IH. lia.
Qed.

Lemma replace_replaced (r : regex) (rep : jsstring) :
  (1 <= Prompt.min_len r)%nat ->
  forall s, Prompt.replaced r rep s (Prompt.replace r rep s).
Proof.
  intros Hmin s. unfold Prompt.replace.
  induction s as [s IH] using (induction_ltof1 _ (@length N)).
  unfold ltof in IH.
  destruct s as [|c s]; simpl.
  - destruct (Prompt.exec r []) as [rest|] eqn:He; [|constructor].
    apply exec_shorter in He as (pre & Hs & Hl).
    destruct pre; [simpl in Hl; lia | discriminate].
  - destruct (Prompt.exec r (c :: s)) as [rest|] eqn:He.
    + pose proof He as He'.
      apply exec_shorter in He as (pre & Hs & Hl).
      destruct pre as [|c' pre]; [simpl in Hl; lia|].
      injection Hs as <- ->.
      rewrite length_app.
      replace (S (length pre + length rest) - length rest)%nat
        with (S (length pre)) by lia.
      rewrite replace_all_skip by (rewrite length_app; lia).
      rewrite drop_app_length.
      apply Prompt.replaced_match; [exact He'|].
      apply IH. simpl. rewrite length_app. lia.
    + apply Prompt.replaced_copy; [exact He|].
      apply IH. simpl. lia.
Qed.

Section Replaced.

Variables (r : regex) (rep : jsstring).

(** What is copied or put in survives. *)
Lemma replaced_Forall (Q : N -> Prop) (s out : jsstring) :
  Prompt.replaced r rep s out ->
  Forall Q rep ->
  Forall (fun c => forall s', Prompt.exec r (c :: s') = None -> Q c) s ->
  Forall Q out.
Proof.
  induction 1 as [|c s out He _ IH|c pre s out He _ IH]; intros Hrep Hs.
  - constructor.
  - inversion Hs as [|? ? Hc Hs']; subst.
    constructor; [now apply (Hc s) | now apply IH].
  - apply Forall_app. split; [exact Hrep|].
    apply IH; [exact Hrep|].
    inversion Hs as [|? ? _ Hs']; subst.
    now apply Forall_app in Hs' as [_ ?].
Qed.

Lemma replaced_Forall_input (Q : N -> Prop) (s out : jsstring) :
  Prompt.replaced r rep s out -> Forall Q rep -> Forall Q s -> Forall Q out.
Proof.
  intros H Hrep Hs. apply (replaced_Forall Q s out H Hrep).
  eapply Forall_impl; [exact Hs|]. auto.
Qed.

Lemma replaced_length (s out : jsstring) :
  (length rep <= Prompt.min_len r)%nat ->
  Prompt.replaced r rep s out -> (length out <= length s)%nat.
Proof.
  intros Hrep.
  induction 1 as [|c s out He _ IH|c pre s out He _ IH]; simpl.
  - lia.
  - lia.
  - apply exec_shorter in He as (pre' & Hs & Hl).
    change (c :: pre ++ s) with ((c :: pre) ++ s) in Hs.
    apply app_inv_tail in Hs. subst pre'.
    rewrite !length_app. simpl in Hl. lia.
Qed.

Lemma replaced_filter (f : N -> bool) (s out : jsstring) :
  Prompt.over (fun c => f c = false) r ->
  List.filter f rep = [] ->
  Prompt.replaced r rep s out -> List.filter f out = List.filter f s.
Proof.
  intros Hover Hrep.
  induction 1 as [|c s out He _ IH|c pre s out He _ IH].
  - reflexivity.
  - simpl. now rewrite IH.
  - apply (exec_sound (fun c => f c = false)) in He as (pre' & Hs & Hp & _);
      [|exact Hover].
    change (c :: pre ++ s) with ((c :: pre) ++ s) in Hs.
    apply app_inv_tail in Hs. subst pre'.
    change (c :: pre ++ s) with ((c :: pre) ++ s).
    rewrite !List.filter_app, Hrep, IH.
    replace (List.filter f (c :: pre)) with (@nil N); [reflexivity|].
    symmetry. clear -Hp.
    induction Hp as [|x l Hx _ IHl]; simpl; [reflexivity|].
    now rewrite Hx.
Qed.

End Replaced.

Lemma exec_Chr_None (a c : N) (s : jsstring) :
  Prompt.exec (Chr a) (c :: s) = None -> c <> a.
Proof.
  unfold Prompt.exec, Chr. simpl. intros H ->.
  now rewrite N.eqb_refl in H.
Qed.

Lemma star_ends_last step fuel s :
  exists l, Prompt.star_ends step fuel s = l ++ [s].
Proof.
  destruct fuel; simpl; [exists []; reflexivity | eauto].
Qed.

Lemma exec_blanks_None (c : N) (s : jsstring) :
  Prompt.exec Prompt.blanks (c :: s) = None -> c <> 32 /\ c <> 9.
Proof.
  unfold Prompt.exec, Prompt.blanks, Plus.
  cbn [Prompt.ends].
  destruct ((c =? 32) || (c =? 9)) eqn:Hc.
  - cbn [flat_map]. rewrite app_nil_r. cbn [Prompt.ends].
    match goal with
    | |- context [Prompt.star_ends ?step ?fuel ?s0] =>
        destruct (star_ends_last step fuel s0) as (l & ->)
    end.
    destruct l; discriminate.
  - intros _. apply orb_false_iff in Hc as [H1 H2].
    apply N.eqb_neq in H1, H2. auto.
Qed.

(** *** Trimming, splitting and joining *)

Lemma trimStart_split (s : jsstring) :
  exists pre, s = pre ++ trimStart s
              /\ Forall (fun c => is_white_space c = true) pre.
Proof.
  induction s as [|c s (pre & IH & Hp)]; simpl.
  - exists []. auto.
  - destruct (is_white_space c) eqn:Hc.
    + exists (c :: pre). simpl. split; [now f_equal | auto].
    + exists []. auto.
Qed.

Lemma trimEnd_split (s : jsstring) :
  exists suf, s = trimEnd s ++ suf
              /\ Forall (fun c => is_white_space c = true) suf.
Proof.
  unfold trimEnd.
  destruct (trimStart_split (rev s)) as (pre & H & Hp).
  exists (rev pre). split.
  - rewrite <- rev_app_distr, <- H. now rewrite rev_involutive.
  - now apply Forall_rev.
Qed.

Lemma trim_split (s : jsstring) :
  exists pre suf,
    s = pre ++ trim s ++ suf
    /\ Forall (fun c => is_white_space c = true) pre
    /\ Forall (fun c => is_white_space c = true) suf.
Proof.
  unfold trim.
  destruct (trimStart_split s) as (pre & H1 & Hp).
  destruct (trimEnd_split (trimStart s)) as (suf & H2 & Hs).
  exists pre, suf. split; [|auto]. now rewrite <- H2.
Qed.

Lemma filter_none (f : N -> bool) (l : jsstring) :
  Forall (fun c => f c = false) l -> List.filter f l = [].
Proof.
  induction 1 as [|x l Hx _ IH]; simpl; [reflexivity|]. now rewrite Hx.
Qed.

Lemma trim_filter (f : N -> bool) (s : jsstring) :
  (forall c, is_white_space c = true -> f c = false) ->
  List.filter f (trim s) = List.filter f s.
Proof.
  intros Hf. destruct (trim_split s) as (pre & suf & Hs & Hp & Hq).
  rewrite Hs at 2. rewrite !List.filter_app.
  rewrite (filter_none f pre), (filter_none f suf), app_nil_r;
    [reflexivity| |]; eapply Forall_impl; eauto.
Qed.

Lemma trim_length (s : jsstring) : (length (trim s) <= length s)%nat.
Proof.
  destruct (trim_split s) as (pre & suf & Hs & _).
  rewrite Hs at 2. rewrite !length_app. lia.
Qed.

Lemma trim_Forall (Q : N -> Prop) (s : jsstring) :
  Forall Q s -> Forall Q (trim s).
Proof.
  destruct (trim_split s) as (pre & suf & Hs & _).
  intros H. rewrite Hs in H.
  apply Forall_app in H as [_ H]. now apply Forall_app in H as [H _].
Qed.

Lemma trimStart_head (s : jsstring) (c : N) (t : jsstring) :
  trimStart s = c :: t -> is_white_space c = false.
Proof.
  induction s as [|d s IH]; simpl; [discriminate|].
  destruct (is_white_space d) eqn:Hd; [exact IH|].
  now intros [= <- _].
Qed.

Lemma trimStart_nil (s : jsstring) :
  trimStart s = [] -> Forall (fun c => is_white_space c = true) s.
Proof.
  induction s as [|d s IH]; simpl; [constructor|].
  destruct (is_white_space d) eqn:Hd; [auto | discriminate].
Qed.

(** A trimmed string is empty only if the string was white space. *)
Lemma trim_nil (s : jsstring) :
  trim s = [] -> Forall (fun c => is_white_space c = true) s.
Proof.
  unfold trim, trimEnd. intros H.
  apply (f_equal (@rev N)) in H. rewrite rev_involutive in H. simpl in H.
  apply trimStart_nil in H. apply Forall_rev in H.
  rewrite rev_involutive in H.
  destruct (trimStart_split s) as (pre & Hs & Hp).
  rewrite Hs. now apply Forall_app.
Qed.

Lemma split_nonempty (sep : N) (s : jsstring) : Prompt.split sep s <> [].
Proof.
  induction s as [|c s IH]; simpl; [discriminate|].
  destruct (c =? sep); [discriminate|].
  destruct (Prompt.split sep s); discriminate.
Qed.

Lemma join_cons (sep x : jsstring) (l : list jsstring) :
  l <> [] -> join sep (x :: l) = x ++ sep ++ join sep l.
Proof. destruct l; [contradiction | reflexivity]. Qed.

Lemma join_split (sep : N) (s : jsstring) :
  join [sep] (Prompt.split sep s) = s.
Proof.
  induction s as [|c s IH]; simpl; [reflexivity|].
  destruct (c =? sep) eqn:Hc.
  - apply N.eqb_eq in Hc. subst c.
    rewrite join_cons by apply split_nonempty. simpl. now rewrite IH.
  - pose proof (split_nonempty sep s) as Hne.
    destruct (Prompt.split sep s) as [|line lines]; [contradiction|].
    destruct lines as [|l2 lines]; simpl in *; now rewrite <- IH.
Qed.

Section Lines.

Variable g : jsstring -> jsstring.
Variable sep : jsstring.

Lemma join_map_length (lines : list jsstring) :
  (forall l, length (g l) <= length l)%nat ->
  (length (join sep (map g lines)) <= length (join sep lines))%nat.
Proof.
  intros Hg. induction lines as [|x [|y lines] IH]; simpl in *.
  - lia.
  - apply Hg.
  - rewrite !length_app. specialize (Hg x). lia.
Qed.

Lemma join_map_filter (f : N -> bool) (lines : list jsstring) :
  (forall l, List.filter f (g l) = List.filter f l) ->
  List.filter f (join sep (map g lines)) = List.filter f (join sep lines).
Proof.
  intros Hg. induction lines as [|x [|y lines] IH]; simpl in *.
  - reflexivity.
  - apply Hg.
  - rewrite !List.filter_app, Hg. now rewrite IH.
Qed.

Lemma join_map_Forall (Q : N -> Prop) (lines : list jsstring) :
  (forall l, Forall Q l -> Forall Q (g l)) ->
  Forall Q (join sep lines) -> Forall Q (join sep (map g lines)).
Proof.
  intros Hg. induction lines as [|x [|y lines] IH]; simpl in *.
  - auto.
  - apply Hg.
  - intros H. apply Forall_app in H as [Hx H].
    apply Forall_app in H as [Hsep H].
    apply Forall_app. split; [now apply Hg|].
    apply Forall_app. split; [assumption | now apply IH].
Qed.

End Lines.

(** *** Sanitizing *)

Lemma white_space_invisible (c : N) :
  is_white_space c = true -> Prompt.visible c = false.
Proof. unfold Prompt.visible. now intros ->. Qed.

Lemma over_Chr (P : N -> Prop) (a : N) : P a -> Prompt.over P (Chr a).
Proof. intros H c Hc. apply N.eqb_eq in Hc. now subst. Qed.

Lemma over_Lit (P : N -> Prop) (w : jsstring) :
  Forall P w -> Prompt.over P (Lit w).
Proof.
  induction 1 as [|a w Ha _ IH]; [exact I|].
  split; [now apply over_Chr | exact IH].
Qed.

Lemma over_blank_lines :
  Prompt.over (fun c => Prompt.visible c = false) Prompt.blank_lines.
Proof.
  unfold Prompt.blank_lines, Prompt.white_space.
  repeat (apply conj); try (now apply over_Chr);
    exact white_space_invisible.
Qed.

Lemma over_blanks :
  Prompt.over (fun c => Prompt.visible c = false) Prompt.blanks.
Proof.
  unfold Prompt.blanks, Plus.
  split; intros c Hc; apply orb_true_iff in Hc as [Hc|Hc];
    apply N.eqb_eq in Hc; now subst.
Qed.

Lemma replace_visible (r : regex) (rep s : jsstring) :
  (1 <= Prompt.min_len r)%nat ->
  Prompt.over (fun c => Prompt.visible c = false) r ->
  List.filter Prompt.visible rep = [] ->
  List.filter Prompt.visible (Prompt.replace r rep s)
  = List.filter Prompt.visible s.
Proof.
  intros Hmin Hover Hrep.
  apply (replaced_filter r rep Prompt.visible s _ Hover Hrep).
  now apply replace_replaced.
Qed.

Lemma replace_length (r : regex) (rep s : jsstring) :
  (1 <= Prompt.min_len r)%nat ->
  (length rep <= Prompt.min_len r)%nat ->
  (length (Prompt.replace r rep s) <= length s)%nat.
Proof.
  intros Hmin Hrep.
  apply (replaced_length r rep s _ Hrep). now apply replace_replaced.
Qed.

Lemma sanitizeContent_visible (content : jsstring) :
  List.filter Prompt.visible (Prompt.sanitizeContent content)
  = List.filter Prompt.visible content
  /\ (length (Prompt.sanitizeContent content) <= length content)%nat.
Proof.
  unfold Prompt.sanitizeContent. cbv zeta. split.
  - rewrite trim_filter by apply white_space_invisible.
    rewrite (join_map_filter trim [10] Prompt.visible)
      by (intros l; apply trim_filter, white_space_invisible).
    rewrite join_split.
    rewrite replace_visible;
      [|simpl; lia | apply over_blanks | reflexivity].
    rewrite replace_visible;
      [|simpl; lia | apply over_blank_lines | reflexivity].
    rewrite replace_visible;
      [|simpl; lia | now apply over_Chr | reflexivity].
    rewrite replace_visible;
      [|simpl; lia | apply over_Lit; now repeat constructor | reflexivity].
    apply replace_visible; [simpl; lia | now apply over_Chr | reflexivity].
  - etransitivity; [apply trim_length|].
    etransitivity;
      [apply (join_map_length trim [10]); intros l; apply trim_length|].
    rewrite join_split.
    etransitivity; [apply replace_length; simpl; lia|].
    etransitivity; [apply replace_length; simpl; lia|].
    etransitivity; [apply replace_length; simpl; lia|].
    etransitivity; [apply replace_length; simpl; lia|].
    apply replace_length; simpl; lia.
Qed.

(** X9.  [sanitizeContent] removes and inserts nothing but white space and
    NUL: the other characters of the result are those of the content, in
    their order; and the result is not longer than the content. *)
Theorem sanitizing_keeps_the_visible_text (content : jsstring) :
  List.filter Prompt.visible (Prompt.sanitizeContent content)
  = List.filter Prompt.visible content
  /\ (length (Prompt.sanitizeContent content) <= length content)%nat.
Proof. apply sanitizeContent_visible. Qed.

Lemma replace_Forall_input (Q : N -> Prop) (r : regex) (rep s : jsstring) :
  (1 <= Prompt.min_len r)%nat ->
  Forall Q rep -> Forall Q s -> Forall Q (Prompt.replace r rep s).
Proof.
  intros Hmin Hrep Hs.
  apply (replaced_Forall_input r rep Q s _ (replace_replaced r rep Hmin s)
           Hrep Hs).
Qed.

Lemma replace_Forall_copied (Q : N -> Prop) (r : regex) (rep s : jsstring) :
  (1 <= Prompt.min_len r)%nat ->
  Forall Q rep ->
  Forall (fun c => forall s', Prompt.exec r (c :: s') = None -> Q c) s ->
  Forall Q (Prompt.replace r rep s).
Proof.
  intros Hmin Hrep Hs.
  apply (replaced_Forall r rep Q s _ (replace_replaced r rep Hmin s)
           Hrep Hs).
Qed.

(** X10.  The text that [sanitizeContent] returns holds no NUL, no carriage
    return and no tab. *)
Theorem sanitized_text_is_clean (content : jsstring) :
  Forall (fun c => c <> 0 /\ c <> 13 /\ c <> 9)
    (Prompt.sanitizeContent content).
Proof.
  unfold Prompt.sanitizeContent. cbv zeta.
  set (s1 := Prompt.replace (Chr 0) [] content).
  set (s2 := Prompt.replace (Lit [13; 10]) [10] s1).
  set (s3 := Prompt.replace (Chr 13) [10] s2).
  set (s4 := Prompt.replace Prompt.blank_lines [10; 10] s3).
  set (s5 := Prompt.replace Prompt.blanks [32] s4).
  assert (H1 : Forall (fun c => c <> 0) s1).
  { apply replace_Forall_copied; [simpl; lia | constructor |].
    apply Forall_forall. intros c _ s' He. now apply exec_Chr_None in He. }
  assert (H2 : Forall (fun c => c <> 0) s2).
  { apply replace_Forall_input;
      [simpl; lia | repeat constructor; lia | exact H1]. }
  assert (H3 : Forall (fun c => c <> 0 /\ c <> 13) s3).
  { apply replace_Forall_copied; [simpl; lia | repeat constructor; lia |].
    eapply Forall_impl; [exact H2|].
    intros c Hc s' He. apply exec_Chr_None in He. auto. }
  assert (H4 : Forall (fun c => c <> 0 /\ c <> 13) s4).
  { apply replace_Forall_input;
      [simpl; lia | repeat constructor; lia | exact H3]. }
  assert (H5 : Forall (fun c => c <> 0 /\ c <> 13 /\ c <> 9) s5).
  { apply replace_Forall_copied; [simpl; lia | repeat constructor; lia |].
    eapply Forall_impl; [exact H4|].
    intros c [? ?] s' He. apply exec_blanks_None in He. tauto. }
  apply trim_Forall.
  apply (join_map_Forall trim [10]); [intros l; apply trim_Forall|].
  now rewrite join_split.
Qed.

(** *** Prompts *)

Lemma In_includes_singleton (s : jsstring) (c : N) :
  In c s -> includes s [c] = true.
Proof.
  induction s as [|d s IH]; intros H; [destruct H|].
  change (includes (d :: s) [c])
    with ((c =? d) && startsWith s [] || includes s [c]).
  destruct H as [->|H].
  - rewrite N.eqb_refl. now destruct s.
  - rewrite (IH H). apply orb_true_r.
Qed.

Lemma trim_head (s : jsstring) (c : N) (t : jsstring) :
  trim s = c :: t -> is_white_space c = false.
Proof.
  unfold trim. intros H.
  destruct (trimEnd_split (trimStart s)) as (suf & Hs & _).
  rewrite H in Hs. simpl in Hs. now apply trimStart_head in Hs.
Qed.

Lemma trim_visible_nonempty (s : jsstring) :
  List.filter Prompt.visible s <> [] -> trim s <> [].
Proof.
  intros H Ht. apply H. apply trim_nil in Ht.
  apply filter_none. eapply Forall_impl; [exact Ht|].
  apply white_space_invisible.
Qed.

(** What is left of a trimmed, non-empty text without NUL after
    sanitizing is not blank. *)
Lemma sanitized_not_blank (raw : jsstring) :
  trim raw <> [] ->
  includes (trim raw) [0] = false ->
  trim (Prompt.sanitizeContent (trim raw)) <> [].
Proof.
  intros Hne Hnul. apply trim_visible_nonempty.
  rewrite (proj1 (sanitizeContent_visible (trim raw))).
  destruct (trim raw) as [|c t] eqn:Ht; [contradiction|].
  simpl. replace (Prompt.visible c) with true; [discriminate|].
  symmetry. unfold Prompt.visible.
  rewrite (trim_head raw c t Ht). simpl.
  apply negb_true_iff, N.eqb_neq. intros ->.
  rewrite In_includes_singleton in Hnul by now left. discriminate.
Qed.

Lemma instruction_head (contentType : ContentType) :
  exists c t, Prompt.instruction contentType = c :: t
              /\ Prompt.visible c = true.
Proof.
  destruct contentType; eexists _, _; split; reflexivity.
Qed.

Lemma prompt_not_blank (contentType : ContentType) (content : jsstring) :
  is_empty (Prompt.instruction contentType ++ content)
  || (length (trim (Prompt.instruction contentType ++ content)) =? 0)%nat
  = false.
Proof.
  destruct (instruction_head contentType) as (c & t & -> & Hc).
  simpl. apply Nat.eqb_neq. intros Hz.
  apply length_zero_iff_nil in Hz. revert Hz.
  change (trim (c :: t ++ content) <> []).
  apply trim_visible_nonempty. simpl. rewrite Hc. discriminate.
Qed.

Lemma processed_text (changeEvent : Monitor.ChangeEvent) :
  let raw := Monitor.newValue changeEvent in
  match Prompt.processAndValidateClipboardText changeEvent with
  | Return processed =>
      (3 <= length (trim raw))%nat
      /\ (Z.of_nat (length (trim raw)) <= 10000)%Z
      /\ Prompt.isUnsupportedFormat (trim raw) = false
      /\ processed
         = Prompt.mkProcessedText raw (Prompt.sanitizeContent (trim raw))
             (Monitor.type changeEvent)
             (length (Prompt.sanitizeContent (trim raw))) true true
      /\ trim (Prompt.sanitizeContent (trim raw)) <> []
  | Throw e =>
      In (message e) Prompt.rejections
      /\ ((3 <= length (trim raw))%nat ->
          (Z.of_nat (length (trim raw)) <= 10000)%Z ->
          Prompt.isUnsupportedFormat (trim raw) = true
          /\ e = new_Error (js "Unsupported clipboard format detected"))
  end.
Proof.
  cbv zeta. unfold Prompt.processAndValidateClipboardText.
  set (raw := Monitor.newValue changeEvent).
  assert (Hraw : is_empty raw = true -> trim raw = []).
  { destruct raw; [reflexivity | discriminate]. }
  destruct (is_empty raw) eqn:Hr.
  { rewrite (Hraw eq_refl). simpl. split; [now left | lia]. }
  destruct (is_empty (trim raw)) eqn:Ht.
  { destruct (trim raw); [|discriminate]. simpl.
    split; [right; now left | lia]. }
  destruct (Nat.ltb_spec (length (trim raw)) 3).
  { simpl. split; [do 2 right; now left | lia]. }
  destruct (Z.ltb_spec 10000 (Z.of_nat (length (trim raw)))).
  { simpl. split; [do 3 right; now left | lia]. }
  destruct (Prompt.isUnsupportedFormat (trim raw)) eqn:Hu.
  { simpl. split; [do 4 right; now left | auto]. }
  assert (Hne : trim raw <> []) by (destruct (trim raw); [discriminate | easy]).
  assert (Hnul : includes (trim raw) [0] = false).
  { unfold Prompt.isUnsupportedFormat in Hu.
    destruct (includes (trim raw) [0]); [discriminate | reflexivity]. }
  pose proof (sanitized_not_blank raw Hne Hnul) as Hs.
  assert (Hcheck : is_empty (Prompt.sanitizeContent (trim raw))
                   || (length (trim (Prompt.sanitizeContent (trim raw)))
                       =? 0)%nat = false).
  { apply orb_false_iff. split.
    - destruct (Prompt.sanitizeContent (trim raw)); [|reflexivity].
      now contradiction Hs.
    - apply Nat.eqb_neq. intros Hz. now apply length_zero_iff_nil in Hz. }
  rewrite Hcheck. repeat split; auto.
Qed.

Lemma rejections_generation_failed (e : JsError) :
  In (message e) Prompt.rejections ->
  Prompt.getErrorType e = js "generation-failed".
Proof.
  unfold Prompt.getErrorType, Prompt.rejections. cbn [In].
  intros H.
  repeat (destruct H as [<- | H]; [vm_compute; reflexivity|]).
  destruct H.
Qed.

(** X11.  The test [!prompt || prompt.trim().length === 0] that
    [handleClipboardChange] applies to the prompt never fires, and neither
    does the test after sanitization in [processAndValidateClipboardText]:
    [createPromptFromClipboard] either returns the instruction for the type
    of the content followed by the sanitized text, which is not blank and
    has at most 10000 characters, or throws one of five errors, each of
    which [getErrorType] reports as [generation-failed]. *)
Theorem prompt_is_never_blank (changeEvent : Monitor.ChangeEvent) :
  let content :=
    Prompt.sanitizeContent (trim (Monitor.newValue changeEvent)) in
  Prompt.checked_prompt changeEvent
  = Prompt.createPromptFromClipboard changeEvent
  /\ match Prompt.createPromptFromClipboard changeEvent with
     | Return prompt =>
         prompt = Prompt.instruction (Monitor.type changeEvent) ++ content
         /\ trim content <> []
         /\ (Z.of_nat (length content) <= 10000)%Z
     | Throw e =>
         In (message e) Prompt.rejections
         /\ Prompt.getErrorType e = js "generation-failed"
     end.
Proof.
  cbv zeta. unfold Prompt.checked_prompt, Prompt.createPromptFromClipboard.
  pose proof (processed_text changeEvent) as H. cbv zeta in H.
  destruct (Prompt.processAndValidateClipboardText changeEvent)
    as [processed|e].
  - destruct H as (_ & Hlen & _ & -> & Hne). cbn [Prompt.processedContent
      Prompt.contentType]. cbv zeta.
    rewrite prompt_not_blank. repeat split; auto.
    pose proof (proj2 (sanitizeContent_visible
                         (trim (Monitor.newValue changeEvent)))).
    lia.
  - split; [reflexivity|]. destruct H as [H _]. split; [exact H|].
    now apply rejections_generation_failed.
Qed.

(** X12.  For a change that [isValidClipboardChange] of the monitor has
    accepted, the emptiness and length tests of
    [processAndValidateClipboardText] are dead: the prompt fails to be built
    only with [Unsupported clipboard format detected], exactly when
    [isUnsupportedFormat] holds of the trimmed text, and is otherwise the
    instruction followed by the sanitized text. *)
Theorem monitored_text_fails_only_on_format
  (changeEvent : Monitor.ChangeEvent) (oldValue : jsstring) :
  isValidClipboardChange (Monitor.newValue changeEvent) oldValue = true ->
  let text := trim (Monitor.newValue changeEvent) in
  Prompt.createPromptFromClipboard changeEvent
  = if Prompt.isUnsupportedFormat text
    then Throw (new_Error (js "Unsupported clipboard format detected"))
    else Return (Prompt.instruction (Monitor.type changeEvent)
                 ++ Prompt.sanitizeContent text).
Proof.
  intros Hvalid. cbv zeta.
  unfold isValidClipboardChange in Hvalid.
  destruct (_ && _); [discriminate|].
  destruct (Nat.ltb_spec (length (trim (Monitor.newValue changeEvent))) 3);
    [discriminate|].
  destruct (Z.ltb_spec 10000
              (Z.of_nat (length (Monitor.newValue changeEvent))));
    [discriminate|].
  clear Hvalid.
  pose proof (trim_length (Monitor.newValue changeEvent)) as Hlen.
  unfold Prompt.createPromptFromClipboard.
  pose proof (processed_text changeEvent) as Hp. cbv zeta in Hp.
  destruct (Prompt.processAndValidateClipboardText changeEvent)
    as [processed|e].
  - destruct Hp as (_ & _ & -> & -> & _). reflexivity.
  - destruct Hp as (_ & Hp). destruct Hp as [-> ->]; [lia | lia | reflexivity].
Qed.

Lemma monitored_text_fails_only_on_format_witness :
  isValidClipboardChange (Monitor.newValue Orchestrator.link_copied) []
  = true
  /\ Prompt.createPromptFromClipboard Orchestrator.link_copied
     = Return (js "This appears to be a URL. Please provide a brief description of what this link might contain:"
               ++ [10; 10] ++ js "https://example.com").
Proof.
  assert (H : isValidClipboardChange
                (Monitor.newValue Orchestrator.link_copied) [] = true)
    by (vm_compute; reflexivity).
  split; [exact H|].
  rewrite (monitored_text_fails_only_on_format Orchestrator.link_copied [] H).
  vm_compute. reflexivity.
Defined.


(** ** The brace scanner of the Gemini client *)

Lemma scan_char_objects (st : Gemini.Scanner) (char : N) :
  exists found,
    Gemini.objects (Gemini.scan_char st char) = Gemini.objects st ++ found
    /\ (length found <= 1)%nat.
Proof.
  unfold Gemini.scan_char.
  destruct (Gemini.escapeNext st); [exists []; split; [now rewrite app_nil_r | simpl; lia]|].
  destruct (char =? 92); [exists []; split; [now rewrite app_nil_r | simpl; lia]|].
  cbv zeta.
  destruct (_ && _); [|exists []; split; [now rewrite app_nil_r | simpl; lia]].
  destruct (JSON_parse _) as [parsed|e]; cbn [Gemini.objects].
  - exists [parsed]. auto.
  - exists []. split; [now rewrite app_nil_r | simpl; lia].
Qed.

Lemma scan_objects (buffer : jsstring) :
  forall st, exists found,
    Gemini.objects (fold_left Gemini.scan_char buffer st)
    = Gemini.objects st ++ found
    /\ (length found <= length buffer)%nat.
Proof.
  induction buffer as [|char buffer IH]; intros st; simpl.
  - exists []. split; [now rewrite app_nil_r | simpl; lia].
  - destruct (IH (Gemini.scan_char st char)) as (later & -> & Hl).
    destruct (scan_char_objects st char) as (found & -> & Hf).
    exists (found ++ later). rewrite app_assoc, length_app.
    split; [reflexivity | lia].
Qed.

(** X13.  [parseStreamingJSON] of the Gemini client is monotone in its
    buffer: the objects found in a buffer are found again, first and in the
    same order, once more characters have arrived; the characters that
    arrived add at most one object each, and a buffer holds at most one
    object per character. *)
Theorem scanned_objects_stay_when_bytes_arrive (buffer more : jsstring) :
  exists later,
    Gemini.parseStreamingJSON (buffer ++ more)
    = Gemini.parseStreamingJSON buffer ++ later
    /\ (length later <= length more)%nat
    /\ (length (Gemini.parseStreamingJSON buffer) <= length buffer)%nat.
Proof.
  unfold Gemini.parseStreamingJSON. rewrite fold_left_app.
  destruct (scan_objects more
              (fold_left Gemini.scan_char buffer
                 (Gemini.mkScanner [] [] 0 false false)))
    as (later & -> & Hl).
  exists later. split; [reflexivity|]. split; [exact Hl|].
  destruct (scan_objects buffer (Gemini.mkScanner [] [] 0 false false))
    as (found & -> & Hf).
  exact Hf.
Qed.


(** ** The streaming reader of the Ollama client *)

Module OS := OllamaStream.

Section OllamaStreaming.

Variable Number_toString : jsstring -> jsstring.

Let extends := OS.extends Number_toString.

Lemma str_eqb_refl (a : jsstring) : str_eqb a a = true.
Proof. unfold str_eqb. now apply bool_decide_eq_true. Qed.

Lemma accumulates_app text log1 log2 text1 :
  OS.accumulates Number_toString text log1 = Some text1 ->
  OS.accumulates Number_toString text (log1 ++ log2)
  = OS.accumulates Number_toString text1 log2.
Proof.
  revert text. induction log1 as [|ev log1 IH]; intros text; simpl.
  - now intros [= ->].
  - destruct ev; try apply IH; destruct (str_eqb _ _); try discriminate;
      apply IH.
Qed.

#[local] Instance extends_refl : Reflexive extends.
Proof. intros s. exists []. split; [now rewrite app_nil_r | reflexivity]. Qed.

#[local] Instance extends_trans : Transitive extends.
Proof.
  intros s1 s2 s3 (l1 & H1 & A1) (l2 & H2 & A2).
  exists (l1 ++ l2). split; [now rewrite H2, H1, app_assoc|].
  now rewrite (accumulates_app _ _ _ _ A1).
Qed.

(** What one line does: the text grows by the tokens emitted, and the loop
    is left exactly when the reader has been marked complete. *)
Lemma read_line_run (line : jsstring) (s : OS.Reader) :
  OS.isComplete s = false ->
  exists s1 left_loop,
    try_catch (OS.read_line Number_toString line) (fun _ => ret false) s
    = (s1, Value left_loop)
    /\ OS.isComplete s1 = left_loop
    /\ OS.currentModel s1 = OS.currentModel s
    /\ OS.errorListener s1 = OS.errorListener s
    /\ extends s s1.
Proof.
  intros Hc. unfold OS.read_line, OS.emit. run_effects.
  destruct (JSON_parse line) as [data|e]; simpl.
  2:{ exists s, false. repeat split; auto. reflexivity. }
  destruct data as [| | | | |fields]; simpl;
    try (exists s, false; repeat split; auto; reflexivity).
  assert (Htoken : forall token done,
            extends s
              (OS.push_event
                 (OS.TokenReceived token
                    (OS.fullResponse s ++ to_string Number_toString token)
                    done)
                 (OS.set_fullResponse
                    (OS.fullResponse s ++ to_string Number_toString token)
                    s))).
  { intros token done. eexists [_]. split; [reflexivity|].
    simpl. now rewrite str_eqb_refl. }
  assert (Hdone : forall s0 model usage,
            extends s0
              (OS.push_event
                 (OS.GenerationCompleted (OS.fullResponse s0) model usage)
                 (OS.set_isComplete true s0))).
  { intros s0 model usage. eexists [_]. split; [reflexivity|].
    simpl. now rewrite str_eqb_refl. }
  destruct (lookup_field (js "response") fields) as [token|]; simpl.
  - destruct (truthy (Some token)); simpl.
    + destruct (truthy (lookup_field (js "done") fields)); simpl.
      * eexists _, true. repeat split.
        etransitivity; [apply Htoken | apply Hdone].
      * eexists _, false. repeat split; auto.
    + destruct (truthy (lookup_field (js "done") fields)); simpl.
      * eexists _, true. repeat split. apply Hdone.
      * exists s, false. repeat split; auto. reflexivity.
  - destruct (truthy (lookup_field (js "done") fields)); simpl.
    + eexists _, true. repeat split. apply Hdone.
    + exists s, false. repeat split; auto. reflexivity.
Qed.

Lemma read_lines_run (lines : list jsstring) :
  forall s, OS.isComplete s = false ->
    exists s1,
      OS.read_lines Number_toString lines s = (s1, Value tt)
      /\ OS.currentModel s1 = OS.currentModel s
      /\ OS.errorListener s1 = OS.errorListener s
      /\ extends s s1.
Proof.
  induction lines as [|line lines IH]; intros s Hc.
  - exists s. repeat split. reflexivity.
  - cbn [OS.read_lines]. rewrite bind_run.
    destruct (read_line_run line s Hc)
      as (s1 & left_loop & -> & Hl & Hm & He & Hx).
    destruct left_loop.
    + exists s1. auto.
    + destruct (IH s1 Hl) as (s2 & -> & Hm2 & He2 & Hx2).
      exists s2. repeat split; try congruence.
      etransitivity; eassumption.
Qed.




Lemma split_app_sep (sep : N) (x y : jsstring) :
  Prompt.split sep (x ++ sep :: y) = Prompt.split sep x ++ Prompt.split sep y.
Proof.
  induction x as [|c x IH]; simpl.
  - now rewrite N.eqb_refl.
  - destruct (c =? sep); [now rewrite IH|].
    rewrite IH.
    pose proof (split_nonempty sep x) as Hne.
    destruct (Prompt.split sep x); [contradiction | reflexivity].
Qed.

Lemma lines_of_app (x y : jsstring) :
  OS.lines_of (x ++ 10 :: y) = OS.lines_of x ++ OS.lines_of y.
Proof.
  unfold OS.lines_of. now rewrite split_app_sep, List.filter_app.
Qed.

Lemma lines_of_line_end (x : jsstring) :
  OS.lines_of (x ++ [10]) = OS.lines_of x.
Proof. rewrite lines_of_app. apply app_nil_r. Qed.

Lemma read_lines_app (lines1 lines2 : list jsstring) :
  forall s, OS.isComplete s = false ->
    OS.read_lines Number_toString (lines1 ++ lines2) s
    = let s1 := fst (OS.read_lines Number_toString lines1 s) in
      if OS.isComplete s1 then (s1, Value tt)
      else OS.read_lines Number_toString lines2 s1.
Proof.
  induction lines1 as [|line lines1 IH]; intros s Hc; cbv zeta.
  - simpl. now rewrite Hc.
  - cbn [app OS.read_lines]. rewrite !bind_run.
    destruct (read_line_run line s Hc)
      as (s1 & left_loop & -> & Hl & _).
    destruct left_loop; cbv beta iota; cbn [fst].
    + change (ret () s1) with (s1, @Value unit ()). cbn [fst].
      now rewrite Hl.
    + now apply IH.
Qed.

Lemma read_loop_joined (first second : jsstring) (rest : list jsstring)
  (read_error : option JsError) (s : OS.Reader) :
  OS.read_loop Number_toString ((first ++ [10]) :: second :: rest)
    read_error s
  = OS.read_loop Number_toString ((first ++ [10] ++ second) :: rest)
      read_error s.
Proof.
  cbn [OS.read_loop]. rewrite !bind_run. unfold get.
  destruct (OS.isComplete s) eqn:Hc; [reflexivity|].
  rewrite !bind_run.
  change (first ++ [10] ++ second) with (first ++ 10 :: second).
  rewrite (lines_of_app first second), (lines_of_line_end first).
  rewrite (read_lines_app _ _ s Hc). cbv zeta.
  destruct (read_lines_run (OS.lines_of first) s Hc) as (s1 & Hrun & _).
  rewrite Hrun. cbn [fst]. rewrite bind_run.
  destruct (OS.isComplete s1) eqn:Hc1; [|reflexivity].
  destruct rest; cbn [OS.read_loop]; rewrite !bind_run; unfold get;
    now rewrite Hc1.
Qed.

End OllamaStreaming.



(** X15.  Where one chunk of an Ollama stream ends with a line feed, it
    makes no difference whether the next chunk arrives apart or joined to
    it: events, result and state are the same. *)
Theorem ollama_chunks_may_be_joined_at_line_ends
  (Number_toString : jsstring -> jsstring) (first second : jsstring)
  (rest : list jsstring) (read_error : option JsError) (s : OS.Reader) :
  OS.handleStreamingResponse Number_toString
    (Gemini.mkStream ((first ++ [10]) :: second :: rest) read_error) s
  = OS.handleStreamingResponse Number_toString
      (Gemini.mkStream ((first ++ [10] ++ second) :: rest) read_error) s.
Proof.
  unfold OS.handleStreamingResponse.
  rewrite !bind_run. unfold modify, try_catch.
  rewrite !bind_run. cbn [Gemini.chunks Gemini.read_error].
  now rewrite read_loop_joined.
Qed.


(** ** Backend clients: refusals and recoveries *)

Section OllamaRecovery.

Variable Body : Type.
Variable network : nat -> completion (HttpResponse Body).
Variables streaming plain : Body -> M Ollama.Service GenerationResult.
Variable model : jsstring.
Variable stream : bool.

Let loop := Ollama.request_loop Body network streaming plain.

Let ollama_handle := ollama_handles streaming plain stream.

Lemma ollama_step_success fuel maxR rc s resp :
  (rc <= maxR)%nat ->
  network (Ollama.requests s) = Return resp ->
  ok resp = true ->
  loop (S fuel) model stream maxR rc s
  = ollama_handle resp (Ollama.count_request s).
Proof.
  intros Hrc Hnet Hok. unfold loop, ollama_handle, ollama_handles. simpl.
  replace (rc <=? maxR)%nat with true by (symmetry; apply Nat.leb_le; lia).
  unfold Ollama.fetch_generate. run_effects. simpl.
  rewrite Hnet. simpl. rewrite Hok. reflexivity.
Qed.

Lemma ollama_loop_recovers maxR resp :
  forall earlier fuel rc s,
    (rc + earlier <= maxR)%nat ->
    (earlier < fuel)%nat ->
    Ollama.errorListener s = true ->
    fails_transiently network Ollama.permanent (Ollama.requests s) earlier ->
    network (Ollama.requests s + earlier) = Return resp ->
    ok resp = true ->
    exists s1,
      loop fuel model stream maxR rc s = ollama_handle resp s1
      /\ Ollama.requests s1 = (Ollama.requests s + S earlier)%nat
      /\ Ollama.sleeps s1
         = Ollama.sleeps s ++ backoff_delays (Ollama.retryDelay s) rc earlier.
Proof.
  induction earlier as [|earlier IH];
    intros fuel rc s Hsum Hfuel HL Hnet Hresp Hok.
  - destruct fuel as [|fuel]; [lia|].
    rewrite Nat.add_0_r in Hresp.
    exists (Ollama.count_request s).
    split; [apply ollama_step_success; auto; lia|]. simpl. split; [lia|].
    unfold backoff_delays. simpl. now rewrite app_nil_r.
  - destruct fuel as [|fuel]; [lia|].
    destruct (Hnet 0%nat) as (e' & He' & Hp'); [lia|].
    rewrite Nat.add_0_r in He'.
    unfold loop in *.
    destruct (ollama_step_retry Body network streaming plain model stream
                fuel maxR rc s e' HL) as
      (s1 & -> & (Hreq & HL1 & Hd & _) & Hsl); [lia | assumption | assumption |].
    destruct (IH fuel (S rc) s1) as (s2 & -> & Hreq2 & Hsl2);
      [lia | lia | congruence | | | assumption |].
    { intros k Hk. rewrite Hreq.
      replace (S (Ollama.requests s) + k)%nat
        with (Ollama.requests s + S k)%nat by lia.
      apply Hnet. lia. }
    { rewrite Hreq.
      now replace (S (Ollama.requests s) + earlier)%nat
        with (Ollama.requests s + S earlier)%nat by lia. }
    exists s2. split; [reflexivity|]. split; [lia|].
    rewrite Hsl2, Hsl, Hd. unfold backoff_delays. simpl.
    now rewrite <- app_assoc.
Qed.

End OllamaRecovery.

Section GeminiRecovery.

Variable Number_toString : jsstring -> jsstring.
Variable JsonBody : Type.
Variable network :
  nat -> completion (HttpResponse (Gemini.StreamBody * JsonBody)).
Variable plain : JsonBody -> M Gemini.Service GenerationResult.
Variable stream : bool.

Let loop := Gemini.request_loop Number_toString JsonBody network plain.
Let gemini_handle := gemini_handles Number_toString plain stream.

Lemma gemini_step_success fuel maxR rc s resp :
  (rc <= maxR)%nat ->
  network (Gemini.requests s) = Return resp ->
  ok resp = true ->
  loop (S fuel) stream maxR rc s
  = gemini_handle resp (Gemini.count_request s).
Proof.
  intros Hrc Hnet Hok. unfold loop, gemini_handle, gemini_handles.
  cbn [Gemini.request_loop].
  replace (rc <=? maxR)%nat with true by (symmetry; apply Nat.leb_le; lia).
  unfold Gemini.fetch_generate. run_effects. cbv beta iota.
  rewrite Hnet. cbv beta iota. rewrite Hok. reflexivity.
Qed.

Lemma gemini_loop_recovers maxR resp :
  forall earlier fuel rc s,
    (rc + earlier <= maxR)%nat ->
    (earlier < fuel)%nat ->
    Gemini.errorListener s = true ->
    fails_transiently network Gemini.permanent (Gemini.requests s) earlier ->
    network (Gemini.requests s + earlier) = Return resp ->
    ok resp = true ->
    exists s1,
      loop fuel stream maxR rc s = gemini_handle resp s1
      /\ Gemini.requests s1 = (Gemini.requests s + S earlier)%nat
      /\ Gemini.sleeps s1
         = Gemini.sleeps s ++ backoff_delays (Gemini.retryDelay s) rc earlier
      /\ Gemini.errorListener s1 = true.
Proof.
  induction earlier as [|earlier IH];
    intros fuel rc s Hsum Hfuel HL Hnet Hresp Hok.
  - destruct fuel as [|fuel]; [lia|].
    rewrite Nat.add_0_r in Hresp.
    exists (Gemini.count_request s).
    split; [apply gemini_step_success; auto; lia|]. simpl. split; [lia|].
    split; [|exact HL].
    unfold backoff_delays. simpl. now rewrite app_nil_r.
  - destruct fuel as [|fuel]; [lia|].
    destruct (Hnet 0%nat) as (e' & He' & Hp'); [lia|].
    rewrite Nat.add_0_r in He'.
    unfold loop in *.
    destruct (gemini_step_retry Number_toString JsonBody network plain stream
                fuel maxR rc s e' HL) as
      (s1 & -> & (Hreq & HL1 & Hd & _) & Hsl); [lia | assumption | assumption |].
    destruct (IH fuel (S rc) s1) as (s2 & -> & Hreq2 & Hsl2 & HL2);
      [lia | lia | congruence | | | assumption |].
    { intros k Hk. rewrite Hreq.
      replace (S (Gemini.requests s) + k)%nat
        with (Gemini.requests s + S k)%nat by lia.
      apply Hnet. lia. }
    { rewrite Hreq.
      now replace (S (Gemini.requests s) + earlier)%nat
        with (Gemini.requests s + S earlier)%nat by lia. }
    exists s2. split; [reflexivity|]. split; [lia|].
    split; [|exact HL2].
    rewrite Hsl2, Hsl, Hd. unfold backoff_delays. simpl.
    now rewrite <- app_assoc.
Qed.

End GeminiRecovery.

(** X16.  On either client, connected, with a listener for ['error'] and
    given a prompt that is not blank: when the first [failures] requests
    fail with errors that the client does not hold to be permanent,
    [failures] being within [maxRetries], and the next request is answered
    with a response that is [ok], [generateResponse] hands that response to
    the handler chosen by [stream], after [failures + 1] requests and waits
    of [retryDelay], twice that, four times that, and so on. *)
Theorem transient_failures_are_recovered
  (Body : Type) (net_o : nat -> completion (HttpResponse Body))
  (streaming plain_o : Body -> M Ollama.Service GenerationResult)
  (Number_toString : jsstring -> jsstring) (JsonBody : Type)
  (net_g : nat -> completion (HttpResponse (Gemini.StreamBody * JsonBody)))
  (plain_g : JsonBody -> M Gemini.Service GenerationResult)
  (prompt model : jsstring) (stream : bool)
  (so : Ollama.Service) (sg : Gemini.Service)
  (failures : nat) (resp_o : HttpResponse Body)
  (resp_g : HttpResponse (Gemini.StreamBody * JsonBody)) :
  Ollama.errorListener so = true -> Ollama.isConnected so = true ->
  Gemini.errorListener sg = true -> Gemini.isConnected sg = true ->
  prompt_ok prompt ->
  (failures <= Ollama.maxRetries so)%nat ->
  (failures <= Gemini.maxRetries sg)%nat ->
  fails_transiently net_o Ollama.permanent (Ollama.requests so) failures ->
  fails_transiently net_g Gemini.permanent (Gemini.requests sg) failures ->
  net_o (Ollama.requests so + failures)%nat = Return resp_o ->
  net_g (Gemini.requests sg + failures)%nat = Return resp_g ->
  ok resp_o = true -> ok resp_g = true ->
  (exists s1,
     Ollama.generateResponse Body net_o streaming plain_o prompt model stream so
     = ollama_handles streaming plain_o stream resp_o s1
     /\ Ollama.requests s1 = (Ollama.requests so + failures + 1)%nat
     /\ Ollama.sleeps s1
        = Ollama.sleeps so ++ backoff_delays (Ollama.retryDelay so) 0 failures)
  /\ (exists s1,
        Gemini.generateResponse Number_toString JsonBody net_g plain_g prompt
          stream sg
        = gemini_handles Number_toString plain_g stream resp_g s1
        /\ Gemini.requests s1 = (Gemini.requests sg + failures + 1)%nat
        /\ Gemini.sleeps s1
           = Gemini.sleeps sg
             ++ backoff_delays (Gemini.retryDelay sg) 0 failures).
Proof.
  intros HLo HCo HLg HCg Hprompt Hfo Hfg Hno Hng Hro Hrg Hoko Hokg. split.
  - rewrite ollama_generate_enters by assumption.
    destruct (ollama_loop_recovers Body net_o streaming plain_o model stream
                (Ollama.maxRetries so) resp_o failures
                (S (Ollama.maxRetries so)) 0%nat
                (Ollama.push_event
                   (Ollama.GenerationStarted model (prompt_preview prompt)) so))
      as (s1 & Hrun & Hreq & Hsl); try assumption; try (simpl; lia).
    exists s1. split; [exact Hrun|]. simpl in Hreq, Hsl.
    split; [lia | exact Hsl].
  - rewrite gemini_generate_enters by assumption.
    destruct (gemini_loop_recovers Number_toString JsonBody net_g plain_g stream
                (Gemini.maxRetries sg) resp_g failures
                (S (Gemini.maxRetries sg)) 0%nat
                (Gemini.push_event
                   (Gemini.GenerationStarted (Gemini.currentModel sg)
                      (prompt_preview prompt)) sg))
      as (s1 & Hrun & Hreq & Hsl & _); try assumption; try (simpl; lia).
    exists s1. split; [exact Hrun|]. simpl in Hreq, Hsl.
    split; [lia | exact Hsl].
Qed.

Lemma transient_failures_are_recovered_witness :
  Ollama.errorListener Ollama.ready = true
  /\ Ollama.isConnected Ollama.ready = true
  /\ Gemini.errorListener Gemini.ready = true
  /\ Gemini.isConnected Gemini.ready = true
  /\ prompt_ok (js "Summarize this text")
  /\ (exists s1,
        Ollama.generateResponse unit (recovering 2 tt) Ollama.no_handler
          Ollama.no_handler (js "Summarize this text") (js "gpt-oss:20b")
          true Ollama.ready
        = ollama_handles Ollama.no_handler Ollama.no_handler true
            (mkResponse 200 [] tt) s1
        /\ Ollama.requests s1 = 3%nat
        /\ Ollama.sleeps s1 = [1000; 2000]%Z)
  /\ (exists s1,
        Gemini.generateResponse (fun lexeme => lexeme) unit
          (recovering 2 Gemini.no_body) Gemini.no_handler
          (js "Summarize this text") true Gemini.ready
        = gemini_handles (fun lexeme => lexeme) Gemini.no_handler true
            (mkResponse 200 [] Gemini.no_body) s1
        /\ Gemini.requests s1 = 3%nat
        /\ Gemini.sleeps s1 = [1000; 2000]%Z).
Proof.
  assert (Hp : prompt_ok (js "Summarize this text")) by reflexivity.
  assert (Ho : fails_transiently (recovering 2 tt) Ollama.permanent
                 (Ollama.requests Ollama.ready) 2).
  { intros [|[|k]] Hk; try lia; exists AbortError;
      (split; [reflexivity | vm_compute; reflexivity]). }
  assert (Hg : fails_transiently (recovering 2 Gemini.no_body)
                 Gemini.permanent (Gemini.requests Gemini.ready) 2).
  { intros [|[|k]] Hk; try lia; exists AbortError;
      (split; [reflexivity | vm_compute; reflexivity]). }
  destruct (transient_failures_are_recovered unit (recovering 2 tt)
              Ollama.no_handler Ollama.no_handler (fun lexeme => lexeme) unit
              (recovering 2 Gemini.no_body) Gemini.no_handler
              (js "Summarize this text") (js "gpt-oss:20b") true
              Ollama.ready Gemini.ready 2 (mkResponse 200 [] tt)
              (mkResponse 200 [] Gemini.no_body)
              eq_refl eq_refl eq_refl eq_refl Hp
              (proj1 (Nat.leb_le 2 3) eq_refl)
              (proj1 (Nat.leb_le 2 3) eq_refl)
              Ho Hg eq_refl eq_refl eq_refl eq_refl)
    as (Hro & Hrg).
  repeat split; try reflexivity; assumption.
Defined.

(** X17.  When the service is not connected or the prompt is blank,
    [generateResponse] of either client throws without sending a request and
    without waiting; with a listener for ['error'] attached the error says
    that the service is not connected, or else that the prompt is empty. *)
Theorem refused_requests_send_nothing
  (Body : Type) (net_o : nat -> completion (HttpResponse Body))
  (streaming plain_o : Body -> M Ollama.Service GenerationResult)
  (Number_toString : jsstring -> jsstring) (JsonBody : Type)
  (net_g : nat -> completion (HttpResponse (Gemini.StreamBody * JsonBody)))
  (plain_g : JsonBody -> M Gemini.Service GenerationResult)
  (prompt model : jsstring) (stream : bool)
  (so : Ollama.Service) (sg : Gemini.Service) :
  Ollama.isConnected so = false \/ ~ prompt_ok prompt ->
  Gemini.isConnected sg = false \/ ~ prompt_ok prompt ->
  let ro :=
    Ollama.generateResponse Body net_o streaming plain_o prompt model stream
      so in
  let rg :=
    Gemini.generateResponse Number_toString JsonBody net_g plain_g prompt
      stream sg in
  (Ollama.requests (fst ro) = Ollama.requests so
   /\ Ollama.sleeps (fst ro) = Ollama.sleeps so
   /\ exists e,
        snd ro = Raise e
        /\ (Ollama.errorListener so = true ->
            e = new_Error
                  (if Ollama.isConnected so then js "Empty prompt provided"
                   else js "Ollama service not connected")))
  /\ (Gemini.requests (fst rg) = Gemini.requests sg
      /\ Gemini.sleeps (fst rg) = Gemini.sleeps sg
      /\ exists e,
           snd rg = Raise e
           /\ (Gemini.errorListener sg = true ->
               e = new_Error
                     (if Gemini.isConnected sg then js "Empty prompt provided"
                      else js "Gemini service not connected"))).
Proof.
  intros Ho Hg. cbv zeta. unfold prompt_ok in *. split.
  - unfold Ollama.generateResponse, Ollama.emit. run_effects.
    cbv beta iota.
    destruct (Ollama.isConnected so) eqn:Hc; cbn [negb].
    + destruct Ho as [Ho|Ho]; [discriminate|].
      apply not_false_is_true in Ho. rewrite Ho.
      cbn [Ollama.is_error_event andb].
      destruct (Ollama.errorListener so); cbn [negb fst snd];
        repeat split; eexists; (split; [reflexivity|]); auto; discriminate.
    + cbn [Ollama.is_error_event andb].
      destruct (Ollama.errorListener so); cbn [negb fst snd];
        repeat split; eexists; (split; [reflexivity|]); auto; discriminate.
  - unfold Gemini.generateResponse, Gemini.emit. run_effects.
    cbv beta iota.
    destruct (Gemini.isConnected sg) eqn:Hc; cbn [negb].
    + destruct Hg as [Hg|Hg]; [discriminate|].
      apply not_false_is_true in Hg. rewrite Hg.
      cbn [Gemini.is_error_event andb].
      destruct (Gemini.errorListener sg); cbn [negb fst snd];
        repeat split; eexists; (split; [reflexivity|]); auto; discriminate.
    + cbn [Gemini.is_error_event andb].
      destruct (Gemini.errorListener sg); cbn [negb fst snd];
        repeat split; eexists; (split; [reflexivity|]); auto; discriminate.
Qed.

Lemma refused_requests_send_nothing_witness :
  ~ prompt_ok (js "   ")
  /\ Ollama.requests
       (fst (Ollama.generateResponse unit (always (Throw AbortError))
               Ollama.no_handler Ollama.no_handler (js "   ")
               (js "gpt-oss:20b") true Ollama.ready)) = 0%nat
  /\ Gemini.requests
       (fst (Gemini.generateResponse (fun lexeme => lexeme) unit
               (always (Throw AbortError)) Gemini.no_handler (js "   ") true
               Gemini.ready)) = 0%nat.
Proof.
  assert (Hp : ~ prompt_ok (js "   ")) by (vm_compute; discriminate).
  destruct (refused_requests_send_nothing unit (always (Throw AbortError))
              Ollama.no_handler Ollama.no_handler (fun lexeme => lexeme) unit
              (always (Throw AbortError)) Gemini.no_handler (js "   ")
              (js "gpt-oss:20b") true Ollama.ready Gemini.ready
              (or_intror Hp) (or_intror Hp))
    as ((Ho & _) & (Hg & _)).
  split; [exact Hp|]. split; [exact Ho | exact Hg].
Defined.


(** ** What the monitors emit *)

Lemma valid_change_accepted (newValue oldValue : jsstring) :
  isValidClipboardChange newValue oldValue = true ->
  accepted_change newValue oldValue
    (is_empty newValue || is_empty (trim newValue))
    (if is_empty newValue then 0%nat else length newValue)
    (detectContentType newValue).
Proof.
  intros Hv. pose proof Hv as Hv'. unfold isValidClipboardChange in Hv'.
  destruct (_ && _); [discriminate|].
  destruct (Nat.ltb_spec (length (trim newValue)) 3) as [|Hlen];
    [discriminate|]. clear Hv'.
  assert (Ht : is_empty (trim newValue) = false)
    by (destruct (trim newValue); [simpl in Hlen; lia | reflexivity]).
  assert (Hn : is_empty newValue = false).
  { destruct newValue; [|reflexivity]. discriminate Ht. }
  unfold accepted_change. rewrite Hn, Ht. repeat split; auto.
  unfold detectContentType. rewrite Hn, Ht. cbn [orb].
  repeat match goal with
         | |- context [if ?c then _ else _] => destruct c
         end; discriminate.
Qed.

Lemma monitor_change_grows now newValue oldValue :
  advances (Monitor.grows_by monitor_accepted)
    (Monitor.handleClipboardChange now newValue oldValue).
Proof.
  intros s. unfold Monitor.handleClipboardChange, Monitor.emit.
  run_effects. cbv beta iota.
  destruct (_ <? _)%Z; [reflexivity|].
  destruct (isValidClipboardChange newValue oldValue) eqn:Hv;
    cbn [negb]; [|reflexivity].
  cbn [Monitor.is_error_event andb fst]. eexists [_].
  split; [reflexivity|]. constructor; [|constructor].
  cbn [monitor_accepted Monitor.newValue Monitor.oldValue Monitor.isEmpty
         Monitor.length_ Monitor.type].
  now apply valid_change_accepted.
Qed.

Ltac monitor_accepts :=
  repeat first
    [ apply monitor_change_grows
    | match goal with |- forall _, _ => intro end
    | progress cbv zeta
    | apply advances_bind; try apply _
    | apply advances_try_catch; try apply _
    | apply advances_ret; try apply _
    | apply advances_mret; try apply _
    | apply advances_throw; try apply _
    | apply advances_get; try apply _
    | apply advances_lift; try apply _
    | apply monitor_silent; intros; reflexivity
    | apply monitor_emit_grows; exact I
    | match goal with
      | |- advances _ (if ?c then _ else _) => destruct c
      | |- advances _ (match ?c with _ => _ end) => destruct c
      end ].

Lemma monitor_poll_accepts now readText now_change now_optimize :
  advances (Monitor.grows_by monitor_accepted)
    (Monitor.pollClipboard now readText now_change now_optimize).
Proof.
  unfold Monitor.pollClipboard, Monitor.handlePollingError,
    Monitor.optimizePolling, Monitor.stopMonitoring.
  monitor_accepts.
Qed.

Lemma Forall_filtered {A : Type} (P Q : A -> Prop)
  `{forall x, Decision (Q x)} (l : list A) :
  Forall P l -> Forall P (filter Q l).
Proof.
  induction 1 as [|x l Hx _ IH]; [constructor|].
  rewrite filter_cons. destruct (decide (Q x)); auto.
Qed.

Section AdaptiveAccepts.

Context {double : Type}.
Variables times_1_5 times_0_8 times_0_7 : double -> double.
Variables fmin fmax : double -> double -> double.
Variable differs_by_more_than_100 : double -> double -> bool.
Variable fdiv : Z -> nat -> double.

Let Mon := AM.Monitor double.

#[local] Instance settles_refl : Reflexive (@settles double).
Proof.
  intros s H. split; [exact H|]. exists [].
  split; [now rewrite app_nil_r | constructor].
Qed.

#[local] Instance settles_trans : Transitive (@settles double).
Proof.
  intros s1 s2 s3 H12 H23 H1.
  destruct (H12 H1) as (H2 & e1 & E1 & F1).
  destruct (H23 H2) as (H3 & e2 & E2 & F2).
  split; [exact H3|]. exists (e1 ++ e2). split.
  - now rewrite E2, E1, app_assoc.
  - now apply Forall_app.
Qed.

Lemma settles_silent (f : Mon -> Mon) :
  (forall s, AM.emitted (f s) = AM.emitted s) ->
  (forall s, AM.timers (f s) = AM.timers s) ->
  advances settles (modify f).
Proof.
  intros He Ht s H. cbn [modify fst]. split.
  - unfold pending_valid. now rewrite Ht.
  - exists []. split; [now rewrite app_nil_r, He | constructor].
Qed.

Lemma settles_emit (ev : AM.Event double) :
  adaptive_accepted ev -> advances settles (AM.emit ev).
Proof.
  intros Hev s H. unfold AM.emit.
  destruct (_ && _); cbn [fst]; [now apply settles_refl|].
  split; [exact H|]. exists [ev].
  split; [reflexivity | now repeat constructor].
Qed.

Lemma settles_clearTimeout (id : nat) :
  advances settles (AM.clearTimeout (double := double) id).
Proof.
  intros s H. unfold AM.clearTimeout. cbn [modify fst]. split.
  - unfold pending_valid in *. cbn. now apply Forall_filtered.
  - exists []. split; [now rewrite app_nil_r | constructor].
Qed.

Lemma settles_setTimeout (closure : AM.Debounced) :
  isValidClipboardChange (AM.d_newValue closure) (AM.d_oldValue closure)
  = true ->
  advances settles (AM.setTimeout (double := double) closure).
Proof.
  intros Hv s H. unfold AM.setTimeout. run_effects. cbn. split.
  - unfold pending_valid in *. cbn. apply Forall_app. split; [exact H|].
    now repeat constructor.
  - exists []. split; [now rewrite app_nil_r | constructor].
Qed.
Ltac settle :=
  repeat first
    [ match goal with |- forall _, _ => intro end
    | progress cbv zeta
    | apply settles_clearTimeout
    | apply advances_bind; try apply _
    | apply advances_try_catch; try apply _
    | apply advances_ret; try apply _
    | apply advances_mret; try apply _
    | apply advances_throw; try apply _
    | apply advances_get; try apply _
    | apply advances_lift; try apply _
    | apply settles_silent; intros; reflexivity
    | apply settles_emit; exact I
    | match goal with
      | |- advances _ (if ?c then _ else _) => destruct c
      | |- advances _ (match ?c with _ => _ end) => destruct c
      end ].

Lemma settles_change now newValue oldValue :
  advances settles
    (AM.handleClipboardChange (double := double) now newValue oldValue).
Proof.
  unfold AM.handleClipboardChange.
  apply advances_bind; try apply _; [apply advances_get; apply _|].
  intros s. destruct (_ <? _)%Z; [settle|].
  destruct (isValidClipboardChange newValue oldValue) eqn:Hv; cbn [negb];
    [|settle].
  apply advances_bind; try apply _; [settle|]. intros _.
  apply advances_bind; try apply _; [now apply settles_setTimeout|].
  settle.
Qed.

Lemma settles_callback (d : AM.Debounced) :
  isValidClipboardChange (AM.d_newValue d) (AM.d_oldValue d) = true ->
  advances settles (AM.debounce_callback (double := double) d).
Proof.
  intros Hv. unfold AM.debounce_callback. cbv zeta.
  repeat (apply advances_bind; try apply _;
          [first [apply settles_silent; intros; reflexivity
                 | apply advances_get; apply _]|]; intros ?).
  apply settles_emit. cbn. now apply valid_change_accepted.
Qed.

Lemma settles_fire id at_time :
  advances settles (AM.fire_timer (double := double) id at_time).
Proof.
  intros s H. unfold AM.fire_timer. rewrite bind_run. unfold get.
  destruct (list_find _ (AM.timers s)) as [[i [j d]]|] eqn:Hfind;
    [|now apply settles_refl].
  destruct (_ <=? _)%Z; [|now apply settles_refl].
  apply list_find_Some in Hfind as (Hin & _).
  pose proof H as Hd.
  unfold pending_valid in Hd. rewrite Forall_lookup in Hd.
  specialize (Hd _ _ Hin). cbn in Hd.
  assert (Hstep : advances settles
                    (AM.clearTimeout (double := double) id ;;
                     AM.debounce_callback d)).
  { apply advances_bind; try apply _; [apply settles_clearTimeout|].
    intros _. now apply settles_callback. }
  exact (Hstep s H).
Qed.

Ltac settle_all :=
  repeat first
    [ apply settles_change
    | match goal with |- forall _, _ => intro end
    | progress cbv zeta
    | apply settles_clearTimeout
    | apply advances_bind; try apply _
    | apply advances_try_catch; try apply _
    | apply advances_ret; try apply _
    | apply advances_mret; try apply _
    | apply advances_throw; try apply _
    | apply advances_get; try apply _
    | apply advances_lift; try apply _
    | apply settles_silent; intros; reflexivity
    | apply settles_emit; exact I
    | match goal with
      | |- advances _ (if ?c then _ else _) => destruct c
      | |- advances _ (match ?c with _ => _ end) => destruct c
      end ].

Lemma settles_poll t readText :
  advances settles
    (AM.pollClipboard times_1_5 times_0_8 times_0_7 fmin fmax
       differs_by_more_than_100 fdiv t readText).
Proof.
  unfold AM.pollClipboard, AM.handlePollingError, AM.optimizePolling,
    AM.stopMonitoring, AM.updateAdaptiveInterval,
    AM.calculatePerformanceMetrics.
  settle_all.
Qed.

Lemma settles_start intervalMs readText now_start now_update now :
  advances settles
    (AM.startMonitoring (double := double) intervalMs readText now_start
       now_update now).
Proof. unfold AM.startMonitoring. settle_all. Qed.

Lemma settles_stop now :
  advances settles (AM.stopMonitoring fdiv now).
Proof.
  unfold AM.stopMonitoring, AM.calculatePerformanceMetrics. settle_all.
Qed.

End AdaptiveAccepts.

(** X18.  Both monitors emit [clipboard-changed] only for a change that
    [isValidClipboardChange] has accepted, with [isEmpty: false], the length
    of the new value and its detected type, which is not [empty].  In the
    adaptive monitor, where the event leaves from the debounce timer, this
    holds of polls, timers, starting and stopping alike, as every armed timer
    holds an accepted change. *)
Theorem emitted_changes_have_been_accepted :
  (forall now readText now_change now_optimize s,
     Monitor.grows_by monitor_accepted s
       (fst (Monitor.pollClipboard now readText now_change now_optimize s)))
  /\ (forall double (of_Z : Z -> double) now,
        pending_valid (AM.new_Monitor of_Z now))
  /\ (forall double times_1_5 times_0_8 times_0_7 fmin fmax differs fdiv
             t readText (s : AM.Monitor double),
        settles s
          (fst (AM.pollClipboard times_1_5 times_0_8 times_0_7 fmin fmax
                  differs fdiv t readText s)))
  /\ (forall double id at_time (s : AM.Monitor double),
        settles s (fst (AM.fire_timer id at_time s)))
  /\ (forall double intervalMs readText now_start now_update now
             (s : AM.Monitor double),
        settles s
          (fst (AM.startMonitoring intervalMs readText now_start now_update
                  now s)))
  /\ (forall double fdiv now (s : AM.Monitor double),
        settles s (fst (AM.stopMonitoring fdiv now s))).
Proof.
  split; [|split; [|split; [|split; [|split]]]].
  - intros. apply monitor_poll_accepts.
  - intros. constructor.
  - intros. apply settles_poll.
  - intros. apply settles_fire.
  - intros. apply settles_start.
  - intros. apply settles_stop.
Qed.

(** *** Polls that fail *)

Lemma failing_poll_retries (error : JsError) (t : Z) (s : Monitor.Monitor) :
  Monitor.isPaused s = false ->
  (50 <= t - Monitor.lastPollTime s)%Z ->
  (Monitor.retryCount s < Monitor.maxRetries s)%nat ->
  fst (Monitor.pollClipboard t (Throw error) t t s)
  = Monitor.set_retryTimers
      (Monitor.retryTimers s
       ++ [(Monitor.retryDelay s * 2 ^ Z.of_nat (Monitor.retryCount s))%Z])
      (Monitor.set_retryCount (S (Monitor.retryCount s))
         (Monitor.set_pollCount (S (Monitor.pollCount s))
            (Monitor.set_lastPollTime t s))).
Proof.
  intros Hp Ht Hrc.
  unfold Monitor.pollClipboard, Monitor.handlePollingError. run_effects.
  cbv beta iota. rewrite Hp.
  replace (t - Monitor.lastPollTime s <? 50)%Z with false
    by (symmetry; apply Z.ltb_ge; lia).
  cbn -[Nat.leb Z.pow Z.mul Nat.sub].
  replace (_ <=? _)%nat with true by (symmetry; apply Nat.leb_le; lia).
  cbn -[Z.pow Z.mul Nat.sub].
  now replace (S (Monitor.retryCount s) - 1)%nat
    with (Monitor.retryCount s) by lia.
Qed.

Lemma failing_poll_gives_up (error : JsError) (t : Z) (s : Monitor.Monitor) :
  Monitor.isPaused s = false ->
  (50 <= t - Monitor.lastPollTime s)%Z ->
  Monitor.retryCount s = Monitor.maxRetries s ->
  Monitor.errorListener s = true ->
  Monitor.isMonitoring s = true ->
  let s1 := fst (Monitor.pollClipboard t (Throw error) t t s) in
  Monitor.isMonitoring s1 = false
  /\ Monitor.pollingInterval s1 = None
  /\ Monitor.retryTimers s1 = Monitor.retryTimers s
  /\ Monitor.emitted s1
     = Monitor.emitted s
       ++ [Monitor.ErrorEvent (js "max-retries-exceeded") (message error);
           Monitor.MonitoringStopped].
Proof.
  intros Hp Ht Hrc HL Hm. cbv zeta.
  unfold Monitor.pollClipboard, Monitor.handlePollingError,
    Monitor.stopMonitoring, Monitor.emit. run_effects.
  cbv beta iota. rewrite Hp.
  replace (t - Monitor.lastPollTime s <? 50)%Z with false
    by (symmetry; apply Z.ltb_ge; lia).
  cbn -[Nat.leb Z.pow Z.mul Nat.sub].
  replace (_ <=? _)%nat with false by (symmetry; apply Nat.leb_gt; lia).
  unfold Monitor.set_retryCount, Monitor.set_pollCount,
    Monitor.set_lastPollTime.
  cbn [Monitor.errorListener Monitor.isMonitoring Monitor.emitted].
  rewrite HL. cbn [negb]. cbv beta iota.
  unfold Monitor.set_emitted at 2 3.
  cbn [Monitor.errorListener Monitor.isMonitoring Monitor.emitted].
  rewrite Hm. cbn. rewrite <- app_assoc. auto.
Qed.

Lemma failing_polls_stop (error : JsError) :
  forall times s,
    Monitor.isMonitoring s = true ->
    Monitor.errorListener s = true ->
    Monitor.isPaused s = false ->
    spaced (Monitor.lastPollTime s) times ->
    (Monitor.retryCount s <= Monitor.maxRetries s)%nat ->
    (Monitor.retryCount s + length times = S (Monitor.maxRetries s))%nat ->
    let s1 := failing_polls error times s in
    Monitor.isMonitoring s1 = false
    /\ Monitor.pollingInterval s1 = None
    /\ Monitor.retryTimers s1
       = Monitor.retryTimers s
         ++ backoff_delays (Monitor.retryDelay s) (Monitor.retryCount s)
              (length times - 1)
    /\ Monitor.emitted s1
       = Monitor.emitted s
         ++ [Monitor.ErrorEvent (js "max-retries-exceeded") (message error);
             Monitor.MonitoringStopped].
Proof.
  induction times as [|t times IH]; intros s Hm HL Hp Hsp Hle Hlen; cbv zeta.
  - simpl in Hlen. lia.
  - destruct Hsp as [Ht Hsp]. cbn [failing_polls length].
    destruct times as [|t' times].
    + simpl in Hlen.
      destruct (failing_poll_gives_up error t s Hp Ht) as (H1 & H2 & H3 & H4);
        try assumption; try lia.
      cbn [failing_polls]. repeat split; try assumption.
      rewrite H3. unfold backoff_delays. simpl. now rewrite app_nil_r.
    + cbn [length] in Hlen.
      rewrite (failing_poll_retries error t s Hp Ht) by lia.
      set (s0 := Monitor.set_retryTimers _ _).
      assert (Hsp0 : spaced (Monitor.lastPollTime s0) (t' :: times))
        by exact Hsp.
      assert (Hle0 : (Monitor.retryCount s0 <= Monitor.maxRetries s0)%nat)
        by (subst s0; simpl; lia).
      assert (Hlen0 : (Monitor.retryCount s0 + length (t' :: times)
                       = S (Monitor.maxRetries s0))%nat)
        by (subst s0; simpl; lia).
      destruct (IH s0 Hm HL Hp Hsp0 Hle0 Hlen0) as (H1 & H2 & H3 & H4).
      repeat split; try assumption.
      rewrite H3. subst s0. cbn [length].
      simpl Monitor.retryTimers. simpl Monitor.retryDelay.
      simpl Monitor.retryCount.
      rewrite <- app_assoc. f_equal.
      replace (S (S (length times)) - 1)%nat with (S (length times)) by lia.
      replace (S (length times) - 1)%nat with (length times) by lia.
      reflexivity.
Qed.

(** X19.  On a plain monitor that is running, not paused, has a listener
    for ['error'] and a retry count of 0: when [clipboard.readText()] throws
    on [maxRetries + 1] polls in a row, each at least 50 ms after the one
    before so that the rate limit drops none, the monitor arms a retry poll
    after [retryDelay], twice that, four times that, ... for the first
    [maxRetries] of them and on the last one emits [max-retries-exceeded]
    and stops: the interval is cleared and [monitoring-stopped] is
    emitted. *)
Theorem failing_polls_stop_the_monitor (error : JsError) (times : list Z)
  (s : Monitor.Monitor) :
  Monitor.isMonitoring s = true ->
  Monitor.errorListener s = true ->
  Monitor.isPaused s = false ->
  Monitor.retryCount s = 0%nat ->
  spaced (Monitor.lastPollTime s) times ->
  length times = S (Monitor.maxRetries s) ->
  let s1 := failing_polls error times s in
  Monitor.isMonitoring s1 = false
  /\ Monitor.pollingInterval s1 = None
  /\ Monitor.retryTimers s1
     = Monitor.retryTimers s
       ++ backoff_delays (Monitor.retryDelay s) 0 (Monitor.maxRetries s)
  /\ Monitor.emitted s1
     = Monitor.emitted s
       ++ [Monitor.ErrorEvent (js "max-retries-exceeded") (message error);
           Monitor.MonitoringStopped].
Proof.
  intros Hm HL Hp Hrc Hsp Hlen.
  destruct (failing_polls_stop error times s Hm HL Hp Hsp)
    as (H1 & H2 & H3 & H4); [lia | lia |].
  cbv zeta. repeat split; try assumption.
  rewrite H3, Hrc, Hlen. now replace (S (Monitor.maxRetries s) - 1)%nat
    with (Monitor.maxRetries s) by lia.
Qed.

Lemma failing_polls_stop_the_monitor_witness :
  spaced (Monitor.lastPollTime running_monitor) [1000; 2000; 4000; 8000]%Z
  /\ Monitor.isMonitoring
       (failing_polls (new_Error (js "clipboard unavailable"))
          [1000; 2000; 4000; 8000]%Z running_monitor) = false
  /\ Monitor.retryTimers
       (failing_polls (new_Error (js "clipboard unavailable"))
          [1000; 2000; 4000; 8000]%Z running_monitor)
     = [1000; 2000; 4000]%Z.
Proof.
  assert (Hsp : spaced (Monitor.lastPollTime running_monitor)
                  [1000; 2000; 4000; 8000]%Z)
    by (vm_compute; repeat split; discriminate).
  destruct (failing_polls_stop_the_monitor
              (new_Error (js "clipboard unavailable"))
              [1000; 2000; 4000; 8000]%Z running_monitor
              eq_refl eq_refl eq_refl eq_refl Hsp eq_refl)
    as (Hm & _ & Ht & _).
  split; [exact Hsp|]. split; [exact Hm | exact Ht].
Defined.

(** ** The pending change of the adaptive monitor *)

Lemma try_catch_bind_value {S A B} (m : M S A) (k : A -> M S B)
  (h : JsError -> M S B) (s s1 : S) (a : A) :
  m s = (s1, Value a) ->
  try_catch (m ≫= k) h s = try_catch (k a) h s1.
Proof.
  intros Hm. unfold try_catch. rewrite bind_run, Hm. reflexivity.
Qed.

Section AdaptiveTimers.

Context {double : Type}.
Variables times_1_5 times_0_8 times_0_7 : double -> double.
Variables fmin fmax : double -> double -> double.
Variable differs_by_more_than_100 : double -> double -> bool.
Variable fdiv : Z -> nat -> double.

Let Mon := AM.Monitor double.

#[local] Instance keeps_single_timer_refl :
  Reflexive (@keeps_single_timer double).
Proof. intros s H. exact H. Qed.

#[local] Instance keeps_single_timer_trans :
  Transitive (@keeps_single_timer double).
Proof. intros s1 s2 s3 H12 H23 H1. auto. Qed.

#[local] Instance same_timers_refl : Reflexive (@same_timers double).
Proof. intros s. reflexivity. Qed.

#[local] Instance same_timers_trans : Transitive (@same_timers double).
Proof. intros s1 s2 s3 H12 H23. unfold same_timers in *. congruence. Qed.

Lemma keeps_silent (f : Mon -> Mon) :
  (forall s, AM.timers (f s) = AM.timers s) ->
  (forall s, AM.debounceTimer (f s) = AM.debounceTimer s) ->
  advances keeps_single_timer (modify f).
Proof.
  intros Ht Hd s H. cbn [modify fst]. unfold single_timer in *.
  now rewrite Ht, Hd.
Qed.

Lemma keeps_emit (ev : AM.Event double) :
  advances keeps_single_timer (AM.emit ev).
Proof.
  intros s H. unfold AM.emit. destruct (_ && _); cbn [fst]; exact H.
Qed.

Lemma keeps_clearTimeout (id : nat) :
  advances keeps_single_timer (AM.clearTimeout (double := double) id).
Proof.
  intros s H. unfold AM.clearTimeout. cbn [modify fst].
  unfold single_timer in *. cbn.
  destruct (AM.timers s) as [|t [|t' l]]; [exact I | | contradiction].
  rewrite filter_cons, filter_nil.
  destruct (decide (fst t ≠ id)); [exact H | exact I].
Qed.

Lemma same_silent (f : Mon -> Mon) :
  (forall s, AM.timers (f s) = AM.timers s) ->
  advances same_timers (modify f).
Proof. intros Ht s. cbn [modify fst]. apply Ht. Qed.

Lemma same_emit (ev : AM.Event double) : advances same_timers (AM.emit ev).
Proof.
  intros s. unfold AM.emit. destruct (_ && _); cbn [fst]; reflexivity.
Qed.

(** Clearing the timer that [debounceTimer] names leaves no timer
    armed. *)
Lemma single_timer_cleared (s : Mon) (id : nat) :
  single_timer s -> AM.debounceTimer s = Some id ->
  filter (fun t : nat * AM.Debounced => fst t ≠ id) (AM.timers s) = [].
Proof.
  unfold single_timer. intros H Hid.
  destruct (AM.timers s) as [|t [|t' l]]; [reflexivity | | contradiction].
  rewrite filter_cons, filter_nil.
  destruct (decide (fst t ≠ id)) as [Hne|_]; [|reflexivity].
  rewrite Hid in H. congruence.
Qed.

Lemma single_timer_unnamed (s : Mon) :
  single_timer s -> AM.debounceTimer s = None -> AM.timers s = [].
Proof.
  unfold single_timer. intros H Hnone.
  destruct (AM.timers s) as [|t [|t' l]]; [reflexivity | | contradiction].
  congruence.
Qed.

Ltac keep :=
  repeat first
    [ match goal with |- forall _, _ => intro end
    | progress cbv zeta
    | apply keeps_clearTimeout
    | apply advances_bind; try apply _
    | apply advances_try_catch; try apply _
    | apply advances_ret; try apply _
    | apply advances_mret; try apply _
    | apply advances_throw; try apply _
    | apply advances_get; try apply _
    | apply advances_lift; try apply _
    | apply keeps_silent; intros; reflexivity
    | apply keeps_emit
    | match goal with
      | |- advances _ (if ?c then _ else _) => destruct c
      | |- advances _ (match ?c with _ => _ end) => destruct c
      end ].

Ltac same :=
  repeat first
    [ match goal with |- forall _, _ => intro end
    | progress cbv zeta
    | apply advances_bind; try apply _
    | apply advances_try_catch; try apply _
    | apply advances_ret; try apply _
    | apply advances_mret; try apply _
    | apply advances_throw; try apply _
    | apply advances_get; try apply _
    | apply advances_lift; try apply _
    | apply same_silent; intros; reflexivity
    | apply same_emit
    | match goal with
      | |- advances _ (if ?c then _ else _) => destruct c
      | |- advances _ (match ?c with _ => _ end) => destruct c
      end ].

Lemma keeps_change now newValue oldValue :
  advances keeps_single_timer
    (AM.handleClipboardChange (double := double) now newValue oldValue).
Proof.
  intros s H. unfold AM.handleClipboardChange. rewrite bind_run. unfold get.
  destruct (_ <? _)%Z; [exact H|].
  destruct (negb _); [exact H|].
  destruct (AM.debounceTimer s) as [id|] eqn:Hid.
  - pose proof (single_timer_cleared s id H Hid) as Hclear.
    unfold AM.clearTimeout, AM.setTimeout. run_effects. cbn.
    rewrite Hclear. reflexivity.
  - pose proof (single_timer_unnamed s H Hid) as Hnone.
    unfold AM.setTimeout. run_effects. cbn.
    rewrite Hnone. reflexivity.
Qed.

Lemma same_rest_of_stop now :
  advances same_timers
    (try_catch
       (AM.calculatePerformanceMetrics fdiv now ;;
        modify (AM.set_isMonitoring double false) ;;
        modify (AM.set_previousValue double []) ;;
        AM.emit (@AM.MonitoringStopped double) ;;
        ret true)
       (fun error =>
          AM.emit (@AM.ErrorEvent double (js "stop-failed") (message error)) ;;
          ret false)).
Proof. unfold AM.calculatePerformanceMetrics. same. Qed.

(** [stopMonitoring] on a running monitor leaves no debounce timer
    armed. *)
Lemma stop_cancels now (s : Mon) :
  single_timer s -> AM.isMonitoring s = true ->
  AM.timers (fst (AM.stopMonitoring fdiv now s)) = [].
Proof.
  intros H Hrun. unfold AM.stopMonitoring. rewrite bind_run. unfold get.
  rewrite Hrun. cbn [negb].
  erewrite try_catch_bind_value by reflexivity.
  set (s1 := AM.set_pollingInterval double None s).
  assert (Hcancel : exists s2,
             (match AM.debounceTimer s with
              | Some id =>
                  AM.clearTimeout id ;;
                  modify (AM.set_debounceTimer double None)
              | None => ret tt
              end) s1 = (s2, Value tt)
             /\ AM.timers s2 = []).
  { destruct (AM.debounceTimer s) as [id|] eqn:Hid.
    - eexists. split; [reflexivity|]. cbn.
      exact (single_timer_cleared s id H Hid).
    - eexists. split; [reflexivity|]. cbn.
      exact (single_timer_unnamed s H Hid). }
  destruct Hcancel as (s2 & Hs2 & Hnone).
  erewrite try_catch_bind_value by exact Hs2.
  rewrite (same_rest_of_stop now s2). exact Hnone.
Qed.

Lemma keeps_stop now :
  advances keeps_single_timer (AM.stopMonitoring fdiv now).
Proof.
  intros s H. destruct (AM.isMonitoring s) eqn:Hrun.
  - unfold single_timer. rewrite (stop_cancels now s H Hrun). exact I.
  - unfold AM.stopMonitoring. rewrite bind_run. unfold get.
    rewrite Hrun. cbn [negb].
    assert (Hstep : advances keeps_single_timer
                      (AM.emit (@AM.MonitoringNotActive double) ;; ret false))
      by keep.
    exact (Hstep s H).
Qed.

Lemma keeps_callback (d : AM.Debounced) :
  advances keeps_single_timer (AM.debounce_callback (double := double) d).
Proof. unfold AM.debounce_callback. keep. Qed.

Lemma keeps_fire id at_time :
  advances keeps_single_timer (AM.fire_timer (double := double) id at_time).
Proof.
  pose proof keeps_callback. unfold AM.fire_timer. keep; auto.
Qed.

Ltac keep_all :=
  repeat first
    [ apply keeps_change
    | apply keeps_stop
    | match goal with |- forall _, _ => intro end
    | progress cbv zeta
    | apply advances_bind; try apply _
    | apply advances_try_catch; try apply _
    | apply advances_ret; try apply _
    | apply advances_mret; try apply _
    | apply advances_throw; try apply _
    | apply advances_get; try apply _
    | apply advances_lift; try apply _
    | apply keeps_silent; intros; reflexivity
    | apply keeps_emit
    | match goal with
      | |- advances _ (if ?c then _ else _) => destruct c
      | |- advances _ (match ?c with _ => _ end) => destruct c
      end ].

Lemma keeps_poll t readText :
  advances keeps_single_timer
    (AM.pollClipboard times_1_5 times_0_8 times_0_7 fmin fmax
       differs_by_more_than_100 fdiv t readText).
Proof.
  unfold AM.pollClipboard, AM.handlePollingError, AM.optimizePolling,
    AM.updateAdaptiveInterval, AM.calculatePerformanceMetrics.
  keep_all.
Qed.

Lemma keeps_start intervalMs readText now_start now_update now :
  advances keeps_single_timer
    (AM.startMonitoring (double := double) intervalMs readText now_start
       now_update now).
Proof. unfold AM.startMonitoring. keep_all. Qed.

(** With no timer armed, the event loop has nothing to run. *)
Lemma fire_unarmed id at_time (s : Mon) :
  AM.timers s = [] -> AM.fire_timer id at_time s = (s, Value tt).
Proof.
  intros Hnone. unfold AM.fire_timer. rewrite bind_run. unfold get.
  now rewrite Hnone.
Qed.

End AdaptiveTimers.

(** X21.  The adaptive monitor never has more than one debounce timer
    armed, and the armed one is the timer that [debounceTimer] names: this
    holds of a new monitor and is kept by polls, debounce timers, starting
    and stopping.  Hence [stopMonitoring] on a running monitor in such a
    state leaves no debounce timer armed, and a debounce timer that fires
    next emits nothing: the change that was pending when monitoring stopped
    is dropped.  A retry poll is not cancelled with it: [stopped_monitor]
    was stopped while the retry timer that [handlePollingError] had set
    after a failed poll was pending, and the poll of that timer finds
    ["hello"], arms a debounce timer and has [clipboard-changed] emitted for
    it, the monitor being stopped. *)
Theorem stopping_cancels_the_pending_change :
  (forall double (of_Z : Z -> double) now,
      single_timer (AM.new_Monitor of_Z now))
  /\ (forall double times_1_5 times_0_8 times_0_7 fmin fmax differs fdiv
             t readText (s : AM.Monitor double),
        keeps_single_timer s
          (fst (AM.pollClipboard times_1_5 times_0_8 times_0_7 fmin fmax
                  differs fdiv t readText s)))
  /\ (forall double id at_time (s : AM.Monitor double),
        keeps_single_timer s (fst (AM.fire_timer id at_time s)))
  /\ (forall double intervalMs readText now_start now_update now
             (s : AM.Monitor double),
        keeps_single_timer s
          (fst (AM.startMonitoring intervalMs readText now_start now_update
                  now s)))
  /\ (forall double fdiv now (s : AM.Monitor double),
        keeps_single_timer s (fst (AM.stopMonitoring fdiv now s)))
  /\ (forall double fdiv now (s : AM.Monitor double),
        single_timer s -> AM.isMonitoring s = true ->
        let s' := fst (AM.stopMonitoring fdiv now s) in
        AM.timers s' = []
        /\ forall id at_time, AM.fire_timer id at_time s' = (s', Value tt))
  /\ (AM.isMonitoring stopped_monitor = false
      /\ AM.retryTimers stopped_monitor = [1000%Z]
      /\ AM.timers stopped_monitor = []
      /\ AM.changed_values (AM.emitted stopped_monitor) = []
      /\ AM.isMonitoring late_poll = false
      /\ AM.changed_values
           (AM.emitted
              (fst (AM.fire_timer (AM.nextTimer stopped_monitor) 1160
                      late_poll)))
         = [js "hello"]).
Proof.
  split; [|split; [|split; [|split; [|split; [|split]]]]].
  - intros. exact I.
  - intros. apply keeps_poll.
  - intros. apply keeps_fire.
  - intros. apply keeps_start.
  - intros. apply keeps_stop.
  - intros double fdiv now s H Hrun. cbv zeta.
    pose proof (stop_cancels fdiv now s H Hrun) as Hnone.
    split; [exact Hnone|]. intros id at_time. now apply fire_unarmed.
  - repeat apply conj; vm_compute; reflexivity.
Qed.

(** ** [JSON.stringify] is undone by [JSON.parse] *)

Import Config.

Lemma hex_value_hex_digit (d : N) :
  d < 16 -> hex_value (hex_digit d) = Some d.
Proof.
  intros H.
  assert (Hd : In d [0; 1; 2; 3; 4; 5; 6; 7; 8; 9; 10; 11; 12; 13; 14; 15]).
  { simpl. lia. }
  simpl in Hd.
  repeat (destruct Hd as [<- | Hd]; [reflexivity|]). destruct Hd.
Qed.

Lemma hex_digits_value (c : N) :
  c < 65536 ->
  ((c / 4096 mod 16 * 16 + c / 256 mod 16) * 16 + c / 16 mod 16) * 16
  + c mod 16 = c.
Proof.
  intros H.
  pose proof (N.Div0.div_mod c 16) as H1.
  pose proof (N.Div0.div_mod (c / 16) 16) as H2.
  pose proof (N.Div0.div_mod (c / 16 / 16) 16) as H3.
  rewrite !N.Div0.div_div in *.
  change (16 * 16) with 256 in *. change (256 * 16) with 4096 in *.
  assert (c / 4096 < 16) by (apply N.Div0.div_lt_upper_bound; lia).
  rewrite (N.mod_small (c / 4096)) by assumption.
  pose proof (N.Div0.div_mod (c / 4096) 16) as H4.
  lia.
Qed.

Lemma parse_unicode_escape (c : N) (rest acc : jsstring) :
  c < 65536 ->
  parse_chars (unicode_escape c ++ rest) acc = parse_chars rest (c :: acc).
Proof.
  intros H. unfold unicode_escape.
  cbn [app parse_chars].
  change (92 =? 34) with false. change (92 =? 92) with true.
  change (117 =? 117) with true. cbv beta iota.
  rewrite !hex_value_hex_digit by (apply N.mod_lt; lia).
  now rewrite hex_digits_value.
Qed.

Ltac units :=
  unfold is_leading_surrogate, is_trailing_surrogate, is_digit, is_json_ws
    in *;
  repeat match goal with
         | H : _ = true |- _ =>
             rewrite ?orb_true_iff, ?andb_true_iff, ?N.ltb_lt, ?N.leb_le,
               ?N.eqb_eq in H
         | H : _ = false |- _ =>
             rewrite ?orb_false_iff, ?andb_false_iff, ?N.ltb_ge, ?N.leb_gt,
               ?N.eqb_neq in H
         end;
  lia.

Lemma parse_escape_unit (c : N) (escape rest acc : jsstring) :
  escape_unit c = Some escape ->
  parse_chars (escape ++ rest) acc = parse_chars rest (c :: acc).
Proof.
  unfold escape_unit.
  repeat match goal with
         | |- (if ?c =? ?k then _ else _) = _ -> _ =>
             destruct (N.eqb_spec c k) as [->|?];
             [intros [= <-]; reflexivity|]
         end.
  destruct (_ || _) eqn:Hc; intros [= <-].
  apply parse_unicode_escape. units.
Qed.

Lemma parse_plain_unit (c : N) (rest acc : jsstring) :
  c <> 34 -> c <> 92 -> 32 <= c ->
  parse_chars (c :: rest) acc = parse_chars rest (c :: acc).
Proof.
  intros H1 H2 H3. cbn [parse_chars].
  destruct (N.eqb_spec c 34); [contradiction|].
  destruct (N.eqb_spec c 92); [contradiction|].
  destruct (N.ltb_spec c 32); [lia | reflexivity].
Qed.

Lemma escape_unit_plain (c : N) :
  escape_unit c = None -> c <> 34 /\ c <> 92 /\ 32 <= c.
Proof.
  unfold escape_unit.
  repeat match goal with
         | |- (if ?c =? ?k then _ else _) = _ -> _ =>
             destruct (N.eqb_spec c k) as [->|?]; [discriminate|]
         end.
  destruct (_ || _) eqn:Hc; [discriminate|]. intros _. units.
Qed.

(** The body of a quoted string, up to its closing quote, is read back as
    the string. *)
Lemma parse_quote_units (s : jsstring) :
  forall acc rest,
    parse_chars (quote_units s ++ 34 :: rest) acc = Some (rev acc ++ s, rest).
Proof.
  induction s as [s IH] using (induction_ltof1 _ (@length N)).
  unfold ltof in IH. intros acc rest.
  destruct s as [|c s]; cbn [quote_units].
  { cbn. now rewrite app_nil_r. }
  assert (Hcons : forall t, rev (c :: acc) ++ t = rev acc ++ c :: t).
  { intros t. cbn [rev]. now rewrite <- app_assoc. }
  destruct (is_leading_surrogate c) eqn:Hlead.
  - destruct s as [|d s].
    + rewrite parse_unicode_escape by units. cbn. reflexivity.
    + destruct (is_trailing_surrogate d) eqn:Htrail.
      * cbn [app]. rewrite !parse_plain_unit by units.
        rewrite IH by (cbn; lia).
        cbn [rev]. now rewrite <- !app_assoc.
      * rewrite <- app_assoc, parse_unicode_escape by units.
        rewrite IH by (cbn; lia). now rewrite Hcons.
  - destruct (escape_unit c) as [escape|] eqn:Hesc.
    + rewrite <- app_assoc, (parse_escape_unit c) by assumption.
      rewrite IH by (cbn; lia). now rewrite Hcons.
    + apply escape_unit_plain in Hesc as (? & ? & ?).
      cbn [app]. rewrite parse_plain_unit by assumption.
      rewrite IH by (cbn; lia). now rewrite Hcons.
Qed.

Lemma parse_quote (s rest : jsstring) :
  parse_chars (quote_units s ++ 34 :: rest) [] = Some (s, rest).
Proof. apply parse_quote_units. Qed.

Lemma take_digits_app (s rest : jsstring) :
  closes rest ->
  forall acc a r,
    take_digits s acc = (a, r) -> take_digits (s ++ rest) acc = (a, r ++ rest).
Proof.
  intros Hrest. induction s as [|c s IH]; intros acc a r; cbn [take_digits app].
  - intros [= <- <-]. destruct rest as [|d rest]; [reflexivity|].
    cbn [take_digits app]. cbn in Hrest.
    destruct (is_digit d) eqn:Hd; [units | reflexivity].
  - destruct (is_digit c); [apply IH|]. now intros [= <- <-].
Qed.

Lemma digits1_app (s rest acc a r : jsstring) :
  closes rest ->
  digits1 s acc = Some (a, r) -> digits1 (s ++ rest) acc = Some (a, r ++ rest).
Proof.
  intros Hrest. unfold digits1.
  destruct s as [|c s]; [discriminate|]. cbn [app].
  destruct (is_digit c) eqn:Hc; [|discriminate].
  intros [= H]. f_equal.
  change (c :: s ++ rest) with ((c :: s) ++ rest).
  now apply take_digits_app.
Qed.

Section NumberText.

Variable rest : jsstring.
Hypothesis Hrest : closes rest.

Let exponent (acc2 s2 : jsstring) : option (jsstring * jsstring) :=
  match s2 with
  | c :: s' =>
      if (c =? 101) || (c =? 69) then
        match s' with
        | g :: s'' =>
            if (g =? 43) || (g =? 45) then digits1 s'' (g :: c :: acc2)
            else digits1 s' (c :: acc2)
        | [] => None
        end
      else Some (acc2, s2)
  | [] => Some (acc2, s2)
  end.

Let fraction (acc1 s1 : jsstring) : option (jsstring * jsstring) :=
  match s1 with
  | c :: s' => if c =? 46 then digits1 s' (c :: acc1) else Some (acc1, s1)
  | [] => Some (acc1, s1)
  end.

Let integer (acc0 s0 : jsstring) : option (jsstring * jsstring) :=
  match s0 with
  | c :: s' =>
      if c =? 48 then Some (c :: acc0, s')
      else if is_digit c then Some (take_digits s0 acc0)
      else None
  | [] => None
  end.

Let sign (s : jsstring) : jsstring * jsstring :=
  match s with
  | c :: s' => if c =? 45 then ([c], s') else ([], s)
  | [] => ([], s)
  end.

Lemma parse_number_parts (s : jsstring) :
  parse_number s
  = let '(acc0, s0) := sign s in
    match integer acc0 s0 with
    | None => None
    | Some (acc1, s1) =>
        match fraction acc1 s1 with
        | None => None
        | Some (acc2, s2) =>
            match exponent acc2 s2 with
            | None => None
            | Some (acc3, s3) => Some (rev acc3, s3)
            end
        end
    end.
Proof. reflexivity. Qed.

Lemma exponent_app (acc2 s2 a r : jsstring) :
  exponent acc2 s2 = Some (a, r) ->
  exponent acc2 (s2 ++ rest) = Some (a, r ++ rest).
Proof.
  unfold exponent. destruct s2 as [|c s']; cbn [app].
  - intros [= <- <-]. destruct rest as [|d rest']; [reflexivity|].
    cbn in Hrest. cbn [app].
    destruct ((d =? 101) || (d =? 69)) eqn:Hd; [units | reflexivity].
  - destruct ((c =? 101) || (c =? 69)).
    + destruct s' as [|g s'']; [discriminate|]. cbn [app].
      destruct ((g =? 43) || (g =? 45)).
      * now apply digits1_app.
      * change (g :: s'' ++ rest) with ((g :: s'') ++ rest).
        now apply digits1_app.
    + now intros [= <- <-].
Qed.

Lemma fraction_app (acc1 s1 a r : jsstring) :
  fraction acc1 s1 = Some (a, r) ->
  fraction acc1 (s1 ++ rest) = Some (a, r ++ rest).
Proof.
  unfold fraction. destruct s1 as [|c s']; cbn [app].
  - intros [= <- <-]. destruct rest as [|d rest']; [reflexivity|].
    cbn in Hrest. cbn [app].
    destruct (d =? 46) eqn:Hd; [units | reflexivity].
  - destruct (c =? 46).
    + now apply digits1_app.
    + now intros [= <- <-].
Qed.

Lemma integer_app (acc0 s0 a r : jsstring) :
  integer acc0 s0 = Some (a, r) ->
  integer acc0 (s0 ++ rest) = Some (a, r ++ rest).
Proof.
  unfold integer. destruct s0 as [|c s']; [discriminate|]. cbn [app].
  destruct (c =? 48); [now intros [= <- <-]|].
  destruct (is_digit c); [|discriminate].
  intros [= H]. f_equal.
  change (c :: s' ++ rest) with ((c :: s') ++ rest).
  now apply take_digits_app.
Qed.

(** A number that has been read is read the same way when a comma, a
    closing bracket or the end of the text follows what was left. *)
Lemma parse_number_app (s lexeme r : jsstring) :
  parse_number s = Some (lexeme, r) ->
  parse_number (s ++ rest) = Some (lexeme, r ++ rest).
Proof.
  rewrite !parse_number_parts.
  assert (Hsign : sign (s ++ rest) = (fst (sign s), snd (sign s) ++ rest)
                  \/ s = []).
  { destruct s as [|c s']; [now right|]. left. cbn.
    destruct (c =? 45); reflexivity. }
  destruct Hsign as [-> | ->]; [|discriminate].
  destruct (sign s) as [acc0 s0]. cbn [fst snd].
  destruct (integer acc0 s0) as [[acc1 s1]|] eqn:Hint; [|discriminate].
  rewrite (integer_app _ _ _ _ Hint).
  destruct (fraction acc1 s1) as [[acc2 s2]|] eqn:Hfrac; [|discriminate].
  rewrite (fraction_app _ _ _ _ Hfrac).
  destruct (exponent acc2 s2) as [[acc3 s3]|] eqn:Hexp; [|discriminate].
  rewrite (exponent_app _ _ _ _ Hexp).
  now intros [= <- <-].
Qed.

End NumberText.

(** A number starts with a minus sign or a digit. *)
Lemma parse_number_head (s : jsstring) (x : jsstring * jsstring) :
  parse_number s = Some x ->
  exists c s', s = c :: s' /\ (c = 45 \/ is_digit c = true).
Proof.
  destruct s as [|c s']; [discriminate|]. intros H.
  exists c, s'. split; [reflexivity|].
  unfold parse_number in H.
  destruct (N.eqb_spec c 45) as [|Hc]; [now left | right].
  destruct (N.eqb_spec c 48) as [->|Hz]; [reflexivity|].
  destruct (is_digit c); [reflexivity | discriminate].
Qed.

Lemma parse_value_S (fuel : nat) (s : jsstring) :
  parse_value (S fuel) s
  = match skip_ws s with
    | [] => None
    | c :: s1 =>
        if c =? 123 then
          match skip_ws s1 with
          | d :: s2 => if d =? 125 then Some (JObj [], s2)
                       else parse_members fuel s1 []
          | [] => None
          end
        else if c =? 91 then
          match skip_ws s1 with
          | d :: s2 => if d =? 93 then Some (JArr [], s2)
                       else parse_elements fuel s1 []
          | [] => None
          end
        else if c =? 34 then
          match parse_chars s1 [] with
          | Some (str, s2) => Some (JStr str, s2)
          | None => None
          end
        else if c =? 116 then expect (js "true") (JBool true) (c :: s1)
        else if c =? 102 then expect (js "false") (JBool false) (c :: s1)
        else if c =? 110 then expect (js "null") JNull (c :: s1)
        else
          match parse_number (c :: s1) with
          | Some (lexeme, s2) => Some (JNum lexeme, s2)
          | None => None
          end
    end.
Proof. reflexivity. Qed.

Lemma parse_elements_S (fuel : nat) (s : jsstring) (acc : list json) :
  parse_elements (S fuel) s acc
  = match parse_value fuel s with
    | None => None
    | Some (v, s1) =>
        match skip_ws s1 with
        | c :: s2 =>
            if c =? 44 then parse_elements fuel s2 (v :: acc)
            else if c =? 93 then Some (JArr (rev (v :: acc)), s2)
            else None
        | [] => None
        end
    end.
Proof. reflexivity. Qed.

Lemma parse_members_S (fuel : nat) (s : jsstring)
  (acc : list (jsstring * json)) :
  parse_members (S fuel) s acc
  = match skip_ws s with
    | q :: s0 =>
        if q =? 34 then
          match parse_chars s0 [] with
          | None => None
          | Some (key, s1) =>
              match skip_ws s1 with
              | c :: s2 =>
                  if c =? 58 then
                    match parse_value fuel s2 with
                    | None => None
                    | Some (v, s3) =>
                        match skip_ws s3 with
                        | d :: s4 =>
                            if d =? 44 then
                              parse_members fuel s4 ((key, v) :: acc)
                            else if d =? 125 then
                              Some (JObj (rev ((key, v) :: acc)), s4)
                            else None
                        | [] => None
                        end
                    end
                  else None
              | [] => None
              end
          end
        else None
    | [] => None
    end.
Proof. reflexivity. Qed.

Lemma startsWith_app (lit rest : jsstring) :
  startsWith (lit ++ rest) lit = true.
Proof.
  induction lit as [|c lit IH]; [now destruct rest|].
  change (startsWith ((c :: lit) ++ rest) (c :: lit))
    with ((c =? c) && startsWith (lit ++ rest) lit).
  now rewrite N.eqb_refl, IH.
Qed.

Lemma expect_app (lit rest : jsstring) (v : json) :
  expect lit v (lit ++ rest) = Some (v, rest).
Proof.
  unfold expect. now rewrite startsWith_app, drop_app_length.
Qed.

Lemma skip_ws_head (c : N) (s : jsstring) :
  is_json_ws c = false -> skip_ws (c :: s) = c :: s.
Proof. intros H. cbn [skip_ws]. now rewrite H. Qed.

Section RoundTrip.

Variable Number_toString : jsstring -> jsstring.

Let text := JSON_stringify Number_toString.
Let exact := printed_as_written Number_toString.
Let member (field : jsstring * json) : jsstring :=
  quote (fst field) ++ [58] ++ text (snd field).

Lemma exact_number (lexeme : jsstring) :
  exact (JNum lexeme) = true ->
  Number_toString lexeme = lexeme /\ parse_number lexeme = Some (lexeme, []).
Proof.
  unfold exact. cbn [printed_as_written]. unfold str_eqb.
  intros [H1 H2]%andb_true_iff.
  apply bool_decide_eq_true in H1. split; [exact H1|].
  destruct (parse_number lexeme) as [[parsed [|? ?]]|]; try discriminate.
  apply bool_decide_eq_true in H2. now subst.
Qed.

(** A printed value starts with a character that is neither white space
    nor a closing bracket. *)
Lemma text_head (v : json) :
  exact v = true ->
  exists c t, text v = c :: t
              /\ is_json_ws c = false /\ c <> 93 /\ c <> 125.
Proof.
  intros H. destruct v as [|[|]|lexeme|s|items|fields];
    try (eexists _, _; split; [reflexivity|];
         repeat split; try reflexivity; vm_compute; discriminate).
  destruct (exact_number _ H) as [Hp Hn].
  destruct (parse_number_head _ _ Hn) as (c & t & -> & Hc).
  exists c, t. split; [exact Hp|].
  destruct Hc as [->|Hc]; [repeat split; discriminate|].
  assert (48 <= c <= 57) by units.
  repeat split; [|lia|lia].
  unfold is_json_ws. rewrite !orb_false_iff, !N.eqb_neq. lia.
Qed.

Lemma text_length (v : json) : exact v = true -> (1 <= length (text v))%nat.
Proof.
  intros H. destruct (text_head v H) as (c & t & -> & _). cbn. lia.
Qed.

Lemma parse_array_body (fuel : nat) (s1 : jsstring) (c : N) (t : jsstring) :
  s1 = c :: t -> is_json_ws c = false -> c <> 93 ->
  match skip_ws s1 with
  | d :: s2 => if d =? 93 then Some (JArr [], s2)
               else parse_elements fuel s1 []
  | [] => None
  end = parse_elements fuel s1 [].
Proof.
  intros Hs Hws Hc. rewrite Hs at 1. rewrite skip_ws_head by assumption.
  now destruct (N.eqb_spec c 93).
Qed.

Lemma parse_object_body (fuel : nat) (s1 : jsstring) (c : N) (t : jsstring) :
  s1 = c :: t -> is_json_ws c = false -> c <> 125 ->
  match skip_ws s1 with
  | d :: s2 => if d =? 125 then Some (JObj [], s2)
               else parse_members fuel s1 []
  | [] => None
  end = parse_members fuel s1 [].
Proof.
  intros Hs Hws Hc. rewrite Hs at 1. rewrite skip_ws_head by assumption.
  now destruct (N.eqb_spec c 125).
Qed.

Lemma join_map_two {A} (f : A -> jsstring) (sep : jsstring) (x y : A)
  (l : list A) :
  join sep (map f (x :: y :: l)) = f x ++ sep ++ join sep (map f (y :: l)).
Proof. reflexivity. Qed.

(** With fuel for every character of the printed text, the parser reads a
    printed value, the printed elements of an array and the printed
    members of an object back. *)
Lemma parse_text (fuel : nat) :
  (forall v rest,
      exact v = true -> closes rest -> (length (text v) <= fuel)%nat ->
      parse_value fuel (text v ++ rest) = Some (v, rest))
  /\ (forall items acc rest,
        items <> [] -> forallb exact items = true ->
        (length (join [44%N] (map text items)) < fuel)%nat ->
        parse_elements fuel (join [44] (map text items) ++ 93 :: rest) acc
        = Some (JArr (rev acc ++ items), rest))
  /\ (forall fields acc rest,
        fields <> [] ->
        forallb (fun field => exact (snd field)) fields = true ->
        (length (join [44%N] (map member fields)) < fuel)%nat ->
        parse_members fuel (join [44] (map member fields) ++ 125 :: rest) acc
        = Some (JObj (rev acc ++ fields), rest)).
Proof.
  induction fuel as [|fuel (IHv & IHe & IHm)].
  { split; [|split; intros; lia].
    intros v rest Hv _ Hlen. pose proof (text_length v Hv). lia. }
  split; [|split].
  - intros v rest Hv Hrest Hlen. rewrite parse_value_S.
    destruct v as [|[|]|lexeme|s|items|fields].
    + exact (expect_app (js "null") rest JNull).
    + exact (expect_app (js "true") rest (JBool true)).
    + exact (expect_app (js "false") rest (JBool false)).
    + destruct (exact_number _ Hv) as [Hp Hn].
      destruct (text_head _ Hv) as (c & t & Ht & Hws & _).
      assert (Hl : lexeme = c :: t) by (rewrite <- Ht; symmetry; exact Hp).
      change (text (JNum lexeme)) with (Number_toString lexeme).
      rewrite Hp, Hl. cbn [app]. rewrite skip_ws_head by assumption.
      destruct (parse_number_head _ _ Hn) as (c' & t' & Hl' & Hc).
      assert (c' = c) by congruence. subst c'.
      assert (Hkind : (c =? 123) = false /\ (c =? 91) = false
                      /\ (c =? 34) = false /\ (c =? 116) = false
                      /\ (c =? 102) = false /\ (c =? 110) = false).
      { rewrite !N.eqb_neq. destruct Hc as [->|Hc]; [repeat split; lia|].
        assert (48 <= c <= 57) by units. lia. }
      destruct Hkind as (-> & -> & -> & -> & -> & ->).
      change (c :: t ++ rest) with ((c :: t) ++ rest).
      rewrite <- Hl, (parse_number_app rest Hrest _ _ _ Hn). reflexivity.
    + change (text (JStr s)) with (34 :: quote_units s ++ [34]).
      cbn [app]. rewrite skip_ws_head by reflexivity.
      change (34 =? 123) with false. change (34 =? 91) with false.
      change (34 =? 34) with true. cbv beta iota.
      rewrite <- app_assoc. cbn [app]. now rewrite parse_quote.
    + change (text (JArr items))
        with (91 :: join [44] (map text items) ++ [93]) in *.
      cbn [app]. rewrite skip_ws_head by reflexivity.
      change (91 =? 123) with false. change (91 =? 91) with true.
      cbv beta iota. rewrite <- app_assoc. cbn [app].
      destruct items as [|v items]; [reflexivity|].
      assert (Hv1 : exact v = true).
      { change (exact (JArr (v :: items)))
          with (exact v && forallb exact items) in Hv.
        now apply andb_true_iff in Hv as [? _]. }
      destruct (text_head v Hv1) as (c & t & Ht & Hws & Hc & _).
      assert (Hs1 : exists t', join [44] (map text (v :: items)) ++ 93 :: rest
                               = c :: t').
      { destruct items; cbn [map join]; rewrite Ht; cbn [app];
          eexists; reflexivity. }
      destruct Hs1 as [t' Hs1].
      etransitivity; [exact (parse_array_body fuel _ c t' Hs1 Hws Hc)|].
      rewrite IHe; [reflexivity | discriminate | exact Hv |].
      cbn [length] in Hlen. rewrite length_app in Hlen. cbn [length] in Hlen. lia.
    + change (text (JObj fields))
        with (123 :: join [44] (map member fields) ++ [125]) in *.
      cbn [app]. rewrite skip_ws_head by reflexivity.
      change (123 =? 123) with true. cbv beta iota.
      rewrite <- app_assoc. cbn [app].
      destruct fields as [|[k v] fields]; [reflexivity|].
      assert (Hs1 : exists t', join [44] (map member ((k, v) :: fields))
                               ++ 125 :: rest = 34 :: t').
      { destruct fields; cbn [map join]; unfold member at 1, quote;
          cbn [app fst]; eexists; reflexivity. }
      destruct Hs1 as [t' Hs1].
      etransitivity;
        [exact (parse_object_body fuel _ 34 t' Hs1 eq_refl ltac:(discriminate))|].
      rewrite IHm; [reflexivity | discriminate | exact Hv |].
      cbn [length] in Hlen. rewrite length_app in Hlen. cbn [length] in Hlen. lia.
  - intros items acc rest Hne Hall Hlen. rewrite parse_elements_S.
    destruct items as [|v items]; [contradiction|].
    cbn [forallb] in Hall. apply andb_true_iff in Hall as [Hv Hall].
    pose proof (text_length v Hv) as Hpos.
    destruct items as [|w items].
    + cbn [map join] in *.
      rewrite IHv; [|exact Hv|cbn; auto|lia].
      rewrite skip_ws_head by reflexivity.
      change (93 =? 44) with false. change (93 =? 93) with true.
      cbv beta iota. cbn [rev]. reflexivity.
    + rewrite join_map_two in *.
      rewrite length_app in Hlen. cbn [app length] in Hlen.
      rewrite <- !app_assoc. cbn [app].
      rewrite IHv; [|exact Hv|cbn; auto|lia].
      rewrite skip_ws_head by reflexivity.
      change (44 =? 44) with true. cbv beta iota.
      rewrite IHe; [|discriminate|exact Hall|lia].
      cbn [rev]. now rewrite <- app_assoc.
  - intros fields acc rest Hne Hall Hlen. rewrite parse_members_S.
    destruct fields as [|[k v] fields]; [contradiction|].
    cbn [forallb snd] in Hall. apply andb_true_iff in Hall as [Hv Hall].
    pose proof (text_length v Hv) as Hpos.
    assert (Hmember : forall tail,
               member (k, v) ++ tail
               = 34 :: quote_units k ++ 34 :: 58 :: text v ++ tail).
    { intros tail. unfold member, quote. cbn [fst snd app].
      now rewrite <- !app_assoc. }
    assert (Hmlen : (length (text v) < length (member (k, v)))%nat).
    { unfold member. rewrite !length_app. cbn. lia. }
    destruct fields as [|f fields].
    + cbn [map join] in *. rewrite Hmember.
      rewrite skip_ws_head by reflexivity.
      change (34 =? 34) with true. cbv beta iota.
      rewrite parse_quote. rewrite skip_ws_head by reflexivity.
      change (58 =? 58) with true. cbv beta iota.
      rewrite IHv; [|exact Hv|cbn; auto|lia].
      rewrite skip_ws_head by reflexivity.
      change (125 =? 44) with false. change (125 =? 125) with true.
      cbv beta iota. cbn [rev]. reflexivity.
    + rewrite join_map_two in *.
      rewrite length_app in Hlen. cbn [app length] in Hlen.
      rewrite <- !app_assoc, Hmember. cbn [app].
      rewrite skip_ws_head by reflexivity.
      change (34 =? 34) with true. cbv beta iota.
      rewrite parse_quote. rewrite skip_ws_head by reflexivity.
      change (58 =? 58) with true. cbv beta iota.
      rewrite IHv; [|exact Hv|cbn; auto|lia].
      rewrite skip_ws_head by reflexivity.
      change (44 =? 44) with true. cbv beta iota.
      rewrite IHm; [|discriminate|exact Hall|lia].
      cbn [rev]. now rewrite <- app_assoc.
Qed.

(** [JSON.parse(JSON.stringify(value))] is the value. *)
Lemma JSON_parse_stringify (v : json) :
  exact v = true -> JSON_parse (text v) = Return v.
Proof.
  intros Hv. unfold JSON_parse.
  destruct (parse_text (2 * length (text v) + 2)) as [Hparse _].
  specialize (Hparse v [] Hv I). rewrite app_nil_r in Hparse.
  rewrite Hparse by lia. reflexivity.
Qed.

End RoundTrip.

Lemma storeBackendConfig_stores Number_toString safe fields s blob :
  Vault.encryptString safe (JSON_stringify Number_toString (JObj fields))
  = Return blob ->
  exists s1,
    storeBackendConfig Number_toString safe (Some (JObj fields)) s
    = (s1, Value true)
    /\ Vault.store (core s1)
       = <[Vault.KEYS_BACKEND_CONFIG := Vault.toString_latin1 blob]>
           (Vault.store (core s)).
Proof.
  intros He. unfold storeBackendConfig. run_effects. rewrite He.
  cbn. eexists. split; reflexivity.
Qed.

Lemma retrieveBackendConfig_decrypts safe s blob text config :
  Vault.store s !! Vault.KEYS_BACKEND_CONFIG
  = Some (Vault.toString_latin1 blob) ->
  blob <> [] ->
  Vault.decryptString safe blob = Return text ->
  JSON_parse text = Return config ->
  exists s', Vault.retrieveBackendConfig safe s = (s', Value (Some config)).
Proof.
  intros Hs Hne Hd Hp.
  unfold Vault.retrieveBackendConfig. run_effects. cbv beta iota.
  lookup_is Hs.
  destruct (Vault.toString_latin1 blob) as [|u us] eqn:Hl.
  { apply toString_latin1_nil in Hl. contradiction. }
  rewrite <- Hl, latin1_roundtrip, Hd. cbn. rewrite Hp. cbn.
  eexists. reflexivity.
Qed.

(** X20.  A configuration object saved by [storeBackendConfig] is read back
    by [retrieveBackendConfig] as it was: [JSON.parse] undoes
    [JSON.stringify] on strings with their escapes, booleans, [null], arrays
    and nested objects, and on the numbers that [Number::toString] prints as
    they are written.  [safeStorage] is assumed to encrypt the text
    faithfully. *)
Theorem stored_configuration_is_read_back
  (Number_toString : jsstring -> jsstring) (safe : Vault.SafeStorage)
  (fields : list (jsstring * json)) (s : Config.Service) :
  printed_as_written Number_toString (JObj fields) = true ->
  Vault.encrypts_faithfully safe
    (JSON_stringify Number_toString (JObj fields)) ->
  exists s1 s2,
    storeBackendConfig Number_toString safe (Some (JObj fields)) s
    = (s1, Value true)
    /\ Vault.retrieveBackendConfig safe (core s1)
       = (s2, Value (Some (JObj fields))).
Proof.
  intros Hexact (blob & He & Hne & Hd).
  destruct (storeBackendConfig_stores Number_toString safe fields s blob He)
    as (s1 & Hstore & Hs1).
  destruct (retrieveBackendConfig_decrypts safe (core s1) blob
              (JSON_stringify Number_toString (JObj fields)) (JObj fields))
    as [s2 Hread]; try assumption.
  - rewrite Hs1. apply lookup_insert_eq.
  - now apply JSON_parse_stringify.
  - now exists s1, s2.
Qed.

Lemma stored_configuration_is_read_back_witness :
  printed_as_written (fun lexeme => lexeme) (JObj sample) = true
  /\ exists s1 s2,
    storeBackendConfig (fun lexeme => lexeme) Vault.plain_safeStorage
      (Some (JObj sample)) fresh
    = (s1, Value true)
    /\ Vault.retrieveBackendConfig Vault.plain_safeStorage (core s1)
       = (s2, Value (Some (JObj sample))).
Proof.
  assert (H : printed_as_written (fun lexeme => lexeme) (JObj sample) = true)
    by (vm_compute; reflexivity).
  split; [exact H|].
  apply (stored_configuration_is_read_back (fun lexeme => lexeme)
           Vault.plain_safeStorage sample fresh H).
  eexists. split; [reflexivity|].
  split; [discriminate | vm_compute; reflexivity].
Defined.
